(** * build_swbd: the SWBD coastline packer (src/main.c)

    A shallow embedding of [main] of build_swbd: the cell accumulator that
    spools the segments of each one-degree cell, and the segment codec that
    delta-codes and bit-packs every spooled segment and backpatches the
    directory of the output file.

    Integers of the program ([int32_t]) are [Z]; the arithmetic that can
    leave the 32-bit range is written with [wrap32].  Coordinates read from
    the shape files are binary64 floats ([PrimFloat.float]).  The spool of a
    cell is the list of 32-bit words written to it, a byte buffer is a list
    of bytes (each a [Z] in [0, 256)), the spool files are a finite map from
    the cell indices of the name [cell_%03d_%03d] to their words. *)

From Stdlib Require Import ZArith Lia Bool.
From Stdlib Require Import Floats.PrimFloat Floats.FloatOps Floats.SpecFloat.
From Stdlib Require Uint63.
From Stdlib Require Ascii String.
From stdpp Require Import base option list gmap.
Import Ascii.AsciiSyntax String.StringSyntax.
Delimit Scope char_scope with char.
Delimit Scope string_scope with string.

Local Open Scope Z_scope.

(** ** Fatal conditions: the [exit (-1)] of [main] that depend on the data

    Memory is assumed to be there, the spool and output files to open and
    what is written to them to reach them, so the exits after [realloc],
    [calloc] and [fopen] are left out, as is the usage message.  [remove]
    is not assumed to work: [main] ignores what it returns, and the
    definitions whose name ends in [_fs] take the names on which it
    fails. *)

Inductive fatal : Type :=
| ShapeOpenFailed      (* SHPOpen == NULL *)
| BadReturn            (* fread of a declared vertex failed *)
| LonBiasOutOfRange    (* "lon bias out of range, terminating!" *)
| LatBiasOutOfRange.   (* "lat bias out of range, terminating!" *)

Inductive result (A : Type) : Type :=
| Ok (a : A)
| Exit (e : fatal).
Arguments Ok {A} a.
Arguments Exit {A} e.

#[global] Instance result_ret : MRet result := fun _ a => Ok a.
#[global] Instance result_bind : MBind result := fun _ _ k r =>
  match r with
  | Ok a => k a
  | Exit e => Exit e
  end.

(** A [for] loop whose body can exit: the elements of [l] in order. *)
Fixpoint for_each {S A : Type} (body : A -> S -> result S) (l : list A) (s : S)
  : result S :=
  match l with
  | [] => Ok s
  | a :: l' => s' ← body a s; for_each body l' s'
  end.

(** ** 32-bit integers *)

Definition wrap32 (z : Z) : Z := (z + 2 ^ 31) mod 2 ^ 32 - 2 ^ 31.

Definition add32 (a b : Z) : Z := wrap32 (a + b).
Definition sub32 (a b : Z) : Z := wrap32 (a - b).
Definition neg32 (a : Z) : Z := wrap32 (- a).

Definition int32 (z : Z) : Prop := - 2 ^ 31 <= z < 2 ^ 31.

(** ** The helpers of nvutility.h *)

(** Modelled from the spec: the macros [MIN] and [MAX] of nvutility.h, which
    is not under src/; the minimum and the maximum of two integers. *)
Definition MIN (a b : Z) : Z := if a <? b then a else b.
Definition MAX (a b : Z) : Z := if a >? b then a else b.

(** Modelled from the spec: [int_log2] of nvutility, which is not under
    src/.  The spec gives the widths as [floor(log2(m)) + 1], the code as
    [int_log2 (m) + 1], so [int_log2] is the floor of the base 2 logarithm. *)
Definition int_log2 (value : Z) : Z := Z.log2 value.

(** Bit [i] of a buffer, counted from the most significant bit of byte 0. *)
Definition get_bit (buffer : list Z) (i : Z) : bool :=
  match buffer !! Z.to_nat (i / 8) with
  | Some b => Z.testbit b (7 - i mod 8)
  | None => false
  end.

Definition set_bit (buffer : list Z) (i : Z) (v : bool) : list Z :=
  match buffer !! Z.to_nat (i / 8) with
  | Some b =>
      <[Z.to_nat (i / 8) :=
          if v then Z.setbit b (7 - i mod 8) else Z.clearbit b (7 - i mod 8)]> buffer
  | None => buffer
  end.

Fixpoint bit_pack_loop (buffer : list Z) (start : Z) (k : nat) (value : Z) : list Z :=
  match k with
  | O => buffer
  | S k' =>
      bit_pack_loop (set_bit buffer start (Z.testbit value (Z.of_nat k')))
        (start + 1) k' value
  end.

(** Modelled from the spec: [bit_pack] of nvutility, which is not under
    src/.  [bit_pack (buffer, start, numbits, value)] stores the low
    [numbits] bits of [value] in the bits [start .. start + numbits - 1] of
    the buffer, most significant bit first, and touches no other bit. *)
Definition bit_pack (buffer : list Z) (start numbits value : Z) : list Z :=
  bit_pack_loop buffer start (Z.to_nat numbits) value.

Fixpoint bit_unpack_loop (buffer : list Z) (start : Z) (k : nat) (acc : Z) : Z :=
  match k with
  | O => acc
  | S k' =>
      bit_unpack_loop buffer (start + 1) k' (2 * acc + Z.b2z (get_bit buffer start))
  end.

(** Modelled from the spec: [bit_unpack] of nvutility, the inverse of
    [bit_pack] that the reader of the format uses: the unsigned value of the
    [numbits] bits from [start]. *)
Definition bit_unpack (buffer : list Z) (start numbits : Z) : Z :=
  bit_unpack_loop buffer start (Z.to_nat numbits) 0.

(** The total lookup [a[k]] of a C array of integers; an index out of the
    array is undefined in C, the model reads 0 there. *)
Definition idx (a : list Z) (k : Z) : Z := default 0 (a !! Z.to_nat k).

(** ** The segment codec (main.c, lines 574-760) *)

(** [max_bias = (int32_t) (pow (2.0, 17.0) - 1.0)], line 576. *)
Definition max_bias : Z := Eval cbv in 2 ^ 17 - 1.

(** The [for (k = 0 ; k < segCount ; k++)] loop of lines 646-669: reads the
    vertices of a segment from the spool [fp] into the calloc'ed arrays and
    tracks the least and the greatest difference of adjacent vertices
    ([diff_x = (diff_x[0], diff_x[1])]).  [n] counts the iterations left. *)
Fixpoint read_vertices (n : nat) (k : Z) (fp segx segy : list Z)
    (diff_x diff_y : Z * Z) : result (list Z * list Z * (Z * Z) * (Z * Z) * list Z) :=
  match n with
  | O => Ok (segx, segy, diff_x, diff_y, fp)
  | S n' =>
      match fp with
      | x :: y :: fp' =>
          let segx := <[Z.to_nat k := x]> segx in
          let segy := <[Z.to_nat k := y]> segy in
          let diff_x :=
            if k =? 0 then diff_x
            else (MIN (sub32 (idx segx k) (idx segx (k - 1))) (fst diff_x),
                  MAX (sub32 (idx segx k) (idx segx (k - 1))) (snd diff_x)) in
          let diff_y :=
            if k =? 0 then diff_y
            else (MIN (sub32 (idx segy k) (idx segy (k - 1))) (fst diff_y),
                  MAX (sub32 (idx segy k) (idx segy (k - 1))) (snd diff_y)) in
          read_vertices n' (k + 1) fp' segx segy diff_x diff_y
      | _ => Exit BadReturn
      end
  end.

(** The [for (k = 1 ; k < segCount ; k++)] loop of lines 739-746. *)
Fixpoint pack_offsets (n : nat) (k : Z) (segx segy : list Z)
    (lon_offset_bits lat_offset_bits bias_x bias_y : Z)
    (buffer : list Z) (pos : Z) : list Z * Z :=
  match n with
  | O => (buffer, pos)
  | S n' =>
      let xoff := add32 (sub32 (idx segx k) (idx segx (k - 1))) bias_x in
      let yoff := add32 (sub32 (idx segy k) (idx segy (k - 1))) bias_y in
      let buffer := bit_pack buffer pos lon_offset_bits xoff in
      let pos := pos + lon_offset_bits in
      let buffer := bit_pack buffer pos lat_offset_bits yoff in
      let pos := pos + lat_offset_bits in
      pack_offsets n' (k + 1) segx segy lon_offset_bits lat_offset_bits
        bias_x bias_y buffer pos
  end.

(** The widths and biases of a segment, lines 672-704; the two bias checks
    exit. *)
Record layout : Type := Layout {
  bias_x : Z; bias_y : Z;
  range_x : Z; range_y : Z;
  count_bits : Z; lon_offset_bits : Z; lat_offset_bits : Z
}.

Definition segment_layout (segCount : Z) (diff_x diff_y : Z * Z) : result layout :=
  let bias_x := neg32 (fst diff_x) in
  let bias_y := neg32 (fst diff_y) in
  if (bias_x >? max_bias) || (bias_x <? - max_bias) then Exit LonBiasOutOfRange
  else if (bias_y >? max_bias) || (bias_y <? - max_bias) then Exit LatBiasOutOfRange
  else
    let range_x := sub32 (snd diff_x) (fst diff_x) in
    let range_y := sub32 (snd diff_y) (fst diff_y) in
    let range_x := if range_x =? 0 then 1 else range_x in
    let range_y := if range_y =? 0 then 1 else range_y in
    let count_bits := int_log2 segCount + 1 in
    let lon_offset_bits := int_log2 range_x + 1 in
    let lat_offset_bits := int_log2 range_y + 1 in
    Ok (Layout bias_x bias_y range_x range_y count_bits lon_offset_bits lat_offset_bits).

(** The number of bits that lines 709-710 compute in [size]: the fields of
    the head and [segCount] offset pairs, one more than are packed.

    [size] and [pos] are [int32_t] in the source.  The model computes them
    without the wrap-around: as long as this number is below [2^31] they
    are the values of the program ([size_bits_int32] below: [pos] never
    passes it), and from [2^31] on the arithmetic of the program
    overflows, which C leaves undefined.  The statements about the size of
    the buffer are made for segments whose number of bits is below [2^31]. *)
Definition size_bits (segCount : Z) (l : layout) : Z :=
  5 + 5 + 5 + count_bits l + lon_offset_bits l + lat_offset_bits l
  + 18 + 18 + 26 + 25
  + (segCount - 1) * (lon_offset_bits l + lat_offset_bits l).

(** The size in bytes of the write buffer, lines 709-712. *)
Definition buffer_size (segCount : Z) (l : layout) : Z :=
  let size := size_bits segCount l in
  Z.quot size 8 + 1.

(** Lines 717-746: the calloc'ed buffer and the fields packed into it.
    [pos], an [int32_t] too, never passes the number of bits [size_bits]. *)
Definition pack_buffer (segCount : Z) (segx segy : list Z) (l : layout) : list Z :=
  let size := buffer_size segCount l in
  let buffer := replicate (Z.to_nat size) 0 in
  let pos := 0 in
  let buffer := bit_pack buffer pos 5 (count_bits l) in
  let pos := pos + 5 in
  let buffer := bit_pack buffer pos 5 (lon_offset_bits l) in
  let pos := pos + 5 in
  let buffer := bit_pack buffer pos 5 (lat_offset_bits l) in
  let pos := pos + 5 in
  let buffer := bit_pack buffer pos (count_bits l) segCount in
  let pos := pos + count_bits l in
  let buffer := bit_pack buffer pos 18 (add32 (bias_x l) max_bias) in
  let pos := pos + 18 in
  let buffer := bit_pack buffer pos 18 (add32 (bias_y l) max_bias) in
  let pos := pos + 18 in
  let buffer := bit_pack buffer pos 26 (idx segx 0) in
  let pos := pos + 26 in
  let buffer := bit_pack buffer pos 25 (idx segy 0) in
  let pos := pos + 25 in
  fst (pack_offsets (Z.to_nat (segCount - 1)) 1 segx segy
         (lon_offset_bits l) (lat_offset_bits l) (bias_x l) (bias_y l) buffer pos).

(** One segment of the spool, lines 615-759, after its count was read:
    the packed buffer and what is left of the spool. *)
Definition pack_segment (segCount : Z) (fp : list Z) : result (list Z * list Z) :=
  let segx := replicate (Z.to_nat segCount) 0 in
  let segy := replicate (Z.to_nat segCount) 0 in
  let diff_x := (99999999, -99999999) in
  let diff_y := (99999999, -99999999) in
  '(segx, segy, diff_x, diff_y, fp') ←
    read_vertices (Z.to_nat segCount) 0 fp segx segy diff_x diff_y;
  l ← segment_layout segCount diff_x diff_y;
  Ok (pack_buffer segCount segx segy l, fp').

(** ** The reader of a packed segment *)





(** ** Files *)

(** A binary stream open for writing: its bytes and the file position. *)
Record stream : Type := Stream { bytes : list Z; cursor : Z }.

(** [fwrite (buf, length buf, 1, f)]: the bytes replace those at the file
    position and extend the file past its end (a gap, which [main] never
    leaves, would read as zeros). *)
Definition fwrite (buf : list Z) (f : stream) : stream :=
  let p := Z.to_nat (cursor f) in
  Stream
    (take p (bytes f) ++ replicate (p - length (bytes f))%nat 0 ++ buf
       ++ drop (p + length buf)%nat (bytes f))
    (cursor f + Z.of_nat (length buf)).

(** [fseek (f, offset, SEEK_SET)] and [fseek (f, 0, SEEK_END)]. *)
Definition fseek_set (offset : Z) (f : stream) : stream := Stream (bytes f) offset.
Definition fseek_end (f : stream) : stream :=
  Stream (bytes f) (Z.of_nat (length (bytes f))).
Definition ftell (f : stream) : Z := cursor f.

(** The spool files [cell_%03d_%03d] are named by the two numbers of their
    name (longitude index, latitude index), and the content of a spool is
    the list of the [int32_t] words written to it: the files on disk are a
    [gmap (Z * Z) (list Z)].  The output file is not one of them. *)

(** [remove (fname)], lines 184 and 766.  [main] does not look at what it
    returns.  Where the system refuses to delete the file (a file of
    another user in a sticky directory, say) the file stays as it is, and
    it can still be read and appended to; [stuck] tells the names for which
    the system refuses, the same ones at the start of the run and at its
    end. *)
Definition remove (stuck : Z * Z -> bool) (fname : Z * Z)
    (disk : gmap (Z * Z) (list Z)) : gmap (Z * Z) (list Z) :=
  if stuck fname then disk else delete fname disk.

(** A working directory in which [remove] deletes every file it is given. *)
Definition removes_all : Z * Z -> bool := fun _ => false.

(** The offset of the directory entry of cell ([j], [i]), lines 556 and
    605. *)
Definition header_offset (i j : Z) : Z := (i * 360 + j) * (3 * 4) + 128.

(** The three 32-bit fields of a directory entry packed into [head_buf],
    lines 564-567 and 775-778. *)
Definition pack_header (head_buf : list Z) (address num_segments num_vertices : Z)
  : list Z :=
  let k := 8 * 4 in
  let pos := 0 in
  let head_buf := bit_pack head_buf pos k address in
  let pos := pos + k in
  let head_buf := bit_pack head_buf pos k num_segments in
  let pos := pos + k in
  bit_pack head_buf pos k num_vertices.

(** The directory entry at [offset] of a file, as the reader unpacks it. *)
Definition read_header (file : list Z) (offset : Z) : Z * Z * Z :=
  let head_buf := take 12 (drop (Z.to_nat offset) file) in
  (bit_unpack head_buf 0 32, bit_unpack head_buf 32 32, bit_unpack head_buf 64 32).

(** ** The codec pass (main.c, lines 517-805) *)

Record codec_state : Type := Codec {
  ofp : stream;               (* the output file *)
  cells : gmap (Z * Z) (list Z);        (* the spool files on disk *)
  head_buf : list Z;          (* uint8_t head_buf[12] *)
  packed_total : Z            (* total *)
}.

(** The [while (fread (&segCount, ...))] loop of lines 611-760 over the
    spool [fp] of one cell.  Every iteration reads at least one word, so
    [length fp] iterations are enough. *)
Fixpoint cell_loop (fuel : nat) (fp : list Z) (ofp : stream)
    (num_segments num_vertices total : Z) : result (stream * Z * Z * Z) :=
  match fuel with
  | O => Ok (ofp, num_segments, num_vertices, total)
  | S fuel' =>
      match fp with
      | [] => Ok (ofp, num_segments, num_vertices, total)
      | segCount :: fp =>
          if segCount >? 1 then
            let num_vertices := add32 num_vertices segCount in
            let num_segments := num_segments + 1 in
            let total := add32 total segCount in
            '(buffer, fp) ← pack_segment segCount fp;
            cell_loop fuel' fp (fwrite buffer ofp) num_segments num_vertices total
          else cell_loop fuel' fp ofp num_segments num_vertices total
      end
  end.

(** The body of the longitude loop, lines 589-783, for the cell ([j], [i]). *)
Definition codec_cell_fs (stuck : Z * Z -> bool) (i j : Z) (st : codec_state)
  : result codec_state :=
  let num_segments := 0 in
  let num_vertices := 0 in
  match cells st !! (j, i) with
  | Some fp =>
      let offset := header_offset i j in
      let address := wrap32 (ftell (ofp st)) in
      '(ofp, num_segments, num_vertices, total) ←
        cell_loop (length fp) fp (ofp st) num_segments num_vertices (packed_total st);
      let cells := remove stuck (j, i) (cells st) in
      let ofp := fseek_set offset ofp in
      let head_buf := pack_header (head_buf st) address num_segments num_vertices in
      let ofp := fwrite head_buf ofp in
      let ofp := fseek_end ofp in
      Ok (Codec ofp cells head_buf total)
  | None => Ok st
  end.

(** The latitude and longitude loops of lines 581-793. *)
Definition codec_loop_fs (stuck : Z * Z -> bool) (st : codec_state)
  : result codec_state :=
  for_each (fun i st =>
              for_each (fun j st => codec_cell_fs stuck i j st) (seqZ 0 360) st)
    (seqZ 0 180) st.

(** Lines 552-571: the placeholder entries of the directory. *)
Definition init_header_cell (i j : Z) (f : stream * list Z) : stream * list Z :=
  let '(ofp, head_buf) := f in
  let offset := header_offset i j in
  let address := 0 in
  let num_segments := 0 in
  let num_vertices := 0 in
  let ofp := fseek_set offset ofp in
  let head_buf := pack_header head_buf address num_segments num_vertices in
  (fwrite head_buf ofp, head_buf).

Definition init_header (f : stream * list Z) : stream * list Z :=
  foldl (fun f i => foldl (fun f j => init_header_cell i j f) f (seqZ 0 360))
    f (seqZ 0 180).

(** Lines 543-547: the 128 bytes of the version block, the string
    [FILE_VERSION] of version.h (not under src/, a parameter here) and a
    new line, padded with NUL. *)
Definition version_block (FILE_VERSION : list Z) : list Z :=
  take 128 (FILE_VERSION ++ [10] ++ replicate 128 0).

(** The second pass: lines 517-805.  [head_buf] is not initialised in the
    source; every one of its 96 bits is packed before it is written, so its
    first content (zeros here) never reaches the file. *)
Definition codec_pass_fs (stuck : Z * Z -> bool) (FILE_VERSION : list Z)
    (cells : gmap (Z * Z) (list Z)) : result codec_state :=
  let total := 0 in
  let ofp := Stream [] 0 in
  let ofp := fwrite (version_block FILE_VERSION) ofp in
  let '(ofp, head_buf) := init_header (ofp, replicate 12 0) in
  codec_loop_fs stuck (Codec ofp cells head_buf total).

(** ** The cell accumulator (main.c, lines 166-512) *)

(** The fields of shapelib's [SHPObject] that [main] reads. *)
Record SHPObject : Type := {
  nParts : Z;
  panPartStart : list Z;
  nVertices : Z;
  padfX : list float;
  padfY : list float
}.

(** What is found under the name of a shape file: a file [SHPOpen]
    refuses, or the shapes [SHPReadObject] returns for 0 .. numShapes - 1. *)
Inductive shp_file : Type :=
| Unreadable
| Shapes (shapes : list SHPObject).

(** The input directory: the file, if any, named
    [%1c%03d%1c%02d%1c.shp] for the longitude hemisphere ([true] is 'e'),
    the longitude, the latitude hemisphere ([true] is 'n'), the latitude and
    the index [ds] of the data set letter in [dataset]. *)
Definition input_dir : Type := bool -> Z -> bool -> Z -> Z -> option shp_file.

(** [a[k]] for an array of doubles; as [idx], and 0.0 out of the array. *)
Definition fidx (a : list float) (k : Z) : float :=
  default PrimFloat.zero (a !! Z.to_nat k).

(** An [int] converted to [double]; [main] converts cell indices only. *)
Definition double_of_int (z : Z) : float := PrimFloat.of_uint63 (Uint63.of_Z z).

(** [(int32_t) a]: the conversion truncates toward zero.  A value outside
    the 32-bit range is undefined in C; the model wraps it. *)
Definition int32_of_double (a : float) : Z :=
  wrap32
    match Prim2SF a with
    | S754_finite s m e =>
        let v := if 0 <=? e then Z.pos m * 2 ^ e else Z.pos m / 2 ^ (- e) in
        if s then - v else v
    | _ => 0
    end.

(** Modelled from the spec: the macro [NINT] of nvutility.h, which is not
    under src/; the nearest integer, halves away from zero. *)
Definition NINT (a : float) : Z :=
  if PrimFloat.ltb a 0 then int32_of_double (a - 0.5) else int32_of_double (a + 0.5).

(** The test of lines 408-409 on the position in arc seconds.  The constant
    1.00000000000000015 of the source is not a binary64 value; the compiler
    reads it as the nearest one, [1 + 2^-52], written in hexadecimal here. *)
Definition on_boundary (cornerx cornery : float * float) (slon slat : float) : bool :=
  PrimFloat.ltb (abs (slon - fst cornerx)) 0x1.0000000000001p+0
  || PrimFloat.ltb (abs (slon - snd cornerx)) 0x1.0000000000001p+0
  || PrimFloat.ltb (abs (slat - fst cornery)) 1
  || PrimFloat.ltb (abs (slat - snd cornery)) 1.

(** The state of the first pass: the spool files on disk and the variables
    of [main] that live across vertices. *)
Record acc_state : Type := Acc {
  spools : gmap (Z * Z) (list Z);
  segCount : Z;
  seg_x : list Z;          (* segx *)
  seg_y : list Z;          (* segy *)
  bad_flag : bool;
  total : Z
}.

(** The words of [segx[k]], [segy[k]] for [n] indices from [k], as lines
    430-434 write them. *)
Fixpoint segment_words (n : nat) (k : Z) (segx segy : list Z) : list Z :=
  match n with
  | O => []
  | S n' => idx segx k :: idx segy k :: segment_words n' (k + 1) segx segy
  end.

(** Lines 426-435 and 480-488: a segment of more than one vertex is
    appended to the open spool [fname]. *)
Definition close_segment (fname : Z * Z) (st : acc_state) : gmap (Z * Z) (list Z) :=
  if segCount st >? 1 then
    alter (fun fp => fp ++ segCount st
                       :: segment_words (Z.to_nat (segCount st)) 0 (seg_x st) (seg_y st))
      fname (spools st)
  else spools st.

(** [a = realloc (a, (segCount + 1) * sizeof (int32_t)); a[segCount] = v]. *)
Definition realloc_store (a : list Z) (segCount v : Z) : list Z :=
  take (Z.to_nat segCount) a ++ [v].

(** The flag [start_segment] after lines 365-389, with the new values of
    [bad_flag] and [numParts]. *)
Definition start_flags (shape : SHPObject) (j numParts : Z) (bad_flag : bool)
  : bool * bool * Z :=
  let start_segment := false in
  let start_segment :=
    if (j =? 0) && (nParts shape >? 0) then true else start_segment in
  let '(start_segment, bad_flag) :=
    if bad_flag then (true, false) else (start_segment, bad_flag) in
  if (numParts <? nParts shape) && (idx (panPartStart shape) numParts =? j)
  then (true, bad_flag, numParts + 1)
  else (start_segment, bad_flag, numParts).

(** The body of the vertex loop, lines 365-467, for vertex [j].  The
    constant 359.99999 of line 417 is written as the binary64 value nearest
    to it. *)
Definition vertex_step (fname : Z * Z) (cornerx cornery : float * float)
    (shape : SHPObject) (s : acc_state * Z) (j : Z) : acc_state * Z :=
  let '(st, numParts) := s in
  let '(start_segment, bad_flag, numParts) :=
    start_flags shape j numParts (bad_flag st) in
  let lon := (fidx (padfX shape) j + 180)%float in
  let lat := (fidx (padfY shape) j + 90)%float in
  let slon := (lon * 3600)%float in
  let slat := (lat * 3600)%float in
  if on_boundary cornerx cornery slon slat then
    (Acc (spools st) (segCount st) (seg_x st) (seg_y st) true (total st), numParts)
  else
    let lon := if PrimFloat.eqb lon 360 then 0x1.67ffff583a53cp+8%float else lon in
    let '(spools, segCount) :=
      if start_segment then (close_segment fname st, 0)
      else (spools st, segCount st) in
    let segx := realloc_store (seg_x st) segCount (NINT (lon * 100000)) in
    let segy := realloc_store (seg_y st) segCount (NINT (lat * 100000)) in
    (Acc spools (segCount + 1) segx segy bad_flag (total st), numParts).

(** The body of the shape loop, lines 354-474. *)
Definition read_shape (fname : Z * Z) (cornerx cornery : float * float)
    (st : acc_state) (shape : SHPObject) : acc_state :=
  let st := Acc (spools st) (segCount st) (seg_x st) (seg_y st) (bad_flag st)
              (add32 (total st) (nVertices shape)) in
  if nVertices shape >=? 2 then
    fst (foldl (vertex_step fname cornerx cornery shape) (st, 1)
           (seqZ 0 (nVertices shape)))
  else st.

(** Lines 240-254: the first data set letter whose file exists. *)
Fixpoint first_dataset (exists_ : Z -> option shp_file) (dss : list Z)
  : option (Z * shp_file) :=
  match dss with
  | [] => None
  | ds :: dss' =>
      match exists_ ds with
      | Some f => Some (ds, f)
      | None => first_dataset exists_ dss'
      end
  end.

Definition find_dataset (dir : input_dir) (lnh : bool) (ln : Z) (lth : bool) (lt : Z)
  : option (Z * shp_file) :=
  first_dataset (dir lnh ln lth lt) (seqZ 0 6).

(** Lines 307-311: [fopen (fname, "ab")] creates the spool when it is not
    there and keeps what it holds when it is. *)
Definition open_append (fname : Z * Z) (disk : gmap (Z * Z) (list Z))
  : gmap (Z * Z) (list Z) :=
  <[fname := default [] (disk !! fname)]> disk.

(** Lines 324-501 for an open shape file: all its shapes, then the last
    segment. *)
Definition read_shapes (fname : Z * Z) (cornerx cornery : float * float)
    (shapes : list SHPObject) (st : acc_state) : acc_state :=
  let st := Acc (spools st) (segCount st) (seg_x st) (seg_y st) false (total st) in
  let st := foldl (read_shape fname cornerx cornery) st shapes in
  if segCount st >? 1 then
    Acc (close_segment fname st) 0 (seg_x st) (seg_y st) (bad_flag st) (total st)
  else st.

(** The cell indices of a shape file name, lines 261-302: the two numbers
    of the spool name. *)
Definition cell_of (lnh : bool) (ln : Z) (lth : bool) (lt : Z) : Z * Z :=
  (if lnh then ln + 180 else - ln + 180, if lth then lt + 90 else - lt + 90).

(** The body of the latitude loop, lines 235-502. *)
Definition accumulate_cell (dir : input_dir) (lnh : bool) (ln : Z) (lth : bool)
    (lt : Z) (st : acc_state) : result acc_state :=
  match find_dataset dir lnh ln lth lt with
  | Some (file_ext, file) =>
      let fname := cell_of lnh ln lth lt in
      let cornerx := ((double_of_int (fst fname) * 3600)%float,
                      (double_of_int (fst fname + 1) * 3600)%float) in
      let cornery := ((double_of_int (snd fname) * 3600)%float,
                      (double_of_int (snd fname + 1) * 3600)%float) in
      let st := Acc (open_append fname (spools st)) 0 (seg_x st) (seg_y st)
                  (bad_flag st) (total st) in
      match file with
      | Unreadable => Exit ShapeOpenFailed
      | Shapes shapes => Ok (read_shapes fname cornerx cornery shapes st)
      end
  | None => Ok st
  end.

(** The four loops of lines 191-506: hemisphere 'w' then 'e', the
    longitudes, hemisphere 's' then 'n', the latitudes. *)
Definition lon_range (lnh : bool) : list Z := if lnh then seqZ 0 180 else seqZ 1 180.
Definition lat_range (lth : bool) : list Z := if lth then seqZ 0 90 else seqZ 1 90.

Definition accumulate (dir : input_dir) (st : acc_state) : result acc_state :=
  for_each (fun lnh st =>
    for_each (fun ln st =>
      for_each (fun lth st =>
        for_each (fun lt st => accumulate_cell dir lnh ln lth lt st)
          (lat_range lth) st)
        [false; true] st)
      (lon_range lnh) st)
    [false; true] st.

(** Lines 179-186: [remove] is called on the spool name of every cell, for
    the spools a previous run left. *)
Definition remove_old_cells_fs (stuck : Z * Z -> bool) (disk : gmap (Z * Z) (list Z))
  : gmap (Z * Z) (list Z) :=
  foldl (fun disk i => foldl (fun disk j => remove stuck (j, i) disk) disk (seqZ 0 360))
    disk (seqZ 0 180).

(** ** The program *)

(** [main] on an input directory and the spool files found on disk, in a
    working directory where [remove] fails on the names [stuck]: the
    output file, the spool files left and the total of packed vertices. *)
Definition main_fs (stuck : Z * Z -> bool) (dir : input_dir) (FILE_VERSION : list Z)
    (disk : gmap (Z * Z) (list Z)) : result codec_state :=
  let disk := remove_old_cells_fs stuck disk in
  st ← accumulate dir (Acc disk 0 [] [] false 0);
  codec_pass_fs stuck FILE_VERSION (spools st).

(** *** The program where every [remove] succeeds

    The run in a working directory of its own, in which [remove] deletes
    every spool it is given: [main] and its parts with [removes_all] for
    [stuck]. *)
Definition codec_cell : Z -> Z -> codec_state -> result codec_state :=
  codec_cell_fs removes_all.
Definition codec_loop : codec_state -> result codec_state :=
  codec_loop_fs removes_all.
Definition codec_pass : list Z -> gmap (Z * Z) (list Z) -> result codec_state :=
  codec_pass_fs removes_all.
Definition remove_old_cells : gmap (Z * Z) (list Z) -> gmap (Z * Z) (list Z) :=
  remove_old_cells_fs removes_all.
Definition main : input_dir -> list Z -> gmap (Z * Z) (list Z) -> result codec_state :=
  main_fs removes_all.

(** ** File names (main.c, lines 183, 242, 265-295, 316, 524-525, 595)

    A C string is the list of its characters.  The buffers [fname],
    [shpname] and [outname] have 512 bytes; a name that does not fit is
    undefined behaviour and is left out. *)

(** The characters of a string literal. *)
Definition str (s : String.string) : list Ascii.ascii := String.list_ascii_of_string s.
Arguments str s%_string.

(** The decimal digit [d]. *)
Definition digit (d : Z) : Ascii.ascii := Ascii.ascii_of_N (Z.to_N (48 + d)).

(** The decimal digits of [n >= 0], most significant first, in front of
    [acc]; an [int] has ten digits at most. *)
Fixpoint decimal_digits (fuel : nat) (n : Z) (acc : list Ascii.ascii)
  : list Ascii.ascii :=
  match fuel with
  | O => acc
  | S fuel' =>
      let acc := digit (n mod 10) :: acc in
      if n / 10 =? 0 then acc else decimal_digits fuel' (n / 10) acc
  end.

Definition decimal (n : Z) : list Ascii.ascii := decimal_digits 10 n [].

(** The conversion [%0wd] of [sprintf]: the decimal digits of the number,
    with zeros in front up to the width [w], the sign first and counted in
    the width. *)
Definition fmt_0d (w : nat) (n : Z) : list Ascii.ascii :=
  if n <? 0 then
    "-"%char :: replicate (w - 1 - length (decimal (- n))) "0"%char ++ decimal (- n)
  else replicate (w - length (decimal n)) "0"%char ++ decimal n.

(** [sprintf (fname, "cell_%03d_%03d", j, i)], lines 183 and 595, and
    lines 265-295 with the numbers of [cell_of]. *)
Definition cell_name (j i : Z) : list Ascii.ascii :=
  str "cell_" ++ fmt_0d 3 j ++ str "_" ++ fmt_0d 3 i.

(** [dataset[ds]], the letters of the data sets (line 148). *)
Definition dataset (ds : Z) : Ascii.ascii :=
  default "000"%char (str "aefins" !! Z.to_nat ds).

(** [sprintf (shpname, "%s/%1c%03d%1c%02d%1c.shp", dirname, lonhem, ln,
    lathem, lt, dataset[ds])], lines 242 and 316, with the hemisphere
    letters of lines 193-227. *)
Definition shp_name (dirname : list Ascii.ascii) (lnh : bool) (ln : Z) (lth : bool)
    (lt ds : Z) : list Ascii.ascii :=
  let lonhem := if lnh then "e"%char else "w"%char in
  let lathem := if lth then "n"%char else "s"%char in
  dirname ++ str "/" ++ [lonhem] ++ fmt_0d 3 ln ++ [lathem] ++ fmt_0d 2 lt
    ++ [dataset ds] ++ str ".shp".

(** [strcmp (a, b) == 0]. *)
Fixpoint str_eqb (a b : list Ascii.ascii) : bool :=
  match a, b with
  | [], [] => true
  | x :: a', y :: b' => Ascii.eqb x y && str_eqb a' b'
  | _, _ => false
  end.

(** Lines 524-525: the name of the output file, [argv[2]] with ".ccl"
    added unless its last four characters are ".ccl".  For a name of
    fewer than four characters [&outname[strlen (outname) - 4]] points
    before the array, and a name that does not fit in [outname] overflows
    it: both are undefined, [None] here. *)
Definition output_name (arg : list Ascii.ascii) : option (list Ascii.ascii) :=
  let outname := arg in
  if (length outname <? 4)%nat || (512 <=? length outname)%nat then None
  else if negb (str_eqb (drop (length outname - 4) outname) (str ".ccl")) then
    if (512 <=? length arg + 4)%nat then None else Some (arg ++ str ".ccl")
  else Some outname.
(** ** Segments as lists of vertices

    The statements below speak of a segment as the list of its vertices;
    these definitions relate that view to the words of the spool and to
    the fields of the bit stream. *)

(** The words of the vertices of a segment in a spool, and the record
    that [close_segment] writes for it. *)
Definition vertex_words (V : list (Z * Z)) : list Z :=
  flat_map (fun v => [fst v; snd v]) V.

Definition spooled (V : list (Z * Z)) : list Z :=
  Z.of_nat (length V) :: vertex_words V.

(** The range of a vertex in micro units: longitude 0-35999999, latitude
    0-17999999 (the header comment of main.c). *)
Definition legal_vertex (v : Z * Z) : Prop :=
  0 <= fst v <= 35999999 /\ 0 <= snd v <= 17999999.

(** The differences of adjacent elements, [d[k] = x[k] - x[k - 1]]. *)
Fixpoint deltas (xs : list Z) : list Z :=
  match xs with
  | x0 :: ((x1 :: _) as xs') => (x1 - x0) :: deltas xs'
  | _ => []
  end.

Definition list_min (l : list Z) : Z :=
  match l with
  | [] => 0
  | d :: l' => foldr Z.min d l'
  end.

Definition list_max (l : list Z) : Z :=
  match l with
  | [] => 0
  | d :: l' => foldr Z.max d l'
  end.

(** What [read_vertices] leaves in [diff_x] after the elements [xs] that
    follow [prev]. *)
Fixpoint scan_diffs (prev : option Z) (xs : list Z) (d : Z * Z) : Z * Z :=
  match xs with
  | [] => d
  | x :: xs' =>
      scan_diffs (Some x) xs'
        match prev with
        | None => d
        | Some p => (MIN (sub32 x p) (fst d), MAX (sub32 x p) (snd d))
        end
  end.

(** The biases and widths [main] computes for the segment [V]. *)
Definition layout_of (V : list (Z * Z)) : result layout :=
  let segCount := Z.of_nat (length V) in
  '(_, _, diff_x, diff_y, _) ←
    read_vertices (length V) 0 (vertex_words V)
      (replicate (length V) 0) (replicate (length V) 0)
      (99999999, -99999999) (99999999, -99999999);
  segment_layout segCount diff_x diff_y.

(** The fields of a bit stream, each a width and a value, packed one after
    the other from [pos]. *)
Definition pack_fields (fields : list (Z * Z)) (buffer : list Z) (pos : Z)
  : list Z * Z :=
  foldl (fun bp f => (bit_pack (fst bp) (snd bp) (fst f) (snd f), snd bp + fst f))
    (buffer, pos) fields.

Definition total_bits (fields : list (Z * Z)) : Z :=
  foldr (fun f n => fst f + n) 0 fields.

(** The fields that [pack_offsets] packs. *)
Fixpoint offset_fields (n : nat) (k : Z) (segx segy : list Z)
    (lon_offset_bits lat_offset_bits bias_x bias_y : Z) : list (Z * Z) :=
  match n with
  | O => []
  | S n' =>
      (lon_offset_bits, add32 (sub32 (idx segx k) (idx segx (k - 1))) bias_x)
      :: (lat_offset_bits, add32 (sub32 (idx segy k) (idx segy (k - 1))) bias_y)
      :: offset_fields n' (k + 1) segx segy lon_offset_bits lat_offset_bits
           bias_x bias_y
  end.

(** The fields that [pack_buffer] packs, in their order. *)
Definition segment_fields (segCount : Z) (segx segy : list Z) (l : layout)
  : list (Z * Z) :=
  [ (5, count_bits l); (5, lon_offset_bits l); (5, lat_offset_bits l);
    (count_bits l, segCount);
    (18, add32 (bias_x l) max_bias); (18, add32 (bias_y l) max_bias);
    (26, idx segx 0); (25, idx segy 0) ]
  ++ offset_fields (Z.to_nat (segCount - 1)) 1 segx segy
       (lon_offset_bits l) (lat_offset_bits l) (bias_x l) (bias_y l).

(** The least and the greatest difference of the longitudes and of the
    latitudes of a segment: [min(dx)], [max(dx)], [min(dy)], [max(dy)]. *)
Definition min_dx (V : list (Z * Z)) : Z := list_min (deltas (map fst V)).
Definition max_dx (V : list (Z * Z)) : Z := list_max (deltas (map fst V)).
Definition min_dy (V : list (Z * Z)) : Z := list_min (deltas (map snd V)).
Definition max_dy (V : list (Z * Z)) : Z := list_max (deltas (map snd V)).

(** The range [hi - lo] of the differences, forced to 1 when it is zero
    (lines 692-697). *)
Definition forced_range (lo hi : Z) : Z := if hi - lo =? 0 then 1 else hi - lo.

(** The biases, ranges and widths of a segment in terms of its least and
    greatest differences. *)
Definition layout_view (V : list (Z * Z)) : layout :=
  Layout (- min_dx V) (- min_dy V)
    (forced_range (min_dx V) (max_dx V)) (forced_range (min_dy V) (max_dy V))
    (int_log2 (Z.of_nat (length V)) + 1)
    (int_log2 (forced_range (min_dx V) (max_dx V)) + 1)
    (int_log2 (forced_range (min_dy V) (max_dy V)) + 1).

(** No bias check fails: [|bias| <= max_bias] for both coordinates. *)
Definition bias_in_range (V : list (Z * Z)) : Prop :=
  Z.abs (- min_dx V) <= 2 ^ 17 - 1 /\ Z.abs (- min_dy V) <= 2 ^ 17 - 1.

(** The number of bits that [main] computes in [size] for the segment [V]
    is below [2^31]: the 32-bit arithmetic of [size] and [pos] does not
    overflow. *)
Definition size_fits (V : list (Z * Z)) : Prop :=
  size_bits (Z.of_nat (length V)) (layout_view V) < 2 ^ 31.

(** The number of bits of the fields packed for a segment of [n] vertices. *)
Definition packed_bits (n : Z) (l : layout) : Z :=
  5 + 5 + 5 + count_bits l + 18 + 18 + 26 + 25
  + (n - 1) * (lon_offset_bits l + lat_offset_bits l).

(** ** Views of the accumulator *)

(** The test of lines 408-409 for vertex [j] of a shape. *)
Definition vertex_on_boundary (cornerx cornery : float * float) (shape : SHPObject)
    (j : Z) : bool :=
  on_boundary cornerx cornery
    ((fidx (padfX shape) j + 180) * 3600)%float
    ((fidx (padfY shape) j + 90) * 3600)%float.

(** The point that lines 460-461 store for vertex [j] when it is kept. *)
Definition stored_point (shape : SHPObject) (j : Z) : Z * Z :=
  let lon := (fidx (padfX shape) j + 180)%float in
  let lat := (fidx (padfY shape) j + 90)%float in
  let lon := if PrimFloat.eqb lon 360 then 0x1.67ffff583a53cp+8%float else lon in
  (NINT (lon * 100000), NINT (lat * 100000)).

(** The state and [numParts] when the vertex loop of a shape reaches
    vertex [j], from the state [st] at the head of the loop. *)
Definition before_vertex (fname : Z * Z) (cornerx cornery : float * float)
    (shape : SHPObject) (st : acc_state) (j : Z) : acc_state * Z :=
  foldl (vertex_step fname cornerx cornery shape) (st, 1) (seqZ 0 j).

(** The vertices of the segment in progress: the first [segCount] elements
    of [segx] and [segy]. *)
Definition pending (st : acc_state) : list (Z * Z) :=
  zip (take (Z.to_nat (segCount st)) (seg_x st))
      (take (Z.to_nat (segCount st)) (seg_y st)).

(** The part starts of a shape, but for part 0, are vertex indices in
    increasing order. *)
Definition parts_sorted (shape : SHPObject) : Prop :=
  (forall p, 1 <= p < nParts shape -> 0 <= idx (panPartStart shape) p)
  /\ (forall p q, 1 <= p < q -> q < nParts shape ->
        idx (panPartStart shape) p < idx (panPartStart shape) q).

(** A point some vertex of the shapes that is off the cell boundary stores. *)
Definition kept_point (cornerx cornery : float * float) (shapes : list SHPObject)
    (p : Z * Z) : Prop :=
  exists shape j, shape ∈ shapes /\ 0 <= j < nVertices shape
    /\ vertex_on_boundary cornerx cornery shape j = false
    /\ p = stored_point shape j.

(** The arrays [segx] and [segy] hold the [segCount] vertices in progress. *)
Definition acc_wf (st : acc_state) : Prop :=
  0 <= segCount st <= Z.of_nat (length (seg_x st))
  /\ segCount st <= Z.of_nat (length (seg_y st)).

(** The spool [fname] holds [w0] and then whole segments of two or more
    vertices; their vertices and those of the segment in progress satisfy
    [P]. *)
Definition spool_inv (fname : Z * Z) (P : Z * Z -> Prop) (w0 : list Z)
    (st : acc_state) : Prop :=
  acc_wf st /\ Forall P (pending st)
  /\ exists segs,
       spools st !! fname = Some (w0 ++ flat_map spooled segs)
       /\ Forall (fun V => (2 <= length V)%nat /\ Forall P V) segs.

(** ** A cell and two shapes for the examples

    The cell of the file e000s90: longitude index 180, latitude index 0. *)
Definition ex_cornerx : float * float :=
  ((double_of_int 180 * 3600)%float, (double_of_int 181 * 3600)%float).
Definition ex_cornery : float * float :=
  ((double_of_int 0 * 3600)%float, (double_of_int 1 * 3600)%float).

(** A polygon of one ring and a shape with no part (as shapelib returns
    for a multipoint), all their vertices inside the cell. *)
Definition ex_ring : SHPObject :=
  {| nParts := 1; panPartStart := [0]; nVertices := 3;
     padfX := [0.25; 0.5; 0.75]%float; padfY := [-89.75; -89.5; -89.25]%float |}.
Definition ex_no_part : SHPObject :=
  {| nParts := 0; panPartStart := []; nVertices := 2;
     padfX := [0.375; 0.625]%float; padfY := [-89.625; -89.375]%float |}.

(** A ring whose second vertex lies on the southern edge of the cell. *)
Definition ex_edge : SHPObject :=
  {| nParts := 1; panPartStart := [0]; nVertices := 4;
     padfX := [0.25; 0.5; 0.75; 0.875]%float;
     padfY := [-89.75; -90; -89.25; -89.125]%float |}.

Definition ex_state : acc_state := Acc {[ (180, 0) := [] ]} 0 [] [] false 0.

(** ** Views of the codec pass *)

(** The cells of the grid: latitude index [i], longitude index [j]. *)
Definition in_grid (i j : Z) : Prop := 0 <= i < 180 /\ 0 <= j < 360.

(** The size of the version block and the directory: 128 + 180 * 360 * 12. *)
Definition header_size : Z := 777728.

(** The directory entry of cell ([j], [i]) in the output file of a state. *)
Definition entry (st : codec_state) (i j : Z) : Z * Z * Z :=
  read_header (bytes (ofp st)) (header_offset i j).

(** Between two cells of the codec pass the output file holds the whole
    directory and is positioned at its end. *)
Definition codec_inv (st : codec_state) : Prop :=
  header_size <= Z.of_nat (length (bytes (ofp st)))
  /\ cursor (ofp st) = Z.of_nat (length (bytes (ofp st)))
  /\ length (head_buf st) = 12%nat.

(** The number of vertices of a list of segments. *)
Definition total_vertices (segs : list (list (Z * Z))) : Z :=
  foldr (fun V n => Z.of_nat (length V) + n) 0 segs.

(** The cells in the order of the two loops of the codec pass. *)
Definition grid : list (Z * Z) :=
  seqZ 0 180 ≫= fun i => pair i <$> seqZ 0 360.

(** The cells that the loops of the codec pass visit before the cell
    ([i], [j]): the rows before row [i], then the cells before [j] of
    row [i]. *)
Definition cells_before (i j : Z) : list (Z * Z) :=
  (seqZ 0 i ≫= fun i' => pair i' <$> seqZ 0 360) ++ (pair i <$> seqZ 0 j).

(** The state of the codec pass when its loops reach the cell ([j], [i]):
    the version block and the placeholder entries are written, the rows
    before [i] are done and so are the cells before [j] of row [i]. *)
Definition codec_reached (FILE_VERSION : list Z) (cells : gmap (Z * Z) (list Z))
    (i j : Z) : result codec_state :=
  let total := 0 in
  let ofp := Stream [] 0 in
  let ofp := fwrite (version_block FILE_VERSION) ofp in
  let '(ofp, head_buf) := init_header (ofp, replicate 12 0) in
  st ← for_each (fun i' st =>
                   for_each (fun j' st => codec_cell i' j' st) (seqZ 0 360) st)
         (seqZ 0 i) (Codec ofp cells head_buf total);
  for_each (fun j' st => codec_cell i j' st) (seqZ 0 j) st.

(** Every spool of a cell of the grid holds whole segments of two vertices
    or more, as the accumulator writes them. *)
Definition wf_spools (disk : gmap (Z * Z) (list Z)) : Prop :=
  forall i j fp, in_grid i j -> disk !! (j, i) = Some fp ->
    exists segs, fp = flat_map spooled segs
                 /\ Forall (fun V => (2 <= length V)%nat) segs.

(** The shape file names in the order of the four loops of the first pass:
    longitude hemisphere, longitude, latitude hemisphere, latitude. *)
Definition input_cells : list (bool * Z * bool * Z) :=
  [false; true] ≫= fun lnh =>
  lon_range lnh ≫= fun ln =>
  [false; true] ≫= fun lth =>
  (fun lt => (lnh, ln, lth, lt)) <$> lat_range lth.

(** The state in which [main] starts the first pass. *)
Definition acc_start (disk : gmap (Z * Z) (list Z)) : acc_state :=
  Acc (remove_old_cells disk) 0 [] [] false 0.

(** ** An input directory for the examples

    One shape file, w180s90a.shp (longitude index 0, latitude index 0),
    that holds no shape. *)
Definition ex_dir : input_dir :=
  fun lnh ln lth lt ds =>
    if negb lnh && (ln =? 180) && negb lth && (lt =? 90) && (ds =? 0)
    then Some (Shapes [])
    else None.

(** ** The output of the cell loop on its own

    What the cell loop makes of a spool when it starts from an empty file
    and from zero counters: the bytes it writes, the number of segments
    and the number of vertices. *)
Definition packed_cell (fp : list Z) : result (list Z * Z * Z) :=
  '(ofp, num_segments, num_vertices, _) ←
    cell_loop (length fp) fp (Stream [] 0) 0 0 0;
  Ok (bytes ofp, num_segments, num_vertices).

(** The result of the cell loop from the file [ofp] and the counters
    [ns], [nv] and [t], given its result [r] from the empty file. *)
Definition shift (ofp : stream) (ns nv t : Z) (r : stream * Z * Z * Z)
  : stream * Z * Z * Z :=
  let '(o, n, v, t') := r in
  (Stream (bytes ofp ++ bytes o) (Z.of_nat (length (bytes ofp ++ bytes o))),
   ns + n, add32 nv v, add32 t t').

(** ** The output file as a whole

    The directory and the packed region of the output file, built cell by
    cell in the order of the codec loops from the spools [disk]: a cell
    with a spool adds its entry (the address is the end of the file so
    far) and its packed segments, a cell with none adds an entry of
    zeros. *)
Definition layout_step (disk : gmap (Z * Z) (list Z)) (acc : list Z * list Z)
    (c : Z * Z) : list Z * list Z :=
  match disk !! (snd c, fst c) with
  | Some fp =>
      match packed_cell fp with
      | Ok (d, n, v) =>
          (fst acc ++ pack_header (replicate 12 0)
                        (wrap32 (header_size + Z.of_nat (length (snd acc)))) n v,
           snd acc ++ d)
      | Exit _ => acc
      end
  | None => (fst acc ++ replicate 12 0, snd acc)
  end.

Definition file_layout (disk : gmap (Z * Z) (list Z)) (cs : list (Z * Z))
  : list Z * list Z :=
  foldl (layout_step disk) ([], []) cs.

(** The vertices packed for the cells [cs]: the sum the codec pass keeps
    in [total]. *)
Definition vertices_packed (disk : gmap (Z * Z) (list Z)) (cs : list (Z * Z)) : Z :=
  foldl (fun t c =>
           match disk !! (snd c, fst c) with
           | Some fp =>
               match packed_cell fp with
               | Ok (_, _, v) => add32 t v
               | Exit _ => t
               end
           | None => t
           end) 0 cs.

(** The state of the codec pass after the cells [done] of the grid, for
    the spools [disk] and the version block [v]. *)
Definition codec_layout (disk : gmap (Z * Z) (list Z)) (v : list Z)
    (done : list (Z * Z)) (st : codec_state) : Prop :=
  bytes (ofp st)
    = v ++ fst (file_layout disk done)
        ++ replicate (Z.to_nat (12 * (64800 - Z.of_nat (length done)))) 0
        ++ snd (file_layout disk done)
  /\ Z.of_nat (length (fst (file_layout disk done))) = 12 * Z.of_nat (length done)
  /\ cursor (ofp st) = Z.of_nat (length (bytes (ofp st)))
  /\ length (head_buf st) = 12%nat
  /\ Forall (fun b => 0 <= b < 256) (head_buf st)
  /\ packed_total st = vertices_packed disk done
  /\ (forall c, c ∉ done -> cells st !! (snd c, fst c) = disk !! (snd c, fst c))
  /\ (forall c, c ∈ done -> cells st !! (snd c, fst c) = None).

(** The buffer [pack_segment] makes of the segment [V], and the buffers of
    a list of segments: the first bias check that fails ends the run. *)
Definition segment_buffer (V : list (Z * Z)) : result (list Z) :=
  '(buffer, _) ← pack_segment (Z.of_nat (length V)) (vertex_words V);
  Ok buffer.

Fixpoint segment_buffers (segs : list (list (Z * Z))) : result (list (list Z)) :=
  match segs with
  | [] => Ok []
  | V :: segs' =>
      b ← segment_buffer V;
      bs ← segment_buffers segs';
      Ok (b :: bs)
  end.

(** ** More input directories for the examples

    One shape file, w001s01i.shp, that shapelib does not open. *)
Definition ex_unreadable : input_dir :=
  fun lnh ln lth lt ds =>
    if negb lnh && (ln =? 1) && negb lth && (lt =? 1) && (ds =? 3)
    then Some Unreadable
    else None.

(** The sum of the vertex counts of the directory of an output file. *)
Definition directory_vertices (st : codec_state) : Z :=
  foldr (fun c s => snd (entry st (fst c) (snd c)) + s) 0 grid.

(** The vertex count the codec pass finds for a cell. *)
Definition cell_vertices (disk : gmap (Z * Z) (list Z)) (c : Z * Z) : Z :=
  match disk !! (snd c, fst c) with
  | Some fp =>
      match packed_cell fp with
      | Ok (_, _, v) => v
      | Exit _ => 0
      end
  | None => 0
  end.

(** ** Runs that differ in the files found on disk

    Two maps of files that hold the same spools for the cells of the grid,
    two states of the first pass and two states of the codec pass that
    differ in the other files at most, and two results of a run that
    differ in the files left on disk at most. *)
Definition same_spools (m1 m2 : gmap (Z * Z) (list Z)) : Prop :=
  forall c, in_grid (snd c) (fst c) -> m1 !! c = m2 !! c.

Definition same_acc (s1 s2 : acc_state) : Prop :=
  segCount s1 = segCount s2 /\ seg_x s1 = seg_x s2 /\ seg_y s1 = seg_y s2
  /\ bad_flag s1 = bad_flag s2 /\ total s1 = total s2
  /\ same_spools (spools s1) (spools s2).

Definition same_codec (s1 s2 : codec_state) : Prop :=
  ofp s1 = ofp s2 /\ head_buf s1 = head_buf s2 /\ packed_total s1 = packed_total s2
  /\ same_spools (cells s1) (cells s2).

Definition same_result {S : Type} (R : S -> S -> Prop) (r1 r2 : result S) : Prop :=
  match r1, r2 with
  | Ok s1, Ok s2 => R s1 s2
  | Exit e1, Exit e2 => e1 = e2
  | _, _ => False
  end.

(** One shape file, e000s90a.shp (longitude index 180, latitude index 0),
    with the ring [ex_ring] and the ring [ex_edge], and the spool that the
    first pass makes of it: the three vertices of the first ring, then the
    last two of the second. *)
Definition ex_ring_dir : input_dir :=
  fun lnh ln lth lt ds =>
    if lnh && (ln =? 0) && negb lth && (lt =? 90) && (ds =? 0)
    then Some (Shapes [ex_ring; ex_edge])
    else None.

Definition ex_ring_segments : list (list (Z * Z)) :=
  [[(18025000, 25000); (18050000, 50000); (18075000, 75000)];
   [(18075000, 75000); (18087500, 87500)]].

(** One shape file, e000s90a.shp, with a line of two vertices that are two
    degrees of longitude apart. *)
Definition ex_wide : SHPObject :=
  {| nParts := 1; panPartStart := [0]; nVertices := 2;
     padfX := [0.25; 2.25]%float; padfY := [-89.75; -89.75]%float |}.
Definition ex_wide_dir : input_dir :=
  fun lnh ln lth lt ds =>
    if lnh && (ln =? 0) && negb lth && (lt =? 90) && (ds =? 0)
    then Some (Shapes [ex_wide])
    else None.

(** Three shape files side by side, e000s90a.shp with the rings [ex_ring]
    and [ex_edge], e001s90a.shp with no shape and e002s90a.shp with a line
    of two vertices, and the spools that the first pass makes of them. *)
Definition ex_line : SHPObject :=
  {| nParts := 1; panPartStart := [0]; nVertices := 2;
     padfX := [2.25; 2.5]%float; padfY := [-89.75; -89.5]%float |}.
Definition ex_row_dir : input_dir :=
  fun lnh ln lth lt ds =>
    if lnh && negb lth && (lt =? 90) && (ds =? 0) then
      if ln =? 0 then Some (Shapes [ex_ring; ex_edge])
      else if ln =? 1 then Some (Shapes [])
      else if ln =? 2 then Some (Shapes [ex_line])
      else None
    else None.
Definition ex_row_spools : gmap (Z * Z) (list Z) :=
  {[ (180, 0) := flat_map spooled ex_ring_segments;
     (181, 0) := [];
     (182, 0) := spooled [(18225000, 25000); (18250000, 50000)] ]}.

(** ** Runs in which [remove] can fail *)

(** The state in which [main] starts the first pass when [remove] fails
    on the names [stuck]. *)
Definition acc_start_fs (stuck : Z * Z -> bool) (disk : gmap (Z * Z) (list Z))
  : acc_state :=
  Acc (remove_old_cells_fs stuck disk) 0 [] [] false 0.

(** No spool of the grid that is on disk when [main] starts resists
    [remove]: it is so when the working directory holds no spool of an
    earlier run, and when it holds some that can be deleted. *)
Definition stale_removable (stuck : Z * Z -> bool) (disk : gmap (Z * Z) (list Z))
  : Prop :=
  forall i j, in_grid i j -> is_Some (disk !! (j, i)) -> stuck (j, i) = false.

(** A directory in which [remove] fails on every name, and an input
    directory with no shape file. *)
Definition all_stuck : Z * Z -> bool := fun _ => true.
Definition ex_no_dir : input_dir := fun _ _ _ _ _ => None.
(** * Properties *)

(** ** 32-bit arithmetic *)

Lemma wrap32_id (z : Z) : int32 z -> wrap32 z = z.
Proof.
  unfold int32, wrap32. intros Hz.
  rewrite Z.mod_small; lia.
Qed.

Lemma wrap32_int32 (z : Z) : int32 (wrap32 z).
Proof.
  unfold int32, wrap32.
  pose proof (Z.mod_pos_bound (z + 2 ^ 31) (2 ^ 32)). lia.
Qed.

Lemma MIN_spec (a b : Z) : MIN a b = Z.min a b.
Proof. unfold MIN. destruct (Z.ltb_spec a b); lia. Qed.

Lemma MAX_spec (a b : Z) : MAX a b = Z.max a b.
Proof. unfold MAX. rewrite Z.gtb_ltb. destruct (Z.ltb_spec b a); lia. Qed.

(** ** Bits of a buffer *)

Lemma length_set_bit (buffer : list Z) (i : Z) (v : bool) :
  length (set_bit buffer i v) = length buffer.
Proof.
  unfold set_bit. destruct (buffer !! Z.to_nat (i / 8)); [|done].
  by rewrite length_insert.
Qed.

Lemma get_bit_set_bit_eq (buffer : list Z) (i : Z) (v : bool) :
  0 <= i < 8 * Z.of_nat (length buffer) ->
  get_bit (set_bit buffer i v) i = v.
Proof.
  intros Hi. unfold get_bit, set_bit.
  assert (Hlt : (Z.to_nat (i / 8) < length buffer)%nat).
  { apply Nat2Z.inj_lt. rewrite Z2Nat.id by (apply Z.div_pos; lia).
    apply Z.div_lt_upper_bound; lia. }
  destruct (lookup_lt_is_Some_2 buffer _ Hlt) as [b Hb]. rewrite Hb.
  rewrite list_lookup_insert_eq by done.
  pose proof (Z.mod_pos_bound i 8).
  destruct v; [apply Z.setbit_eq | apply Z.clearbit_eq]; lia.
Qed.

Lemma get_bit_set_bit_ne (buffer : list Z) (i j : Z) (v : bool) :
  0 <= i -> 0 <= j -> i <> j ->
  get_bit (set_bit buffer i v) j = get_bit buffer j.
Proof.
  intros Hi Hj Hne. unfold get_bit, set_bit.
  destruct (buffer !! Z.to_nat (i / 8)) as [b|] eqn:Hb; [|done].
  destruct (decide (Z.to_nat (i / 8) = Z.to_nat (j / 8))) as [Heq|Hdiff].
  - rewrite <- Heq, Hb.
    rewrite list_lookup_insert_eq by (by eapply lookup_lt_Some).
    assert (i / 8 = j / 8).
    { apply Z2Nat.inj; [apply Z.div_pos; lia .. | done]. }
    assert (i mod 8 <> j mod 8).
    { intros Hm. apply Hne.
      rewrite (Z.div_mod i 8), (Z.div_mod j 8) by lia. congruence. }
    pose proof (Z.mod_pos_bound i 8). pose proof (Z.mod_pos_bound j 8).
    destruct v; [apply Z.setbit_neq | apply Z.clearbit_neq]; lia.
  - by rewrite list_lookup_insert_ne.
Qed.

Lemma length_bit_pack_loop (k : nat) (buffer : list Z) (start value : Z) :
  length (bit_pack_loop buffer start k value) = length buffer.
Proof.
  revert buffer start. induction k as [|k IH]; intros buffer start; simpl; [done|].
  by rewrite IH, length_set_bit.
Qed.

Lemma length_bit_pack (buffer : list Z) (start numbits value : Z) :
  length (bit_pack buffer start numbits value) = length buffer.
Proof. apply length_bit_pack_loop. Qed.

Lemma get_bit_bit_pack_loop (k : nat) (buffer : list Z) (start value i : Z) :
  0 <= start -> start + Z.of_nat k <= 8 * Z.of_nat (length buffer) -> 0 <= i ->
  get_bit (bit_pack_loop buffer start k value) i =
    if (start <=? i) && (i <? start + Z.of_nat k)
    then Z.testbit value (start + Z.of_nat k - 1 - i)
    else get_bit buffer i.
Proof.
  revert buffer start. induction k as [|k IH]; intros buffer start Hs Hlen Hi.
  - cbn [bit_pack_loop].
    destruct (Z.leb_spec start i), (Z.ltb_spec i (start + Z.of_nat 0)); simpl; try done; lia.
  - cbn [bit_pack_loop]. rewrite IH by (rewrite ?length_set_bit; lia).
    destruct (Z.leb_spec (start + 1) i), (Z.ltb_spec i (start + 1 + Z.of_nat k)),
      (Z.leb_spec start i), (Z.ltb_spec i (start + Z.of_nat (S k)));
      cbn [andb]; try lia; try (f_equal; lia).
    all: try (apply get_bit_set_bit_ne; lia).
    assert (i = start) as -> by lia.
    rewrite get_bit_set_bit_eq by lia. f_equal. lia.
Qed.

Lemma get_bit_bit_pack (buffer : list Z) (start numbits value i : Z) :
  0 <= start -> 0 <= numbits -> start + numbits <= 8 * Z.of_nat (length buffer) ->
  0 <= i ->
  get_bit (bit_pack buffer start numbits value) i =
    if (start <=? i) && (i <? start + numbits)
    then Z.testbit value (start + numbits - 1 - i)
    else get_bit buffer i.
Proof.
  intros Hs Hn Hlen Hi. unfold bit_pack.
  rewrite get_bit_bit_pack_loop by lia. by rewrite Z2Nat.id.
Qed.

Lemma mod_pow2_succ (v : Z) (k : nat) :
  v mod 2 ^ Z.of_nat (S k) =
    Z.b2z (Z.testbit v (Z.of_nat k)) * 2 ^ Z.of_nat k + v mod 2 ^ Z.of_nat k.
Proof.
  rewrite Nat2Z.inj_succ, Z.pow_succ_r by lia.
  rewrite (Z.mul_comm 2), Z.rem_mul_r by lia.
  rewrite Z.testbit_spec' by lia. lia.
Qed.

Lemma bit_unpack_loop_value (k : nat) (buffer : list Z) (start acc v : Z) :
  (forall i, start <= i < start + Z.of_nat k ->
     get_bit buffer i = Z.testbit v (start + Z.of_nat k - 1 - i)) ->
  bit_unpack_loop buffer start k acc = acc * 2 ^ Z.of_nat k + v mod 2 ^ Z.of_nat k.
Proof.
  revert start acc. induction k as [|k IH]; intros start acc Hbits.
  - simpl. rewrite Z.mod_1_r. lia.
  - cbn [bit_unpack_loop]. rewrite IH.
    + rewrite mod_pow2_succ, Hbits by lia.
      replace (start + Z.of_nat (S k) - 1 - start) with (Z.of_nat k) by lia.
      rewrite Nat2Z.inj_succ, Z.pow_succ_r by lia. lia.
    + intros i Hi. rewrite Hbits by lia. f_equal. lia.
Qed.

Lemma bit_unpack_loop_ext (k : nat) (b1 b2 : list Z) (start acc : Z) :
  (forall i, start <= i < start + Z.of_nat k -> get_bit b1 i = get_bit b2 i) ->
  bit_unpack_loop b1 start k acc = bit_unpack_loop b2 start k acc.
Proof.
  revert start acc. induction k as [|k IH]; intros start acc Hbits; [done|].
  cbn [bit_unpack_loop]. rewrite Hbits by lia. apply IH.
  intros i Hi. apply Hbits. lia.
Qed.

Lemma bit_unpack_ext (b1 b2 : list Z) (start numbits : Z) :
  (forall i, start <= i < start + numbits -> get_bit b1 i = get_bit b2 i) ->
  bit_unpack b1 start numbits = bit_unpack b2 start numbits.
Proof.
  intros Hbits. apply bit_unpack_loop_ext. intros i Hi. apply Hbits. lia.
Qed.

Lemma bit_unpack_value (buffer : list Z) (start numbits v : Z) :
  0 <= numbits ->
  (forall i, start <= i < start + numbits ->
     get_bit buffer i = Z.testbit v (start + numbits - 1 - i)) ->
  bit_unpack buffer start numbits = v mod 2 ^ numbits.
Proof.
  intros Hn Hbits. unfold bit_unpack.
  rewrite (bit_unpack_loop_value _ _ _ _ v).
  - rewrite Z2Nat.id by done. lia.
  - intros i Hi. rewrite Z2Nat.id in * by done. by apply Hbits.
Qed.

(** What [bit_unpack] reads where [bit_pack] wrote. *)
Lemma bit_unpack_bit_pack (buffer : list Z) (start numbits value : Z) :
  0 <= start -> 0 <= numbits -> start + numbits <= 8 * Z.of_nat (length buffer) ->
  bit_unpack (bit_pack buffer start numbits value) start numbits
    = value mod 2 ^ numbits.
Proof.
  intros Hs Hn Hlen. apply bit_unpack_value; [done|].
  intros i Hi. rewrite get_bit_bit_pack by lia.
  destruct (Z.leb_spec start i), (Z.ltb_spec i (start + numbits)); simpl; (done || lia).
Qed.

(** ** Fields packed one after the other *)

Lemma pack_fields_cons (f : Z * Z) (fields : list (Z * Z)) (buffer : list Z) (pos : Z) :
  pack_fields (f :: fields) buffer pos
    = pack_fields fields (bit_pack buffer pos (fst f) (snd f)) (pos + fst f).
Proof. done. Qed.

Lemma pack_fields_app (fs1 fs2 : list (Z * Z)) (buffer : list Z) (pos : Z) :
  pack_fields (fs1 ++ fs2) buffer pos
    = pack_fields fs2 (fst (pack_fields fs1 buffer pos)) (snd (pack_fields fs1 buffer pos)).
Proof.
  unfold pack_fields. rewrite foldl_app.
  by destruct (foldl _ (buffer, pos) fs1).
Qed.

Lemma length_pack_fields (fields : list (Z * Z)) (buffer : list Z) (pos : Z) :
  length (fst (pack_fields fields buffer pos)) = length buffer.
Proof.
  revert buffer pos. induction fields as [|f fields IH]; intros buffer pos; [done|].
  by rewrite pack_fields_cons, IH, length_bit_pack.
Qed.

Lemma snd_pack_fields (fields : list (Z * Z)) (buffer : list Z) (pos : Z) :
  snd (pack_fields fields buffer pos) = pos + total_bits fields.
Proof.
  revert buffer pos. induction fields as [|f fields IH]; intros buffer pos.
  - simpl. lia.
  - rewrite pack_fields_cons, IH. simpl. lia.
Qed.

Lemma total_bits_nonneg (fields : list (Z * Z)) :
  Forall (fun f => 0 <= fst f) fields -> 0 <= total_bits fields.
Proof. induction 1; simpl; lia. Qed.

Lemma total_bits_app (fs1 fs2 : list (Z * Z)) :
  total_bits (fs1 ++ fs2) = total_bits fs1 + total_bits fs2.
Proof. induction fs1 as [|f fs1 IH]; simpl; lia. Qed.

(** Packing fields touches no bit outside of them. *)
Lemma get_bit_pack_fields_outside (fields : list (Z * Z)) (buffer : list Z) (pos i : Z) :
  Forall (fun f => 0 <= fst f) fields ->
  0 <= pos -> pos + total_bits fields <= 8 * Z.of_nat (length buffer) -> 0 <= i ->
  i < pos \/ pos + total_bits fields <= i ->
  get_bit (fst (pack_fields fields buffer pos)) i = get_bit buffer i.
Proof.
  intros Hw. revert buffer pos.
  induction Hw as [|f fields Hf Hw IH]; intros buffer pos Hpos Hlen Hi Hout; [done|].
  pose proof (total_bits_nonneg _ Hw). simpl in Hlen, Hout.
  rewrite pack_fields_cons, IH by (rewrite ?length_bit_pack; lia).
  rewrite get_bit_bit_pack by lia.
  destruct (Z.leb_spec pos i), (Z.ltb_spec i (pos + fst f)); simpl; (done || lia).
Qed.

(** Every field reads back from the buffer in which all were packed. *)
Lemma bit_unpack_pack_fields (fields : list (Z * Z)) (buffer : list Z) (pos : Z)
    (n : nat) (w v : Z) :
  Forall (fun f => 0 <= fst f) fields ->
  0 <= pos -> pos + total_bits fields <= 8 * Z.of_nat (length buffer) ->
  fields !! n = Some (w, v) ->
  bit_unpack (fst (pack_fields fields buffer pos)) (pos + total_bits (take n fields)) w
    = v mod 2 ^ w.
Proof.
  intros Hw. revert buffer pos n.
  induction Hw as [|f fields Hf Hw IH]; intros buffer pos n Hpos Hlen Hn; [done|].
  pose proof (total_bits_nonneg _ Hw). simpl in Hlen.
  rewrite pack_fields_cons. destruct n as [|n]; simplify_eq/=.
  - rewrite Z.add_0_r.
    rewrite (bit_unpack_ext _ (bit_pack buffer pos w v)).
    + apply bit_unpack_bit_pack; lia.
    + intros i Hi. apply get_bit_pack_fields_outside;
        rewrite ?length_bit_pack; (done || lia).
  - rewrite Z.add_assoc. apply IH; rewrite ?length_bit_pack; (done || lia).
Qed.

Lemma pack_offsets_fields (n : nat) (k : Z) (segx segy : list Z)
    (lb tb bx by_ : Z) (buffer : list Z) (pos : Z) :
  pack_offsets n k segx segy lb tb bx by_ buffer pos
    = pack_fields (offset_fields n k segx segy lb tb bx by_) buffer pos.
Proof.
  revert k buffer pos. induction n as [|n IH]; intros k buffer pos; [done|].
  cbn [pack_offsets offset_fields]. by rewrite IH.
Qed.

Lemma pack_buffer_fields (segCount : Z) (segx segy : list Z) (l : layout) :
  pack_buffer segCount segx segy l
    = fst (pack_fields (segment_fields segCount segx segy l)
             (replicate (Z.to_nat (buffer_size segCount l)) 0) 0).
Proof.
  unfold pack_buffer, segment_fields.
  rewrite pack_offsets_fields, pack_fields_app.
  unfold pack_fields at 2 3. cbn [foldl fst snd]. reflexivity.
Qed.

Lemma total_bits_offset_fields (n : nat) (k : Z) (segx segy : list Z) (lb tb bx by_ : Z) :
  total_bits (offset_fields n k segx segy lb tb bx by_) = Z.of_nat n * (lb + tb).
Proof.
  revert k. induction n as [|n IH]; intros k; [done|].
  cbn [offset_fields total_bits foldr fst] in *. rewrite IH. lia.
Qed.

Lemma total_bits_segment_fields (segCount : Z) (segx segy : list Z) (l : layout) :
  1 <= segCount ->
  total_bits (segment_fields segCount segx segy l)
    = 5 + 5 + 5 + count_bits l + 18 + 18 + 26 + 25
      + (segCount - 1) * (lon_offset_bits l + lat_offset_bits l).
Proof.
  intros Hn. unfold segment_fields.
  rewrite total_bits_app, total_bits_offset_fields.
  rewrite Z2Nat.id by lia. cbn [total_bits foldr fst]. lia.
Qed.

(** ** Reading a segment back from the spool *)

Lemma insert_calloc (done : list Z) (x : Z) (n i : nat) :
  i = length done ->
  <[i := x]> (done ++ replicate (S n) 0) = (done ++ [x]) ++ replicate n 0.
Proof.
  intros ->. rewrite insert_app_r_alt, Nat.sub_diag by lia.
  by rewrite <- (assoc_L (++)).
Qed.

Lemma idx_calloc_cur (done r : list Z) (x k : Z) :
  k = Z.of_nat (length done) -> idx ((done ++ [x]) ++ r) k = x.
Proof.
  intros ->. unfold idx. rewrite Nat2Z.id, <- (assoc_L (++)). cbn [app].
  by rewrite list_lookup_middle.
Qed.

Lemma idx_calloc_prev (done r : list Z) (x p k : Z) :
  k = Z.of_nat (length done) -> last done = Some p ->
  idx ((done ++ [x]) ++ r) (k - 1) = p.
Proof.
  intros -> Hl. unfold idx. rewrite last_lookup in Hl.
  assert (length done <> 0)%nat by (intros Hz; rewrite Hz in Hl; by destruct done).
  replace (Z.to_nat (Z.of_nat (length done) - 1)) with (pred (length done)) by lia.
  rewrite <- (assoc_L (++)), lookup_app_l by lia. by rewrite Hl.
Qed.

Lemma read_vertices_spec (V : list (Z * Z)) (done_x done_y rest : list Z)
    (diff_x diff_y : Z * Z) (k : Z) :
  k = Z.of_nat (length done_x) -> k = Z.of_nat (length done_y) ->
  read_vertices (length V) k (vertex_words V ++ rest)
      (done_x ++ replicate (length V) 0) (done_y ++ replicate (length V) 0)
      diff_x diff_y
    = Ok (done_x ++ map fst V, done_y ++ map snd V,
          scan_diffs (last done_x) (map fst V) diff_x,
          scan_diffs (last done_y) (map snd V) diff_y, rest).
Proof.
  revert done_x done_y diff_x diff_y k.
  induction V as [|[x y] V IH]; intros done_x done_y diff_x diff_y k Hx Hy.
  - simpl. by rewrite !app_nil_r.
  - cbn [length read_vertices vertex_words flat_map fst snd app map scan_diffs].
    rewrite (insert_calloc done_x), (insert_calloc done_y) by lia.
    rewrite (idx_calloc_cur done_x), (idx_calloc_cur done_y) by done.
    assert (last done_x = None /\ last done_y = None /\ k = 0
            \/ exists p q, last done_x = Some p /\ last done_y = Some q /\ k <> 0)
      as [(Hlx & Hly & ->)|(p & q & Hlx & Hly & Hk)].
    { destruct done_x as [|x0 done_x _] using rev_ind;
        destruct done_y as [|y0 done_y _] using rev_ind;
        rewrite ?length_app in *; simpl in *; try lia.
      - by left.
      - right. exists x0, y0. rewrite !last_snoc. repeat split; lia. }
    + rewrite Hlx, Hly. cbn [Z.eqb].
      change (vertex_words V) with (flat_map (fun v => [fst v; snd v]) V) in IH.
      rewrite (IH (done_x ++ [x]) (done_y ++ [y]))
        by (rewrite length_app; simpl; lia).
      by rewrite !last_snoc, <- !(assoc_L (++)).
    + rewrite Hlx, Hly.
      destruct (Z.eqb_spec k 0) as [|_]; [done|].
      rewrite (idx_calloc_prev done_x _ _ p), (idx_calloc_prev done_y _ _ q) by done.
      change (vertex_words V) with (flat_map (fun v => [fst v; snd v]) V) in IH.
      rewrite (IH (done_x ++ [x]) (done_y ++ [y]))
        by (rewrite length_app; simpl; lia).
      by rewrite !last_snoc, <- !(assoc_L (++)).
Qed.

(** ** The least and the greatest difference *)

Lemma foldr_min_init (a lo : Z) (l : list Z) :
  foldr Z.min (Z.min a lo) l = Z.min a (foldr Z.min lo l).
Proof. induction l as [|d l IH]; simpl; lia. Qed.

Lemma foldr_max_init (a hi : Z) (l : list Z) :
  foldr Z.max (Z.max a hi) l = Z.max a (foldr Z.max hi l).
Proof. induction l as [|d l IH]; simpl; lia. Qed.

Lemma list_min_le (l : list Z) (d : Z) : d ∈ l -> list_min l <= d.
Proof.
  destruct l as [|d0 l]; [by intros ?%elem_of_nil|]. simpl.
  revert d0. induction l as [|d1 l IH]; intros d0 Hd; simpl.
  - apply list_elem_of_singleton in Hd. lia.
  - apply elem_of_cons in Hd as [->|Hd].
    + specialize (IH d0 ltac:(left)). lia.
    + apply elem_of_cons in Hd as [->|Hd]; [lia|].
      specialize (IH d0 ltac:(by right)). lia.
Qed.

Lemma list_max_ge (l : list Z) (d : Z) : d ∈ l -> d <= list_max l.
Proof.
  destruct l as [|d0 l]; [by intros ?%elem_of_nil|]. simpl.
  revert d0. induction l as [|d1 l IH]; intros d0 Hd; simpl.
  - apply list_elem_of_singleton in Hd. lia.
  - apply elem_of_cons in Hd as [->|Hd].
    + specialize (IH d0 ltac:(left)). lia.
    + apply elem_of_cons in Hd as [->|Hd]; [lia|].
      specialize (IH d0 ltac:(by right)). lia.
Qed.

Lemma list_min_elem (l : list Z) : l <> [] -> list_min l ∈ l.
Proof.
  destruct l as [|d0 l]; [done|]. intros _. simpl.
  revert d0. induction l as [|d1 l IH]; intros d0; simpl; [left|].
  destruct (Z.min_spec d1 (foldr Z.min d0 l)) as [[_ ->]|[_ ->]].
  - right; left.
  - specialize (IH d0). apply elem_of_cons in IH as [->|IH]; [left|by do 2 right].
Qed.

Lemma list_max_elem (l : list Z) : l <> [] -> list_max l ∈ l.
Proof.
  destruct l as [|d0 l]; [done|]. intros _. simpl.
  revert d0. induction l as [|d1 l IH]; intros d0; simpl; [left|].
  destruct (Z.max_spec d1 (foldr Z.max d0 l)) as [[_ ->]|[_ ->]].
  - specialize (IH d0). apply elem_of_cons in IH as [->|IH]; [left|by do 2 right].
  - right; left.
Qed.

Lemma list_min_le_max (l : list Z) : list_min l <= list_max l.
Proof.
  destruct l as [|d l]; [done|].
  pose proof (list_min_le (d :: l) d ltac:(left)).
  pose proof (list_max_ge (d :: l) d ltac:(left)). lia.
Qed.

Lemma foldr_min_bound (M : Z) (l : list Z) :
  l <> [] -> Forall (fun d => d <= M) l -> foldr Z.min M l = list_min l.
Proof.
  destruct l as [|d0 l]; [done|]. intros _ Hb. simpl.
  apply Forall_cons in Hb as [H0 Hb].
  induction Hb as [|d1 l H1 Hb IH]; simpl in *; lia.
Qed.

Lemma foldr_max_bound (M : Z) (l : list Z) :
  l <> [] -> Forall (fun d => M <= d) l -> foldr Z.max M l = list_max l.
Proof.
  destruct l as [|d0 l]; [done|]. intros _ Hb. simpl.
  apply Forall_cons in Hb as [H0 Hb].
  induction Hb as [|d1 l H1 Hb IH]; simpl in *; lia.
Qed.

Lemma deltas_cons (x0 x1 : Z) (xs : list Z) :
  deltas (x0 :: x1 :: xs) = (x1 - x0) :: deltas (x1 :: xs).
Proof. done. Qed.

Lemma length_deltas (xs : list Z) : length (deltas xs) = pred (length xs).
Proof.
  induction xs as [|x0 [|x1 xs] IH]; [done..|].
  rewrite deltas_cons. cbn [length] in *. lia.
Qed.

Lemma deltas_lookup (xs : list Z) (k : nat) (a b : Z) :
  xs !! k = Some a -> xs !! S k = Some b -> deltas xs !! k = Some (b - a).
Proof.
  revert k. induction xs as [|x0 [|x1 xs] IH]; intros k Ha Hb; [done..|].
  rewrite deltas_cons. destruct k as [|k]; simplify_eq/=; [done|].
  by apply IH.
Qed.

Lemma deltas_bound (B : Z) (xs : list Z) :
  Forall (fun x => 0 <= x <= B) xs -> Forall (fun d => - B <= d <= B) (deltas xs).
Proof.
  induction xs as [|x0 [|x1 xs] IH]; intros Hb; [constructor..|].
  rewrite deltas_cons.
  pose proof (Forall_inv Hb). pose proof (Forall_inv (Forall_inv_tail Hb)).
  constructor; [simpl in *; lia|]. apply IH. by eapply Forall_inv_tail.
Qed.

Lemma scan_diffs_some (p : Z) (xs : list Z) (d : Z * Z) :
  Forall (fun x => 0 <= x <= 35999999) (p :: xs) ->
  scan_diffs (Some p) xs d
    = (foldr Z.min (fst d) (deltas (p :: xs)), foldr Z.max (snd d) (deltas (p :: xs))).
Proof.
  revert p d. induction xs as [|x xs IH]; intros p [lo hi] Hb; [done|].
  pose proof (Forall_inv Hb). pose proof (Forall_inv (Forall_inv_tail Hb)).
  cbn [scan_diffs]. rewrite IH by (by eapply Forall_inv_tail).
  rewrite deltas_cons. cbn [fst snd foldr].
  unfold sub32. rewrite wrap32_id by (unfold int32; simpl in *; lia).
  by rewrite MIN_spec, MAX_spec, foldr_min_init, foldr_max_init.
Qed.

Lemma scan_diffs_first (xs : list Z) :
  (2 <= length xs)%nat ->
  Forall (fun x => 0 <= x <= 35999999) xs ->
  scan_diffs None xs (99999999, -99999999)
    = (list_min (deltas xs), list_max (deltas xs)).
Proof.
  intros Hn Hb. destruct xs as [|x0 xs]; [simpl in Hn; lia|].
  cbn [scan_diffs]. rewrite scan_diffs_some by done. cbn [fst snd].
  pose proof (deltas_bound _ _ Hb) as Hd.
  assert (deltas (x0 :: xs) <> []) as Hne.
  { intros Hnil. pose proof (length_deltas (x0 :: xs)) as Hl.
    rewrite Hnil in Hl. simpl in *. lia. }
  rewrite foldr_min_bound, foldr_max_bound; [done|done|..|done|].
  - eapply Forall_impl; [exact Hd|]. simpl. lia.
  - eapply Forall_impl; [exact Hd|]. simpl. lia.
Qed.

Lemma legal_fst (V : list (Z * Z)) :
  Forall legal_vertex V -> Forall (fun x => 0 <= x <= 35999999) (map fst V).
Proof.
  intros H. apply Forall_fmap. eapply Forall_impl; [exact H|].
  intros [x y] [Hx Hy]. simpl in *. lia.
Qed.

Lemma legal_snd (V : list (Z * Z)) :
  Forall legal_vertex V -> Forall (fun x => 0 <= x <= 35999999) (map snd V).
Proof.
  intros H. apply Forall_fmap. eapply Forall_impl; [exact H|].
  intros [x y] [Hx Hy]. simpl in *. lia.
Qed.

(** What the read loop of the codec finds for a legal segment: its
    vertices, and the least and greatest difference in each coordinate. *)
Lemma read_vertices_legal (V : list (Z * Z)) (rest : list Z) :
  (2 <= length V)%nat -> Forall legal_vertex V ->
  read_vertices (length V) 0 (vertex_words V ++ rest)
      (replicate (length V) 0) (replicate (length V) 0)
      (99999999, -99999999) (99999999, -99999999)
    = Ok (map fst V, map snd V,
          (list_min (deltas (map fst V)), list_max (deltas (map fst V))),
          (list_min (deltas (map snd V)), list_max (deltas (map snd V))), rest).
Proof.
  intros Hn Hb.
  rewrite (read_vertices_spec V [] [] rest _ _ 0) by done.
  cbn [app last].
  rewrite !scan_diffs_first; rewrite ?length_map; auto using legal_fst, legal_snd.
Qed.

(** ** The layout of a legal segment *)

Lemma quot_div_nonneg (a b : Z) : 0 <= a -> 0 < b -> Z.quot a b = a / b.
Proof. intros. apply Z.quot_div_nonneg; lia. Qed.

Lemma int_log2_width (m : Z) :
  1 <= m -> 1 <= int_log2 m + 1 /\ 2 ^ (int_log2 m + 1 - 1) <= m < 2 ^ (int_log2 m + 1).
Proof.
  intros Hm. unfold int_log2.
  pose proof (Z.log2_nonneg m). pose proof (Z.log2_spec m ltac:(lia)) as Hs.
  replace (Z.log2 m + 1 - 1) with (Z.log2 m) by lia.
  replace (Z.log2 m + 1) with (Z.succ (Z.log2 m)) by lia. lia.
Qed.

Lemma int_log2_width_lt (m b : Z) : 1 <= m < 2 ^ b -> 0 <= b -> int_log2 m + 1 <= b.
Proof.
  intros Hm Hb. unfold int_log2.
  assert (Z.log2 m < b); [|lia]. apply Z.log2_lt_pow2; lia.
Qed.

Lemma segment_layout_bounded (segCount lo_x hi_x lo_y hi_y : Z) :
  - 35999999 <= lo_x <= hi_x -> hi_x <= 35999999 ->
  - 35999999 <= lo_y <= hi_y -> hi_y <= 35999999 ->
  segment_layout segCount (lo_x, hi_x) (lo_y, hi_y) =
    if (- lo_x >? max_bias) || (- lo_x <? - max_bias) then Exit LonBiasOutOfRange
    else if (- lo_y >? max_bias) || (- lo_y <? - max_bias) then Exit LatBiasOutOfRange
    else Ok (Layout (- lo_x) (- lo_y) (forced_range lo_x hi_x) (forced_range lo_y hi_y)
               (int_log2 segCount + 1)
               (int_log2 (forced_range lo_x hi_x) + 1)
               (int_log2 (forced_range lo_y hi_y) + 1)).
Proof.
  intros Hx Hx' Hy Hy'. unfold segment_layout, neg32, sub32, forced_range.
  cbn [fst snd]. rewrite !wrap32_id by (unfold int32; lia). done.
Qed.

Lemma deltas_nonempty (xs : list Z) : (2 <= length xs)%nat -> deltas xs <> [].
Proof.
  intros Hn Hnil. pose proof (length_deltas xs) as Hl.
  rewrite Hnil in Hl. simpl in Hl. lia.
Qed.

Lemma diff_bounds (xs : list Z) :
  (2 <= length xs)%nat -> Forall (fun x => 0 <= x <= 35999999) xs ->
  - 35999999 <= list_min (deltas xs) <= list_max (deltas xs)
  /\ list_max (deltas xs) <= 35999999.
Proof.
  intros Hn Hb. pose proof (deltas_bound _ _ Hb) as Hd.
  rewrite Forall_forall in Hd.
  pose proof (Hd _ (list_min_elem _ (deltas_nonempty _ Hn))).
  pose proof (Hd _ (list_max_elem _ (deltas_nonempty _ Hn))).
  pose proof (list_min_le_max (deltas xs)). simpl in *. lia.
Qed.

Lemma segment_layout_legal (V : list (Z * Z)) :
  (2 <= length V)%nat -> Forall legal_vertex V ->
  segment_layout (Z.of_nat (length V)) (min_dx V, max_dx V) (min_dy V, max_dy V) =
    if (- min_dx V >? max_bias) || (- min_dx V <? - max_bias)
    then Exit LonBiasOutOfRange
    else if (- min_dy V >? max_bias) || (- min_dy V <? - max_bias)
    then Exit LatBiasOutOfRange
    else Ok (layout_view V).
Proof.
  intros Hn Hb.
  pose proof (diff_bounds (map fst V) ltac:(by rewrite length_map) (legal_fst _ Hb)).
  pose proof (diff_bounds (map snd V) ltac:(by rewrite length_map) (legal_snd _ Hb)).
  unfold min_dx, max_dx, min_dy, max_dy in *.
  by rewrite segment_layout_bounded by lia.
Qed.

Lemma layout_of_legal (V : list (Z * Z)) :
  (2 <= length V)%nat -> Forall legal_vertex V ->
  layout_of V =
    segment_layout (Z.of_nat (length V)) (min_dx V, max_dx V) (min_dy V, max_dy V).
Proof.
  intros Hn Hb. unfold layout_of.
  rewrite <- (app_nil_r (vertex_words V)).
  by rewrite read_vertices_legal.
Qed.

Lemma pack_segment_legal (V : list (Z * Z)) (rest : list Z) :
  (2 <= length V)%nat -> Forall legal_vertex V ->
  pack_segment (Z.of_nat (length V)) (vertex_words V ++ rest) =
    l ← layout_of V;
    Ok (pack_buffer (Z.of_nat (length V)) (map fst V) (map snd V) l, rest).
Proof.
  intros Hn Hb. unfold pack_segment.
  rewrite Nat2Z.id, read_vertices_legal, layout_of_legal by done. done.
Qed.

Lemma bias_test (m : Z) :
  (- m >? max_bias) || (- m <? - max_bias) = false <-> Z.abs (- m) <= 2 ^ 17 - 1.
Proof.
  change max_bias with (2 ^ 17 - 1) at 1 2. rewrite orb_false_iff, Z.gtb_ltb.
  destruct (Z.ltb_spec (2 ^ 17 - 1) (- m)), (Z.ltb_spec (- m) (- (2 ^ 17 - 1))); split;
    intros; try lia; try done; try (by destruct H1).
Qed.


Lemma layout_of_ok_inv (V : list (Z * Z)) (l : layout) :
  (2 <= length V)%nat -> Forall legal_vertex V ->
  layout_of V = Ok l -> bias_in_range V /\ l = layout_view V.
Proof.
  intros Hn Hb. rewrite layout_of_legal, segment_layout_legal by done.
  destruct (_ || _) eqn:Hx; [done|]. destruct (_ || _) eqn:Hy in |- *; [done|].
  apply bias_test in Hx, Hy. intros [= <-]. done.
Qed.

(** ** The bias checks and the bit widths *)

(** C3: for a legal segment the codec exits with one of the two "bias out
    of range" conditions exactly when [|biasX| > 2^17 - 1] or
    [|biasY| > 2^17 - 1], where the bias is minus the least difference;
    otherwise, so also at a magnitude of exactly [2^17 - 1], the segment is
    packed; the cell loop exits with the condition of the segment. *)
Theorem bias_out_of_range_iff (V : list (Z * Z)) (rest : list Z) :
  (2 <= length V)%nat -> Forall legal_vertex V ->
  let segCount := Z.of_nat (length V) in
  let biasX := - min_dx V in
  let biasY := - min_dy V in
  ((pack_segment segCount (vertex_words V ++ rest) = Exit LonBiasOutOfRange
    \/ pack_segment segCount (vertex_words V ++ rest) = Exit LatBiasOutOfRange)
   <-> Z.abs biasX > 2 ^ 17 - 1 \/ Z.abs biasY > 2 ^ 17 - 1)
  /\ ((exists buffer, pack_segment segCount (vertex_words V ++ rest) = Ok (buffer, rest))
      <-> Z.abs biasX <= 2 ^ 17 - 1 /\ Z.abs biasY <= 2 ^ 17 - 1)
  /\ (forall fuel ofp num_segments num_vertices total,
        Z.abs biasX > 2 ^ 17 - 1 \/ Z.abs biasY > 2 ^ 17 - 1 ->
        cell_loop (S fuel) (spooled V ++ rest) ofp num_segments num_vertices total
          = Exit LonBiasOutOfRange
        \/ cell_loop (S fuel) (spooled V ++ rest) ofp num_segments num_vertices total
          = Exit LatBiasOutOfRange).
Proof.
  intros Hn Hb segCount biasX biasY. subst segCount biasX biasY.
  assert (Hcases :
    pack_segment (Z.of_nat (length V)) (vertex_words V ++ rest) =
      if (- min_dx V >? max_bias) || (- min_dx V <? - max_bias)
      then Exit LonBiasOutOfRange
      else if (- min_dy V >? max_bias) || (- min_dy V <? - max_bias)
      then Exit LatBiasOutOfRange
      else Ok (pack_buffer (Z.of_nat (length V)) (map fst V) (map snd V)
                 (layout_view V), rest)).
  { rewrite pack_segment_legal, layout_of_legal, segment_layout_legal by done.
    by repeat case_match. }
  assert (Hexit :
    Z.abs (- min_dx V) > 2 ^ 17 - 1 \/ Z.abs (- min_dy V) > 2 ^ 17 - 1 ->
    pack_segment (Z.of_nat (length V)) (vertex_words V ++ rest) = Exit LonBiasOutOfRange
    \/ pack_segment (Z.of_nat (length V)) (vertex_words V ++ rest) = Exit LatBiasOutOfRange).
  { rewrite Hcases. intros Hout.
    destruct (_ || _) eqn:Ex; [by left|]. destruct (_ || _) eqn:Ey in |- *; [by right|].
    apply bias_test in Ex, Ey. lia. }
  split; [|split].
  - split; [|done]. rewrite Hcases.
    destruct (_ || _) eqn:Ex.
    { intros _. left. destruct (Z_le_gt_dec (Z.abs (- min_dx V)) (2 ^ 17 - 1)) as [Hle|]; [|done].
      apply bias_test in Hle. congruence. }
    destruct (_ || _) eqn:Ey in |- *; [|by intros [|]].
    intros _. right. destruct (Z_le_gt_dec (Z.abs (- min_dy V)) (2 ^ 17 - 1)) as [Hle|]; [|done].
    apply bias_test in Hle. congruence.
  - rewrite Hcases. split.
    + intros [buffer Hok].
      destruct (_ || _) eqn:Ex; [done|]. destruct (_ || _) eqn:Ey in Hok; [done|].
      split; by apply bias_test.
    + intros [Hbx Hby]. apply bias_test in Hbx, Hby. rewrite Hbx, Hby. eauto.
  - intros fuel ofp ns nv t Hout.
    unfold spooled. cbn [app cell_loop].
    destruct (Z.gtb_spec (Z.of_nat (length V)) 1) as [_|]; [|lia].
    destruct (Hexit Hout) as [-> | ->]; [by left | by right].
Qed.

Lemma bias_out_of_range_iff_witness :
  let V := [(131071, 7); (0, 7)] in
  let segCount := Z.of_nat (length V) in
  let biasX := - min_dx V in
  let biasY := - min_dy V in
  ((pack_segment segCount (vertex_words V ++ []) = Exit LonBiasOutOfRange
    \/ pack_segment segCount (vertex_words V ++ []) = Exit LatBiasOutOfRange)
   <-> Z.abs biasX > 2 ^ 17 - 1 \/ Z.abs biasY > 2 ^ 17 - 1)
  /\ ((exists buffer, pack_segment segCount (vertex_words V ++ []) = Ok (buffer, []))
      <-> Z.abs biasX <= 2 ^ 17 - 1 /\ Z.abs biasY <= 2 ^ 17 - 1)
  /\ (forall fuel ofp num_segments num_vertices total,
        Z.abs biasX > 2 ^ 17 - 1 \/ Z.abs biasY > 2 ^ 17 - 1 ->
        cell_loop (S fuel) (spooled V ++ []) ofp num_segments num_vertices total
          = Exit LonBiasOutOfRange
        \/ cell_loop (S fuel) (spooled V ++ []) ofp num_segments num_vertices total
          = Exit LatBiasOutOfRange).
Proof.
  apply (bias_out_of_range_iff [(131071, 7); (0, 7)] []).
  - simpl. lia.
  - repeat constructor; simpl; lia.
Defined.

(** A bias of magnitude exactly [2^17 - 1] is packed, one of [2^17] exits. *)
Example bias_max_legal :
  exists buffer, pack_segment 2 [131071; 7; 0; 7] = Ok (buffer, []).
Proof. eexists. vm_compute. reflexivity. Qed.

Example bias_2_17_fatal :
  pack_segment 2 [131072; 7; 0; 7] = Exit LonBiasOutOfRange
  /\ pack_segment 2 [7; 131072; 7; 0] = Exit LatBiasOutOfRange
  /\ pack_segment 2 [0; 7; 131072; 7] = Exit LonBiasOutOfRange.
Proof. vm_compute. done. Qed.

(** C4: the widths computed for a legal segment are the least ones: with
    [m] the vertex count, or the range of the differences forced to 1 when
    it is zero, [2^(width-1) <= m < 2^width]; the width of a zero range
    is 1. *)
Theorem minimal_bit_widths (V : list (Z * Z)) (l : layout) :
  (2 <= length V)%nat -> Forall legal_vertex V -> layout_of V = Ok l ->
  let n := Z.of_nat (length V) in
  (2 ^ (count_bits l - 1) <= n < 2 ^ count_bits l)
  /\ (range_x l = forced_range (min_dx V) (max_dx V) /\ 1 <= range_x l
      /\ 2 ^ (lon_offset_bits l - 1) <= range_x l < 2 ^ lon_offset_bits l)
  /\ (range_y l = forced_range (min_dy V) (max_dy V) /\ 1 <= range_y l
      /\ 2 ^ (lat_offset_bits l - 1) <= range_y l < 2 ^ lat_offset_bits l)
  /\ (max_dx V - min_dx V = 0 -> lon_offset_bits l = 1)
  /\ (max_dy V - min_dy V = 0 -> lat_offset_bits l = 1).
Proof.
  intros Hn Hb Hl n. subst n.
  apply layout_of_ok_inv in Hl as [_ ->]; [|done..]. cbn [layout_view count_bits
    range_x range_y lon_offset_bits lat_offset_bits].
  pose proof (diff_bounds (map fst V) ltac:(by rewrite length_map) (legal_fst _ Hb)) as Hx.
  pose proof (diff_bounds (map snd V) ltac:(by rewrite length_map) (legal_snd _ Hb)) as Hy.
  fold (min_dx V) (max_dx V) in Hx. fold (min_dy V) (max_dy V) in Hy.
  assert (1 <= forced_range (min_dx V) (max_dx V)) as Hrx.
  { unfold forced_range. destruct (Z.eqb_spec (max_dx V - min_dx V) 0); lia. }
  assert (1 <= forced_range (min_dy V) (max_dy V)) as Hry.
  { unfold forced_range. destruct (Z.eqb_spec (max_dy V - min_dy V) 0); lia. }
  pose proof (int_log2_width (Z.of_nat (length V)) ltac:(lia)).
  pose proof (int_log2_width _ Hrx). pose proof (int_log2_width _ Hry).
  repeat split; try tauto.
  - intros Hz. unfold forced_range. by rewrite Hz.
  - intros Hz. unfold forced_range. by rewrite Hz.
Qed.

Lemma minimal_bit_widths_witness :
  let V := [(0, 0); (1, 1); (50000, 50000)] in
  let l := Layout (-1) (-1) 49998 49998 2 16 16 in
  let n := Z.of_nat (length V) in
  (2 ^ (count_bits l - 1) <= n < 2 ^ count_bits l)
  /\ (range_x l = forced_range (min_dx V) (max_dx V) /\ 1 <= range_x l
      /\ 2 ^ (lon_offset_bits l - 1) <= range_x l < 2 ^ lon_offset_bits l)
  /\ (range_y l = forced_range (min_dy V) (max_dy V) /\ 1 <= range_y l
      /\ 2 ^ (lat_offset_bits l - 1) <= range_y l < 2 ^ lat_offset_bits l)
  /\ (max_dx V - min_dx V = 0 -> lon_offset_bits l = 1)
  /\ (max_dy V - min_dy V = 0 -> lat_offset_bits l = 1).
Proof.
  apply (minimal_bit_widths [(0, 0); (1, 1); (50000, 50000)]
           (Layout (-1) (-1) 49998 49998 2 16 16)).
  - simpl. lia.
  - repeat constructor; simpl; lia.
  - vm_compute. reflexivity.
Defined.

(** ** The bits of a packed segment *)

Lemma offset_fields_lookup (n : nat) (k : Z) (segx segy : list Z) (lb tb bx by_ : Z)
    (j : nat) :
  (j < n)%nat ->
  offset_fields n k segx segy lb tb bx by_ !! (2 * j)%nat
    = Some (lb, add32 (sub32 (idx segx (k + Z.of_nat j)) (idx segx (k + Z.of_nat j - 1))) bx)
  /\ offset_fields n k segx segy lb tb bx by_ !! S (2 * j)
    = Some (tb, add32 (sub32 (idx segy (k + Z.of_nat j)) (idx segy (k + Z.of_nat j - 1))) by_).
Proof.
  revert k j. induction n as [|n IH]; intros k j Hj; [lia|].
  destruct j as [|j].
  - cbn [offset_fields Nat.mul lookup list_lookup Nat.add]. rewrite Z.add_0_r. done.
  - replace (2 * S j)%nat with (S (S (2 * j))) by lia.
    destruct (IH (k + 1) j ltac:(lia)) as [Hx Hy].
    replace (k + Z.of_nat (S j)) with (k + 1 + Z.of_nat j) by lia.
    split; [exact Hx | exact Hy].
Qed.

Lemma offset_fields_take (n : nat) (k : Z) (segx segy : list Z) (lb tb bx by_ : Z)
    (j : nat) :
  (j <= n)%nat ->
  total_bits (take (2 * j) (offset_fields n k segx segy lb tb bx by_))
    = Z.of_nat j * (lb + tb).
Proof.
  revert k j. induction n as [|n IH]; intros k j Hj.
  - assert (j = 0)%nat as -> by lia. done.
  - destruct j as [|j]; [done|].
    replace (2 * S j)%nat with (S (S (2 * j))) by lia.
    cbn [offset_fields take total_bits foldr fst].
    change (foldr _ 0 ?l) with (total_bits l). rewrite IH by lia. lia.
Qed.

Lemma offset_fields_take_S (n : nat) (k : Z) (segx segy : list Z) (lb tb bx by_ : Z)
    (j : nat) :
  (j < n)%nat ->
  total_bits (take (S (2 * j)) (offset_fields n k segx segy lb tb bx by_))
    = Z.of_nat j * (lb + tb) + lb.
Proof.
  intros Hj.
  destruct (offset_fields_lookup n k segx segy lb tb bx by_ j Hj) as [Hx _].
  erewrite take_S_r by exact Hx.
  rewrite total_bits_app, offset_fields_take by lia. simpl. lia.
Qed.

Lemma offset_fields_widths (n : nat) (k : Z) (segx segy : list Z) (lb tb bx by_ : Z) :
  0 <= lb -> 0 <= tb ->
  Forall (fun f => 0 <= fst f) (offset_fields n k segx segy lb tb bx by_).
Proof.
  intros Hl Ht. revert k. induction n as [|n IH]; intros k; [constructor|].
  cbn [offset_fields]. repeat constructor; [done..|]. apply IH.
Qed.

(** A segment whose fields have widths that are not negative and is of one
    vertex or more: the buffer holds all its fields, each reads back, and
    no other bit is set. *)
Section packed.
Context (segCount : Z) (segx segy : list Z) (l : layout).
Hypothesis Hn : 1 <= segCount.
Hypothesis Hcb : 0 <= count_bits l.
Hypothesis Hlb : 0 <= lon_offset_bits l.
Hypothesis Htb : 0 <= lat_offset_bits l.

Local Abbreviation buffer := (pack_buffer segCount segx segy l).
Local Abbreviation fields := (segment_fields segCount segx segy l).

Lemma segment_fields_widths : Forall (fun f => 0 <= fst f) fields.
Proof.
  unfold segment_fields. apply Forall_app. split.
  - repeat constructor; simpl; lia.
  - by apply offset_fields_widths.
Qed.

Lemma buffer_size_eq :
  buffer_size segCount l
    = (packed_bits segCount l + lon_offset_bits l + lat_offset_bits l) / 8 + 1.
Proof.
  unfold buffer_size, size_bits, packed_bits. rewrite quot_div_nonneg by nia.
  do 2 f_equal. lia.
Qed.

(** Below [2^31] bits the 32-bit arithmetic of lines 709-712 is exact: the
    product, the sum and the size in bytes are the values computed here,
    and no position [pos] of lines 728-746 passes the number of bits. *)
Lemma size_bits_int32 :
  size_bits segCount l < 2 ^ 31 ->
  wrap32 ((segCount - 1) * (lon_offset_bits l + lat_offset_bits l))
    = (segCount - 1) * (lon_offset_bits l + lat_offset_bits l)
  /\ wrap32 (size_bits segCount l) = size_bits segCount l
  /\ wrap32 (buffer_size segCount l) = buffer_size segCount l
  /\ 0 <= packed_bits segCount l <= size_bits segCount l.
Proof.
  intros Hfit.
  set (P := (segCount - 1) * (lon_offset_bits l + lat_offset_bits l)).
  assert (HP : 0 <= P) by (unfold P; nia).
  assert (Hsize : size_bits segCount l
            = 5 + 5 + 5 + count_bits l + lon_offset_bits l + lat_offset_bits l
              + 18 + 18 + 26 + 25 + P) by reflexivity.
  assert (Hpacked : packed_bits segCount l
            = 5 + 5 + 5 + count_bits l + 18 + 18 + 26 + 25 + P) by reflexivity.
  assert (Hbuf : buffer_size segCount l = size_bits segCount l / 8 + 1).
  { rewrite buffer_size_eq. do 2 f_equal. lia. }
  pose proof (Z.div_pos (size_bits segCount l) 8 ltac:(lia) ltac:(lia)).
  assert (size_bits segCount l / 8 < 2 ^ 28)
    by (apply Z.div_lt_upper_bound; lia).
  repeat split; try (apply wrap32_id; unfold int32); lia.
Qed.

Lemma length_pack_buffer : Z.of_nat (length buffer) = buffer_size segCount l.
Proof.
  rewrite pack_buffer_fields, length_pack_fields, length_replicate.
  rewrite Z2Nat.id; [done|]. rewrite buffer_size_eq.
  assert (0 <= packed_bits segCount l + lon_offset_bits l + lat_offset_bits l)
    by (unfold packed_bits; nia).
  pose proof (Z.div_pos (packed_bits segCount l + lon_offset_bits l + lat_offset_bits l) 8).
  lia.
Qed.

Lemma packed_bits_fit : packed_bits segCount l <= 8 * Z.of_nat (length buffer).
Proof.
  rewrite length_pack_buffer, buffer_size_eq.
  pose proof (Z.div_mod (packed_bits segCount l + lon_offset_bits l + lat_offset_bits l) 8).
  pose proof (Z.mod_pos_bound (packed_bits segCount l + lon_offset_bits l + lat_offset_bits l) 8).
  lia.
Qed.

Lemma segment_field_read (i : nat) (w v : Z) :
  fields !! i = Some (w, v) ->
  bit_unpack buffer (total_bits (take i fields)) w = v mod 2 ^ w.
Proof.
  intros Hi. rewrite pack_buffer_fields.
  rewrite <- (Z.add_0_l (total_bits _)).
  apply bit_unpack_pack_fields; [apply segment_fields_widths|done| |done].
  rewrite total_bits_segment_fields by done.
  fold (packed_bits segCount l).
  pose proof packed_bits_fit as Hfit.
  rewrite pack_buffer_fields, length_pack_fields in Hfit. lia.
Qed.

Lemma segment_trailing_zero (i : Z) :
  packed_bits segCount l <= i -> get_bit buffer i = false.
Proof.
  intros Hi. rewrite pack_buffer_fields.
  pose proof packed_bits_fit as Hfit.
  rewrite pack_buffer_fields, length_pack_fields in Hfit.
  assert (0 <= packed_bits segCount l) by (unfold packed_bits; nia).
  rewrite get_bit_pack_fields_outside.
  - unfold get_bit. destruct (_ !! _) as [b|] eqn:Hb; [|done].
    apply lookup_replicate in Hb as [-> _]. apply Z.bits_0.
  - apply segment_fields_widths.
  - done.
  - rewrite total_bits_segment_fields by done. fold (packed_bits segCount l). lia.
  - lia.
  - right. rewrite total_bits_segment_fields by done. unfold packed_bits in *. lia.
Qed.

(** The eight fields of the head of a segment. *)
Lemma segment_head_read :
  bit_unpack buffer 0 5 = count_bits l mod 2 ^ 5
  /\ bit_unpack buffer 5 5 = lon_offset_bits l mod 2 ^ 5
  /\ bit_unpack buffer 10 5 = lat_offset_bits l mod 2 ^ 5
  /\ bit_unpack buffer 15 (count_bits l) = segCount mod 2 ^ count_bits l
  /\ bit_unpack buffer (15 + count_bits l) 18 = add32 (bias_x l) max_bias mod 2 ^ 18
  /\ bit_unpack buffer (15 + count_bits l + 18) 18
       = add32 (bias_y l) max_bias mod 2 ^ 18
  /\ bit_unpack buffer (15 + count_bits l + 18 + 18) 26 = idx segx 0 mod 2 ^ 26
  /\ bit_unpack buffer (15 + count_bits l + 18 + 18 + 26) 25 = idx segy 0 mod 2 ^ 25.
Proof.
  pose proof (segment_field_read 0 _ _ eq_refl) as H0.
  pose proof (segment_field_read 1 _ _ eq_refl) as H1.
  pose proof (segment_field_read 2 _ _ eq_refl) as H2.
  pose proof (segment_field_read 3 _ _ eq_refl) as H3.
  pose proof (segment_field_read 4 _ _ eq_refl) as H4.
  pose proof (segment_field_read 5 _ _ eq_refl) as H5.
  pose proof (segment_field_read 6 _ _ eq_refl) as H6.
  pose proof (segment_field_read 7 _ _ eq_refl) as H7.
  unfold segment_fields in *.
  cbn [take app total_bits foldr fst] in *.
  repeat split.
  - exact H0.
  - exact H1.
  - exact H2.
  - exact H3.
  - rewrite <- H4. f_equal. lia.
  - rewrite <- H5. f_equal. lia.
  - rewrite <- H6. f_equal. lia.
  - rewrite <- H7. f_equal. lia.
Qed.

(** The offset pair of vertex [k], for [1 <= k < segCount]. *)
Lemma segment_offset_read (k : Z) :
  1 <= k < segCount ->
  let pos := 5 + 5 + 5 + count_bits l + 18 + 18 + 26 + 25
             + (k - 1) * (lon_offset_bits l + lat_offset_bits l) in
  bit_unpack buffer pos (lon_offset_bits l)
    = add32 (sub32 (idx segx k) (idx segx (k - 1))) (bias_x l)
        mod 2 ^ lon_offset_bits l
  /\ bit_unpack buffer (pos + lon_offset_bits l) (lat_offset_bits l)
    = add32 (sub32 (idx segy k) (idx segy (k - 1))) (bias_y l)
        mod 2 ^ lat_offset_bits l.
Proof.
  intros Hk pos.
  set (j := Z.to_nat (k - 1)).
  assert (Hj : (j < Z.to_nat (segCount - 1))%nat) by lia.
  destruct (offset_fields_lookup _ 1 segx segy (lon_offset_bits l)
              (lat_offset_bits l) (bias_x l) (bias_y l) j Hj) as [Hx Hy].
  replace (1 + Z.of_nat j) with k in Hx, Hy by lia.
  pose proof (segment_field_read (8 + 2 * j)) as Rx.
  pose proof (segment_field_read (8 + S (2 * j))) as Ry.
  unfold segment_fields in Rx, Ry.
  rewrite lookup_app_r in Rx by (cbn [length]; lia).
  rewrite lookup_app_r in Ry by (cbn [length]; lia).
  rewrite take_app_add' in Rx by done.
  rewrite take_app_add' in Ry by done.
  cbn [length] in Rx, Ry.
  replace (8 + 2 * j - 8)%nat with (2 * j)%nat in Rx by lia.
  replace (8 + S (2 * j) - 8)%nat with (S (2 * j)) in Ry by lia.
  specialize (Rx _ _ Hx). specialize (Ry _ _ Hy).
  rewrite total_bits_app, offset_fields_take in Rx by lia.
  rewrite total_bits_app, offset_fields_take_S in Ry by lia.
  cbn [total_bits foldr fst] in Rx, Ry.
  replace (Z.of_nat j) with (k - 1) in Rx, Ry by lia.
  split.
  - rewrite <- Rx. f_equal. subst pos. lia.
  - rewrite <- Ry. f_equal. subst pos. lia.
Qed.
End packed.

(** ** The fields of a legal segment *)

Lemma idx_map_lookup (xs : list Z) (k : nat) (x : Z) :
  xs !! k = Some x -> idx xs (Z.of_nat k) = x.
Proof. intros Hk. unfold idx. by rewrite Nat2Z.id, Hk. Qed.

Lemma legal_difference (xs : list Z) (k : Z) :
  Forall (fun x => 0 <= x <= 35999999) xs ->
  1 <= k < Z.of_nat (length xs) ->
  let d := idx xs k - idx xs (k - 1) in
  sub32 (idx xs k) (idx xs (k - 1)) = d
  /\ list_min (deltas xs) <= d <= list_max (deltas xs)
  /\ - 35999999 <= d <= 35999999.
Proof.
  intros Hb Hk d.
  destruct (lookup_lt_is_Some_2 xs (Z.to_nat (k - 1)) ltac:(lia)) as [a Ha].
  destruct (lookup_lt_is_Some_2 xs (S (Z.to_nat (k - 1))) ltac:(lia)) as [b Hb'].
  pose proof (deltas_lookup _ _ _ _ Ha Hb') as Hd.
  assert (idx xs (k - 1) = a) as Ea by (unfold idx; by rewrite Ha).
  assert (idx xs k = b) as Eb.
  { unfold idx. replace (Z.to_nat k) with (S (Z.to_nat (k - 1))) by lia. by rewrite Hb'. }
  subst d. rewrite Ea, Eb.
  apply list_elem_of_lookup_2 in Hd.
  pose proof (list_min_le _ _ Hd). pose proof (list_max_ge _ _ Hd).
  pose proof (deltas_bound _ _ Hb) as Hdb. rewrite Forall_forall in Hdb.
  specialize (Hdb _ Hd). simpl in Hdb.
  split; [|lia]. unfold sub32. apply wrap32_id. unfold int32. lia.
Qed.

Lemma forced_range_bounds (lo hi : Z) :
  lo <= hi -> 1 <= forced_range lo hi /\ hi - lo <= forced_range lo hi
              /\ forced_range lo hi <= Z.max 1 (hi - lo).
Proof. intros H. unfold forced_range. destruct (Z.eqb_spec (hi - lo) 0); lia. Qed.

Lemma mod_small_width (v w : Z) : 0 <= v < 2 ^ w -> v mod 2 ^ w = v.
Proof. apply Z.mod_small. Qed.

(** The stored offset of vertex [k] of a legal segment: the difference plus
    the bias, between 0 and the range, so within its width. *)
Lemma legal_stored_offset (xs : list Z) (k lo hi : Z) :
  Forall (fun x => 0 <= x <= 35999999) xs ->
  1 <= k < Z.of_nat (length xs) ->
  lo = list_min (deltas xs) -> hi = list_max (deltas xs) ->
  let v := add32 (sub32 (idx xs k) (idx xs (k - 1))) (- lo) in
  v = idx xs k - idx xs (k - 1) - lo
  /\ 0 <= v <= hi - lo
  /\ v mod 2 ^ (int_log2 (forced_range lo hi) + 1) = v.
Proof.
  intros Hb Hk -> -> v.
  destruct (legal_difference xs k Hb Hk) as (Hsub & Hd & Hd').
  pose proof (diff_bounds xs ltac:(lia) Hb) as Hdiff.
  assert (v = idx xs k - idx xs (k - 1) - list_min (deltas xs)) as Hv.
  { subst v. rewrite Hsub. unfold add32. rewrite wrap32_id; [lia|].
    unfold int32. lia. }
  split; [done|]. split; [lia|].
  pose proof (forced_range_bounds (list_min (deltas xs)) (list_max (deltas xs)) ltac:(lia))
    as (Hr1 & Hr2 & _).
  pose proof (int_log2_width _ Hr1). apply mod_small_width. lia.
Qed.

Lemma legal_diff_bounds (V : list (Z * Z)) :
  (2 <= length V)%nat -> Forall legal_vertex V ->
  (- 35999999 <= min_dx V <= max_dx V /\ max_dx V <= 35999999)
  /\ (- 35999999 <= min_dy V <= max_dy V /\ max_dy V <= 35999999).
Proof.
  intros Hn Hb. split.
  - apply diff_bounds; [by rewrite length_map | by apply legal_fst].
  - apply diff_bounds; [by rewrite length_map | by apply legal_snd].
Qed.

Lemma layout_view_widths (V : list (Z * Z)) :
  (2 <= length V)%nat -> Forall legal_vertex V ->
  1 <= count_bits (layout_view V)
  /\ 1 <= lon_offset_bits (layout_view V) <= 27
  /\ 1 <= lat_offset_bits (layout_view V) <= 27
  /\ (Z.of_nat (length V) < 2 ^ 31 -> count_bits (layout_view V) <= 31).
Proof.
  intros Hn Hb. cbn [layout_view count_bits lon_offset_bits lat_offset_bits].
  destruct (legal_diff_bounds V Hn Hb) as [Hx Hy].
  pose proof (forced_range_bounds (min_dx V) (max_dx V) ltac:(lia)) as (Hrx & _ & Hrx').
  pose proof (forced_range_bounds (min_dy V) (max_dy V) ltac:(lia)) as (Hry & _ & Hry').
  pose proof (int_log2_width (Z.of_nat (length V)) ltac:(lia)).
  pose proof (int_log2_width _ Hrx). pose proof (int_log2_width _ Hry).
  pose proof (int_log2_width_lt (forced_range (min_dx V) (max_dx V)) 27 ltac:(lia) ltac:(lia)).
  pose proof (int_log2_width_lt (forced_range (min_dy V) (max_dy V)) 27 ltac:(lia) ltac:(lia)).
  repeat split; try lia.
  intros Hlt. apply int_log2_width_lt; lia.
Qed.

(** The widths of a legal segment whose biases pass the checks, and a
    number of vertices for which the number of bits fits 32 bits whatever
    the widths are. *)
Lemma layout_view_widths_in_range (V : list (Z * Z)) :
  (2 <= length V)%nat -> Forall legal_vertex V -> bias_in_range V ->
  lon_offset_bits (layout_view V) <= 26 /\ lat_offset_bits (layout_view V) <= 25.
Proof.
  intros Hn Hb [Hbx Hby]. cbn [layout_view lon_offset_bits lat_offset_bits].
  change (2 ^ 17 - 1) with 131071 in Hbx, Hby.
  pose proof (diff_bounds (map fst V) ltac:(by rewrite length_map) (legal_fst _ Hb)) as Hx.
  fold (min_dx V) (max_dx V) in Hx.
  assert (Hdy : Forall (fun d => - 17999999 <= d <= 17999999) (deltas (map snd V))).
  { apply (deltas_bound 17999999). rewrite Forall_forall in Hb. rewrite Forall_forall.
    intros y (v & -> & Hv)%list_elem_of_fmap. by destruct (Hb v Hv). }
  rewrite Forall_forall in Hdy.
  pose proof (deltas_nonempty (map snd V) ltac:(by rewrite length_map)) as Hne.
  pose proof (Hdy _ (list_min_elem _ Hne)) as Hmin.
  pose proof (Hdy _ (list_max_elem _ Hne)) as Hmax.
  pose proof (list_min_le_max (deltas (map snd V))) as Hle.
  change (list_min (deltas (map snd V))) with (min_dy V) in Hmin, Hle.
  change (list_max (deltas (map snd V))) with (max_dy V) in Hmax, Hle.
  cbv beta in Hmin, Hmax.
  pose proof (forced_range_bounds (min_dx V) (max_dx V) ltac:(lia)) as (Hrx & _ & Hrx').
  pose proof (forced_range_bounds (min_dy V) (max_dy V) ltac:(lia)) as (Hry & _ & Hry').
  split; apply int_log2_width_lt; lia.
Qed.

Lemma size_fits_42_million (V : list (Z * Z)) :
  (2 <= length V)%nat -> Forall legal_vertex V -> bias_in_range V ->
  Z.of_nat (length V) <= 42000000 -> size_fits V.
Proof.
  intros Hn Hb Hr Hlen.
  destruct (layout_view_widths V Hn Hb) as (Hcb & Hlb & Htb & _).
  destruct (layout_view_widths_in_range V Hn Hb Hr) as [Hlb' Htb'].
  assert (Hcb' : count_bits (layout_view V) <= 26).
  { cbn [layout_view count_bits]. apply int_log2_width_lt; lia. }
  unfold size_fits, size_bits.
  assert ((Z.of_nat (length V) - 1)
            * (lon_offset_bits (layout_view V) + lat_offset_bits (layout_view V))
          <= (42000000 - 1) * 51) by (apply Z.mul_le_mono_nonneg; lia).
  lia.
Qed.

(** C2, as amended: the two 18-bit bias fields of a packed legal segment
    hold [biasX + (2^17 - 1)] and [biasY + (2^17 - 1)], the biases being
    minus the least differences. *)
Theorem bias_fields_stored (V : list (Z * Z)) (rest buffer fp' : list Z) :
  (2 <= length V)%nat -> Forall legal_vertex V ->
  pack_segment (Z.of_nat (length V)) (vertex_words V ++ rest) = Ok (buffer, fp') ->
  let biasX := - min_dx V in
  let biasY := - min_dy V in
  let pos := 5 + 5 + 5 + (int_log2 (Z.of_nat (length V)) + 1) in
  bit_unpack buffer pos 18 = biasX + (2 ^ 17 - 1)
  /\ bit_unpack buffer (pos + 18) 18 = biasY + (2 ^ 17 - 1).
Proof.
  intros Hn Hb Hpack biasX biasY pos.
  rewrite pack_segment_legal in Hpack by done.
  destruct (layout_of V) as [l|] eqn:Hl; [|done].
  apply layout_of_ok_inv in Hl as [[Hbx Hby] ->]; [|done..].
  injection Hpack as <- <-.
  destruct (layout_view_widths V Hn Hb) as (Hcb & Hlb & Htb & _).
  destruct (legal_diff_bounds V Hn Hb) as [Hx Hy].
  destruct (segment_head_read (Z.of_nat (length V)) (map fst V) (map snd V)
              (layout_view V)) as (_ & _ & _ & _ & H4 & H5 & _); [lia..|].
  unfold bias_in_range in *.
  cbn [layout_view count_bits bias_x bias_y] in H4, H5.
  subst pos biasX biasY. change max_bias with (2 ^ 17 - 1) in H4, H5.
  unfold add32 in H4, H5.
  rewrite wrap32_id in H4, H5 by (unfold int32; lia).
  rewrite Z.mod_small in H4, H5 by lia.
  split; [rewrite <- H4 | rewrite <- H5]; f_equal; lia.
Qed.

Lemma bias_fields_stored_witness :
  let V := [(0, 0); (1, 1); (50000, 50000)] in
  let biasX := - min_dx V in
  let biasY := - min_dy V in
  let pos := 5 + 5 + 5 + (int_log2 (Z.of_nat (length V)) + 1) in
  bit_unpack [20; 33; 191; 255; 207; 255; 240; 0; 0; 0; 0; 0; 0; 0; 0; 0; 0;
              195; 78; 195; 78; 0; 0; 0; 0; 0] pos 18 = biasX + (2 ^ 17 - 1)
  /\ bit_unpack [20; 33; 191; 255; 207; 255; 240; 0; 0; 0; 0; 0; 0; 0; 0; 0; 0;
                 195; 78; 195; 78; 0; 0; 0; 0; 0] (pos + 18) 18 = biasY + (2 ^ 17 - 1).
Proof.
  apply (bias_fields_stored [(0, 0); (1, 1); (50000, 50000)] [] _ []).
  - simpl. lia.
  - repeat constructor; simpl; lia.
  - vm_compute. reflexivity.
Defined.

(** C2 as stated fails: for the segment (0,0), (1,1) the bias is -1 and the
    longitude field holds 131070, not [-1 + 2^17]. *)
Lemma bias_field_is_not_plus_2_17 :
  exists buffer,
    pack_segment 2 (vertex_words [(0, 0); (1, 1)]) = Ok (buffer, [])
    /\ bit_unpack buffer (5 + 5 + 5 + 2) 18 = 131070
    /\ bit_unpack buffer (5 + 5 + 5 + 2) 18 <> - min_dx [(0, 0); (1, 1)] + 2 ^ 17.
Proof.
  eexists. split; [vm_compute; reflexivity|]. split; [vm_compute; reflexivity|].
  vm_compute. discriminate.
Qed.

(** ** The size of the buffer and the stored offsets *)

Lemma pack_segment_ok_inv (V : list (Z * Z)) (rest buffer fp' : list Z) :
  (2 <= length V)%nat -> Forall legal_vertex V ->
  pack_segment (Z.of_nat (length V)) (vertex_words V ++ rest) = Ok (buffer, fp') ->
  bias_in_range V /\ layout_of V = Ok (layout_view V)
  /\ buffer = pack_buffer (Z.of_nat (length V)) (map fst V) (map snd V) (layout_view V)
  /\ fp' = rest.
Proof.
  intros Hn Hb Hpack. rewrite pack_segment_legal in Hpack by done.
  destruct (layout_of V) as [l|] eqn:Hl; [|done].
  apply layout_of_ok_inv in Hl as [Hr ->]; [|done..].
  by injection Hpack as <- <-.
Qed.

(** C7, as amended: the buffer of a packed legal segment whose number of
    bits, as line 709 counts them, is below [2^31] (so that the 32-bit
    [size] does not overflow) has
    [(totalBits + lonOffsetBits + latOffsetBits) / 8 + 1] bytes, where
    [totalBits] is the sum of the widths of the fields packed; that is
    [ceil(totalBits / 8)] bytes or more, and every bit of the buffer from bit
    [totalBits] on is zero. *)
Theorem buffer_size_and_padding (V : list (Z * Z)) (rest buffer fp' : list Z) :
  (2 <= length V)%nat -> Forall legal_vertex V -> size_fits V ->
  pack_segment (Z.of_nat (length V)) (vertex_words V ++ rest) = Ok (buffer, fp') ->
  exists l, layout_of V = Ok l /\
    let totalBits := packed_bits (Z.of_nat (length V)) l in
    totalBits + lon_offset_bits l + lat_offset_bits l < 2 ^ 31
    /\ Z.of_nat (length buffer)
        = (totalBits + lon_offset_bits l + lat_offset_bits l) / 8 + 1
    /\ (totalBits + 7) / 8 <= Z.of_nat (length buffer)
    /\ forall i, totalBits <= i -> get_bit buffer i = false.
Proof.
  intros Hn Hb Hfit Hpack.
  destruct (pack_segment_ok_inv _ _ _ _ Hn Hb Hpack) as (_ & Hl & -> & _).
  exists (layout_view V). split; [done|]. intros totalBits.
  destruct (layout_view_widths V Hn Hb) as (Hcb & Hlb & Htb & _).
  pose proof (length_pack_buffer (Z.of_nat (length V)) (map fst V) (map snd V)
                (layout_view V) ltac:(lia) ltac:(lia) ltac:(lia) ltac:(lia)) as Hlen.
  rewrite buffer_size_eq in Hlen by lia.
  pose proof (packed_bits_fit (Z.of_nat (length V)) (map fst V) (map snd V)
                (layout_view V) ltac:(lia) ltac:(lia) ltac:(lia) ltac:(lia)) as Hfit'.
  fold totalBits in Hlen, Hfit'.
  split.
  { unfold size_fits, size_bits in Hfit. unfold totalBits, packed_bits. lia. }
  split; [done|]. split.
  - assert ((totalBits + 7) / 8 < Z.of_nat (length (pack_buffer (Z.of_nat (length V))
               (map fst V) (map snd V) (layout_view V))) + 1); [|lia].
    apply Z.div_lt_upper_bound; lia.
  - intros i Hi. apply segment_trailing_zero; lia.
Qed.

Lemma buffer_size_and_padding_witness :
  exists l, layout_of [(0, 0); (1, 1); (50000, 50000)] = Ok l /\
    let totalBits := packed_bits 3 l in
    totalBits + lon_offset_bits l + lat_offset_bits l < 2 ^ 31
    /\ Z.of_nat (length [20; 33; 191; 255; 207; 255; 240; 0; 0; 0; 0; 0; 0; 0; 0; 0; 0;
                         195; 78; 195; 78; 0; 0; 0; 0; 0])
        = (totalBits + lon_offset_bits l + lat_offset_bits l) / 8 + 1
    /\ (totalBits + 7) / 8
       <= Z.of_nat (length [20; 33; 191; 255; 207; 255; 240; 0; 0; 0; 0; 0; 0; 0; 0; 0; 0;
                            195; 78; 195; 78; 0; 0; 0; 0; 0])
    /\ forall i, totalBits <= i ->
         get_bit [20; 33; 191; 255; 207; 255; 240; 0; 0; 0; 0; 0; 0; 0; 0; 0; 0;
                  195; 78; 195; 78; 0; 0; 0; 0; 0] i = false.
Proof.
  apply (buffer_size_and_padding [(0, 0); (1, 1); (50000, 50000)] [] _ []).
  - simpl. lia.
  - repeat constructor; simpl; lia.
  - unfold size_fits. vm_compute. reflexivity.
  - vm_compute. reflexivity.
Defined.

(** C7 as stated fails: for the segment (0,0), (0,0), (2,2) the fields take
    112 bits, [ceil(112 / 8)] is 14, and the buffer has 15 bytes. *)
Lemma buffer_is_not_ceil_of_packed_bits :
  exists buffer l,
    pack_segment 3 (vertex_words [(0, 0); (0, 0); (2, 2)]) = Ok (buffer, [])
    /\ layout_of [(0, 0); (0, 0); (2, 2)] = Ok l
    /\ packed_bits 3 l = 112
    /\ Z.of_nat (length buffer) = 15
    /\ Z.of_nat (length buffer) <> (packed_bits 3 l + 7) / 8.
Proof.
  do 2 eexists. split; [vm_compute; reflexivity|].
  split; [vm_compute; reflexivity|]. vm_compute. repeat split; discriminate.
Qed.

(** C8, as amended: the offsets stored for vertex [k] of a packed legal
    segment are [delta[k] + bias] with [bias = - min(delta)]; each is [>= 0]
    and at most the range [max(delta) - min(delta)], and it is at most
    [2 * max_bias] when the greatest difference is at most [max_bias]. *)
Theorem stored_offset_bounds (V : list (Z * Z)) (rest buffer fp' : list Z) (k : Z) :
  (2 <= length V)%nat -> Forall legal_vertex V ->
  pack_segment (Z.of_nat (length V)) (vertex_words V ++ rest) = Ok (buffer, fp') ->
  1 <= k < Z.of_nat (length V) ->
  exists l, layout_of V = Ok l /\
    let pos := packed_bits k l in
    let xoff := bit_unpack buffer pos (lon_offset_bits l) in
    let yoff := bit_unpack buffer (pos + lon_offset_bits l) (lat_offset_bits l) in
    let dx := idx (map fst V) k - idx (map fst V) (k - 1) in
    let dy := idx (map snd V) k - idx (map snd V) (k - 1) in
    (xoff = dx + - min_dx V /\ 0 <= xoff <= max_dx V - min_dx V
     /\ (max_dx V <= max_bias -> xoff <= 2 * max_bias))
    /\ (yoff = dy + - min_dy V /\ 0 <= yoff <= max_dy V - min_dy V
        /\ (max_dy V <= max_bias -> yoff <= 2 * max_bias)).
Proof.
  intros Hn Hb Hpack Hk.
  destruct (pack_segment_ok_inv _ _ _ _ Hn Hb Hpack) as ([Hbx Hby] & Hl & -> & _).
  exists (layout_view V). split; [done|].
  destruct (layout_view_widths V Hn Hb) as (Hcb & Hlb & Htb & _).
  destruct (segment_offset_read (Z.of_nat (length V)) (map fst V) (map snd V)
              (layout_view V) ltac:(lia) ltac:(lia) ltac:(lia) ltac:(lia) k Hk)
    as [Rx Ry].
  cbn zeta in Rx, Ry. fold (packed_bits k (layout_view V)) in Rx, Ry.
  cbn zeta. rewrite Rx, Ry. clear Rx Ry.
  cbn [layout_view lon_offset_bits lat_offset_bits bias_x bias_y].
  destruct (legal_stored_offset (map fst V) k (min_dx V) (max_dx V) (legal_fst _ Hb)
              ltac:(by rewrite length_map) eq_refl eq_refl) as (Ex & Bx & Mx).
  destruct (legal_stored_offset (map snd V) k (min_dy V) (max_dy V) (legal_snd _ Hb)
              ltac:(by rewrite length_map) eq_refl eq_refl) as (Ey & By & My).
  rewrite Mx, My. unfold max_bias. change (2 ^ 17 - 1) with 131071 in Hbx, Hby.
  repeat split; lia.
Qed.

Lemma stored_offset_bounds_witness :
  exists l, layout_of [(0, 0); (1, 1); (50000, 50000)] = Ok l /\
    let V := [(0, 0); (1, 1); (50000, 50000)] in
    let buffer := [20; 33; 191; 255; 207; 255; 240; 0; 0; 0; 0; 0; 0; 0; 0; 0; 0;
                   195; 78; 195; 78; 0; 0; 0; 0; 0] in
    let pos := packed_bits 2 l in
    let xoff := bit_unpack buffer pos (lon_offset_bits l) in
    let yoff := bit_unpack buffer (pos + lon_offset_bits l) (lat_offset_bits l) in
    let dx := idx (map fst V) 2 - idx (map fst V) (2 - 1) in
    let dy := idx (map snd V) 2 - idx (map snd V) (2 - 1) in
    (xoff = dx + - min_dx V /\ 0 <= xoff <= max_dx V - min_dx V
     /\ (max_dx V <= max_bias -> xoff <= 2 * max_bias))
    /\ (yoff = dy + - min_dy V /\ 0 <= yoff <= max_dy V - min_dy V
        /\ (max_dy V <= max_bias -> yoff <= 2 * max_bias)).
Proof.
  apply (stored_offset_bounds [(0, 0); (1, 1); (50000, 50000)] [] _ [] 2).
  - simpl. lia.
  - repeat constructor; simpl; lia.
  - vm_compute. reflexivity.
  - simpl. lia.
Defined.

(** C8 as stated fails: the segment (0,0), (0,0), (300000,0) passes the
    bias checks (its biases are 0) and is packed, and the longitude offset
    stored for its last vertex is [300000 + 0], more than [2 * max_bias]. *)
Lemma stored_offset_exceeds_twice_max_bias :
  exists buffer l,
    let V := [(0, 0); (0, 0); (300000, 0)] in
    pack_segment 3 (vertex_words V) = Ok (buffer, [])
    /\ layout_of V = Ok l
    /\ - min_dx V = 0
    /\ bit_unpack buffer (packed_bits 2 l) (lon_offset_bits l)
         = (300000 - 0) + - min_dx V
    /\ ~ (300000 - 0) + - min_dx V <= 2 * (2 ^ 17 - 1).
Proof.
  do 2 eexists. cbn zeta. split; [vm_compute; reflexivity|].
  split; [vm_compute; reflexivity|]. vm_compute.
  repeat split. intros Hle. apply Hle. reflexivity.
Qed.

(** ** Packing then unpacking *)






(** ** The vertex loop of the accumulator *)

Lemma vertex_step_boundary (fname : Z * Z) (cx cy : float * float) (shape : SHPObject)
    (st : acc_state) (numParts j : Z) :
  vertex_on_boundary cx cy shape j = true ->
  vertex_step fname cx cy shape (st, numParts) j
    = (Acc (spools st) (segCount st) (seg_x st) (seg_y st) true (total st),
       snd (start_flags shape j numParts (bad_flag st))).
Proof.
  intros Hb. unfold vertex_step, vertex_on_boundary in *.
  destruct (start_flags shape j numParts (bad_flag st)) as [[start bf] np].
  by rewrite Hb.
Qed.

Lemma vertex_step_kept (fname : Z * Z) (cx cy : float * float) (shape : SHPObject)
    (st : acc_state) (numParts j : Z) :
  vertex_on_boundary cx cy shape j = false ->
  vertex_step fname cx cy shape (st, numParts) j
    = let start := fst (fst (start_flags shape j numParts (bad_flag st))) in
      let n := if start then 0 else segCount st in
      (Acc (if start then close_segment fname st else spools st) (n + 1)
         (realloc_store (seg_x st) n (fst (stored_point shape j)))
         (realloc_store (seg_y st) n (snd (stored_point shape j)))
         false (total st),
       snd (start_flags shape j numParts (bad_flag st))).
Proof.
  intros Hb. unfold vertex_step, vertex_on_boundary, stored_point in *.
  assert (snd (fst (start_flags shape j numParts (bad_flag st))) = false) as Hbf.
  { unfold start_flags. by repeat case_match; simplify_eq/=. }
  destruct (start_flags shape j numParts (bad_flag st)) as [[start bf] np].
  cbn [fst snd] in *. subst bf. rewrite Hb. by destruct start.
Qed.

Lemma before_vertex_0 (fname : Z * Z) (cx cy : float * float) (shape : SHPObject)
    (st : acc_state) :
  before_vertex fname cx cy shape st 0 = (st, 1).
Proof. done. Qed.

Lemma before_vertex_succ (fname : Z * Z) (cx cy : float * float) (shape : SHPObject)
    (st : acc_state) (j : Z) :
  0 <= j ->
  before_vertex fname cx cy shape st (j + 1)
    = vertex_step fname cx cy shape (before_vertex fname cx cy shape st j) j.
Proof.
  intros Hj. unfold before_vertex.
  rewrite (seqZ_app 0 j 1), foldl_app by lia. done.
Qed.

Lemma read_shape_before_vertex (fname : Z * Z) (cx cy : float * float)
    (shape : SHPObject) (st : acc_state) :
  read_shape fname cx cy st shape =
    let st := Acc (spools st) (segCount st) (seg_x st) (seg_y st) (bad_flag st)
                (add32 (total st) (nVertices shape)) in
    if nVertices shape >=? 2
    then fst (before_vertex fname cx cy shape st (nVertices shape))
    else st.
Proof. done. Qed.

Lemma start_flags_eq (shape : SHPObject) (j numParts : Z) (bad : bool) :
  start_flags shape j numParts bad =
    let hit := (numParts <? nParts shape) && (idx (panPartStart shape) numParts =? j) in
    (((j =? 0) && (nParts shape >? 0)) || bad || hit, false,
     if hit then numParts + 1 else numParts).
Proof.
  unfold start_flags. cbn zeta.
  destruct ((j =? 0) && (nParts shape >? 0)), bad,
    ((numParts <? nParts shape) && (idx (panPartStart shape) numParts =? j)); done.
Qed.

Lemma realloc_store_length (a : list Z) (n v : Z) :
  0 <= n <= Z.of_nat (length a) ->
  Z.of_nat (length (realloc_store a n v)) = n + 1.
Proof.
  intros Hn. unfold realloc_store. rewrite length_app, length_take. simpl. lia.
Qed.

Lemma vertex_step_wf (fname : Z * Z) (cx cy : float * float) (shape : SHPObject)
    (st : acc_state) (numParts j : Z) :
  acc_wf st -> acc_wf (fst (vertex_step fname cx cy shape (st, numParts) j)).
Proof.
  intros [Hx Hy]. destruct (vertex_on_boundary cx cy shape j) eqn:Hb.
  - by rewrite vertex_step_boundary.
  - rewrite vertex_step_kept by done. cbn zeta. unfold acc_wf. cbn [fst segCount seg_x seg_y].
    rewrite !realloc_store_length by (destruct (fst (fst _)); lia).
    destruct (fst (fst _)); lia.
Qed.

(** What holds when the vertex loop reaches vertex [j]: [bad_flag] tells
    whether the previous vertex was on the boundary, a kept previous vertex
    is in the segment in progress, and [numParts] is the first part, after
    part 0, that does not start before [j]. *)
Lemma vertex_loop_inv (fname : Z * Z) (cx cy : float * float) (shape : SHPObject)
    (st : acc_state) (n : nat) :
  parts_sorted shape -> acc_wf st ->
  let j := Z.of_nat n in
  let s := before_vertex fname cx cy shape st j in
  acc_wf (fst s)
  /\ bad_flag (fst s)
       = (if j =? 0 then bad_flag st else vertex_on_boundary cx cy shape (j - 1))
  /\ (1 <= j -> vertex_on_boundary cx cy shape (j - 1) = false -> 1 <= segCount (fst s))
  /\ 1 <= snd s
  /\ (forall p, 1 <= p < snd s -> p < nParts shape -> idx (panPartStart shape) p < j)
  /\ (forall p, snd s <= p < nParts shape -> j <= idx (panPartStart shape) p).
Proof.
  intros [Hpos Hsorted] Hwf. induction n as [|n IH]; cbn zeta.
  - rewrite before_vertex_0. cbn [fst snd].
    split; [done|]. split; [done|]. split; [lia|]. split; [lia|].
    split; [lia|]. intros p Hp. apply Hpos. lia.
  - cbn zeta in IH. destruct IH as (Hwf' & Hbad & Hseg & Hnp & Hlt & Hge).
    replace (Z.of_nat (S n)) with (Z.of_nat n + 1) by lia.
    rewrite before_vertex_succ by lia.
    destruct (before_vertex fname cx cy shape st (Z.of_nat n)) as [stj np].
    cbn [fst snd] in *.
    replace (Z.of_nat n + 1 - 1) with (Z.of_nat n) by lia.
    destruct (Z.eqb_spec (Z.of_nat n + 1) 0) as [|_]; [lia|].
    split; [by apply vertex_step_wf|].
    assert (Hnp' : let np' := snd (start_flags shape (Z.of_nat n) np (bad_flag stj)) in
              1 <= np'
              /\ (forall p, 1 <= p < np' -> p < nParts shape ->
                    idx (panPartStart shape) p < Z.of_nat n + 1)
              /\ (forall p, np' <= p < nParts shape ->
                    Z.of_nat n + 1 <= idx (panPartStart shape) p)).
    { rewrite start_flags_eq. cbn [snd].
      destruct (Z.ltb_spec np (nParts shape)) as [Hin|Hout]; cbn [andb].
      - destruct (Z.eqb_spec (idx (panPartStart shape) np) (Z.of_nat n)) as [Heq|Hne].
        + split; [lia|]. split.
          * intros p Hp Hp'. destruct (decide (p = np)) as [->|]; [lia|].
            specialize (Hlt p ltac:(lia) Hp'). lia.
          * intros p Hp. specialize (Hsorted np p ltac:(lia) ltac:(lia)). lia.
        + split; [lia|]. split.
          * intros p Hp Hp'. specialize (Hlt p Hp Hp'). lia.
          * intros p Hp. pose proof (Hge np ltac:(lia)).
            destruct (decide (p = np)) as [->|]; [lia|].
            specialize (Hsorted np p ltac:(lia) ltac:(lia)). lia.
      - split; [lia|]. split; [|intros p Hp; lia].
        intros p Hp Hp'. specialize (Hlt p Hp Hp'). lia. }
    destruct (vertex_on_boundary cx cy shape (Z.of_nat n)) eqn:Hb.
    + rewrite vertex_step_boundary by done. cbn [fst snd bad_flag].
      split; [done|]. split; [done|]. exact Hnp'.
    + rewrite vertex_step_kept by done. cbn [fst snd bad_flag segCount].
      split; [done|]. split; [|exact Hnp'].
      intros _ _. destruct Hwf' as [Hc _]. destruct (fst (fst _)); lia.
Qed.

(** ** When a segment starts *)

Lemma pending_store (disk : gmap (Z * Z) (list Z)) (sx sy : list Z) (n x y t : Z)
    (bad : bool) :
  0 <= n <= Z.of_nat (length sx) -> n <= Z.of_nat (length sy) ->
  pending (Acc disk (n + 1) (realloc_store sx n x) (realloc_store sy n y) bad t)
    = zip (take (Z.to_nat n) sx) (take (Z.to_nat n) sy) ++ [(x, y)].
Proof.
  intros Hx Hy. unfold pending, realloc_store. cbn [segCount seg_x seg_y].
  rewrite (take_ge (_ ++ [x])), (take_ge (_ ++ [y]))
    by (rewrite length_app, length_take; simpl; lia).
  rewrite zip_with_app by (rewrite !length_take; lia). done.
Qed.

Lemma vertex_step_kept_pending (fname : Z * Z) (cx cy : float * float)
    (shape : SHPObject) (st : acc_state) (numParts j : Z) :
  acc_wf st -> vertex_on_boundary cx cy shape j = false ->
  let start := fst (fst (start_flags shape j numParts (bad_flag st))) in
  let st' := fst (vertex_step fname cx cy shape (st, numParts) j) in
  segCount st' = (if start then 1 else segCount st + 1)
  /\ pending st' = (if start then [] else pending st) ++ [stored_point shape j]
  /\ spools st' = (if start then close_segment fname st else spools st).
Proof.
  intros [Hx Hy] Hb start st'. subst st'. rewrite vertex_step_kept by done.
  cbn zeta. fold start. cbn [fst segCount spools].
  split; [by destruct start|]. split; [|done].
  rewrite pending_store by (destruct start; lia).
  destruct (stored_point shape j) as [x y]. by destruct start.
Qed.

(** C9, as amended: in a shape whose part starts are in increasing order,
    the flag [start_segment] is set at vertex [j] exactly when [j] is the
    first vertex and the shape has a part, or the vertex before (the last
    one examined, for the first vertex) was on the boundary, or [j] is the
    start of a part after part 0.  A kept vertex then becomes the first
    vertex of a new segment; otherwise it is added to the segment in
    progress, and in a shape that has a part that segment has a vertex
    already. *)
Theorem segment_start_iff (fname : Z * Z) (cx cy : float * float) (shape : SHPObject)
    (st : acc_state) (j : Z) :
  parts_sorted shape -> acc_wf st -> 0 <= j < nVertices shape ->
  let s := before_vertex fname cx cy shape st j in
  let s' := before_vertex fname cx cy shape st (j + 1) in
  let start := fst (fst (start_flags shape j (snd s) (bad_flag (fst s)))) in
  (start = true <->
     (j = 0 /\ 0 < nParts shape)
     \/ (j = 0 /\ bad_flag st = true)
     \/ (1 <= j /\ vertex_on_boundary cx cy shape (j - 1) = true)
     \/ (exists p, 1 <= p < nParts shape /\ idx (panPartStart shape) p = j))
  /\ (vertex_on_boundary cx cy shape j = false ->
        pending (fst s') = (if start then [] else pending (fst s)) ++ [stored_point shape j]
        /\ segCount (fst s') = (if start then 1 else segCount (fst s) + 1)
        /\ (0 < nParts shape -> (segCount (fst s') = 1 <-> start = true))).
Proof.
  intros Hsorted Hwf Hj s s' start.
  destruct (vertex_loop_inv fname cx cy shape st (Z.to_nat j) Hsorted Hwf)
    as (Hwf' & Hbad & Hseg & Hnp & Hlt & Hge).
  rewrite Z2Nat.id in * by lia. fold s in Hwf', Hbad, Hseg, Hnp, Hlt, Hge.
  assert (Hstart : start = true <->
     (j = 0 /\ 0 < nParts shape)
     \/ (j = 0 /\ bad_flag st = true)
     \/ (1 <= j /\ vertex_on_boundary cx cy shape (j - 1) = true)
     \/ (exists p, 1 <= p < nParts shape /\ idx (panPartStart shape) p = j)).
  { subst start. rewrite start_flags_eq. cbn [fst]. rewrite Hbad.
    rewrite !orb_true_iff, !andb_true_iff, Z.eqb_eq, Z.gtb_ltb, !Z.ltb_lt, Z.eqb_eq.
    destruct (Z.eqb_spec j 0) as [->|Hj0].
    - split.
      + intros [[[_ ?]|?]|[? ?]]; [by left|by right; left|].
        do 3 right. exists (snd s). lia.
      + intros [[_ ?]|[[_ ?]|[[? _]|(p & Hp & Hpj)]]]; [by left; left|by left; right|lia|].
        right. assert (p = snd s) as ->; [|lia].
        destruct (Z.lt_trichotomy p (snd s)) as [Hlt'|[->|Hgt]]; [|done|].
        * specialize (Hlt p ltac:(lia) ltac:(lia)). lia.
        * pose proof (Hge (snd s) ltac:(lia)).
          pose proof (proj2 Hsorted (snd s) p ltac:(lia) ltac:(lia)). lia.
    - split.
      + intros [[[? _]|?]|[? ?]]; [lia|right; right; left; split; [lia|done]|].
        do 3 right. exists (snd s). lia.
      + intros [[? _]|[[? _]|[[_ ?]|(p & Hp & Hpj)]]]; [lia|lia|by left; right|].
        right. assert (p = snd s) as ->; [|lia].
        destruct (Z.lt_trichotomy p (snd s)) as [Hlt'|[->|Hgt]]; [|done|].
        * specialize (Hlt p ltac:(lia) ltac:(lia)). lia.
        * pose proof (Hge (snd s) ltac:(lia)).
          pose proof (proj2 Hsorted (snd s) p ltac:(lia) ltac:(lia)). lia. }
  split; [exact Hstart|]. intros Hkept.
  subst s'. rewrite before_vertex_succ by lia. fold s.
  destruct s as [stj np] eqn:Es. cbn [fst snd] in *.
  destruct (vertex_step_kept_pending fname cx cy shape stj np j Hwf' Hkept)
    as (Hcount & Hpend & _).
  fold start in Hcount, Hpend.
  split; [done|]. split; [done|]. intros Hparts. rewrite Hcount.
  destruct start eqn:Est; [done|]. split; [|done]. intros H1.
  assert (1 <= j).
  { destruct (decide (j = 0)) as [->|]; [|lia].
    assert (false = true); [|done]. apply Hstart. left. lia. }
  assert (vertex_on_boundary cx cy shape (j - 1) = false) as Hprev.
  { destruct (vertex_on_boundary cx cy shape (j - 1)) eqn:Hp; [|done].
    assert (false = true); [|done]. apply Hstart. right; right; left. done. }
  specialize (Hseg ltac:(lia) Hprev). lia.
Qed.

Lemma segment_start_iff_witness :
  let fname := (180, 0) in
  let shape := ex_ring in
  let st := ex_state in
  let j := 1 in
  let s := before_vertex fname ex_cornerx ex_cornery shape st j in
  let s' := before_vertex fname ex_cornerx ex_cornery shape st (j + 1) in
  let start := fst (fst (start_flags shape j (snd s) (bad_flag (fst s)))) in
  (start = true <->
     (j = 0 /\ 0 < nParts shape)
     \/ (j = 0 /\ bad_flag st = true)
     \/ (1 <= j /\ vertex_on_boundary ex_cornerx ex_cornery shape (j - 1) = true)
     \/ (exists p, 1 <= p < nParts shape /\ idx (panPartStart shape) p = j))
  /\ (vertex_on_boundary ex_cornerx ex_cornery shape j = false ->
        pending (fst s') = (if start then [] else pending (fst s)) ++ [stored_point shape j]
        /\ segCount (fst s') = (if start then 1 else segCount (fst s) + 1)
        /\ (0 < nParts shape -> (segCount (fst s') = 1 <-> start = true))).
Proof.
  apply (segment_start_iff (180, 0) ex_cornerx ex_cornery ex_ring ex_state 1).
  - split; simpl; intros; lia.
  - unfold acc_wf. simpl. lia.
  - simpl. lia.
Defined.

(** C9 as stated fails: the first vertex of a shape that has no part does
    not start a new segment.  The shape [ex_no_part] follows the ring
    [ex_ring] in a file; [start_segment] is not set at its first vertex and
    the one segment spooled for the file runs through the vertices of both
    shapes. *)
Lemma shape_without_parts_joins_segment :
  let s := before_vertex (180, 0) ex_cornerx ex_cornery ex_no_part
             (read_shape (180, 0) ex_cornerx ex_cornery ex_state ex_ring) 0 in
  fst (fst (start_flags ex_no_part 0 (snd s) (bad_flag (fst s)))) = false
  /\ vertex_on_boundary ex_cornerx ex_cornery ex_no_part 0 = false
  /\ spools (read_shapes (180, 0) ex_cornerx ex_cornery [ex_ring; ex_no_part] ex_state)
       !! (180, 0)
     = Some (spooled [stored_point ex_ring 0; stored_point ex_ring 1;
                      stored_point ex_ring 2;
                      stored_point ex_no_part 0; stored_point ex_no_part 1]).
Proof. vm_compute. done. Qed.

(** ** What the accumulator writes to a spool *)

Lemma segment_words_spec (n k : nat) (sx sy : list Z) :
  (k + n <= length sx)%nat -> (k + n <= length sy)%nat ->
  segment_words n (Z.of_nat k) sx sy
    = vertex_words (zip (take n (drop k sx)) (take n (drop k sy))).
Proof.
  revert k. induction n as [|n IH]; intros k Hx Hy; [done|].
  destruct (lookup_lt_is_Some_2 sx k ltac:(lia)) as [x Ex].
  destruct (lookup_lt_is_Some_2 sy k ltac:(lia)) as [y Ey].
  rewrite (drop_S sx x k Ex), (drop_S sy y k Ey).
  cbn [segment_words take zip_with vertex_words flat_map fst snd app].
  rewrite (idx_map_lookup sx k x Ex), (idx_map_lookup sy k y Ey).
  replace (Z.of_nat k + 1) with (Z.of_nat (S k)) by lia.
  rewrite IH by lia. done.
Qed.

Lemma length_pending (st : acc_state) :
  acc_wf st -> Z.of_nat (length (pending st)) = segCount st.
Proof.
  intros [Hx Hy]. unfold pending. rewrite length_zip_with, !length_take. lia.
Qed.

Lemma close_segment_lookup (fname : Z * Z) (st : acc_state) (w : list Z) :
  acc_wf st -> spools st !! fname = Some w ->
  close_segment fname st !! fname
    = Some (w ++ if segCount st >? 1 then spooled (pending st) else []).
Proof.
  intros Hwf Hw. unfold close_segment.
  destruct (Z.gtb_spec (segCount st) 1) as [Hgt|Hle].
  - rewrite lookup_alter_eq, Hw. cbn [fmap option_fmap option_map].
    unfold spooled. rewrite length_pending by done.
    destruct Hwf as [Hx Hy].
    rewrite (segment_words_spec _ 0) by lia. done.
  - by rewrite Hw, app_nil_r.
Qed.

Lemma close_segment_lookup_ne (fname c : Z * Z) (st : acc_state) :
  c <> fname -> close_segment fname st !! c = spools st !! c.
Proof.
  intros Hne. unfold close_segment.
  destruct (segCount st >? 1); [|done]. by rewrite lookup_alter_ne.
Qed.

Section spool.
Context (fname : Z * Z) (cx cy : float * float) (P : Z * Z -> Prop).

Lemma close_segment_inv (w0 : list Z) (st : acc_state) :
  spool_inv fname P w0 st ->
  exists segs,
    close_segment fname st !! fname = Some (w0 ++ flat_map spooled segs)
    /\ Forall (fun V => (2 <= length V)%nat /\ Forall P V) segs.
Proof.
  intros (Hwf & Hpend & segs & Hsp & Hsegs).
  rewrite (close_segment_lookup _ _ _ Hwf Hsp).
  destruct (Z.gtb_spec (segCount st) 1) as [Hgt|Hle].
  - exists (segs ++ [pending st]). split.
    + rewrite flat_map_app. cbn [flat_map]. by rewrite app_nil_r, (assoc_L (++)).
    + apply Forall_app. split; [done|]. constructor; [|done].
      split; [|done]. pose proof (length_pending st Hwf). lia.
  - exists segs. by rewrite app_nil_r.
Qed.

Lemma vertex_step_inv (shape : SHPObject) (w0 : list Z) (st : acc_state)
    (numParts j : Z) :
  spool_inv fname P w0 st ->
  (vertex_on_boundary cx cy shape j = false -> P (stored_point shape j)) ->
  spool_inv fname P w0 (fst (vertex_step fname cx cy shape (st, numParts) j)).
Proof.
  intros Hinv HP. pose proof Hinv as (Hwf & Hpend & segs & Hsp & Hsegs).
  destruct (vertex_on_boundary cx cy shape j) eqn:Hb.
  - rewrite vertex_step_boundary by done. cbn [fst].
    split; [done|]. split; [done|]. by exists segs.
  - split; [by apply vertex_step_wf|].
    destruct (vertex_step_kept_pending fname cx cy shape st numParts j Hwf Hb)
      as (_ & -> & ->).
    destruct (fst (fst (start_flags _ _ _ _))).
    + split; [by repeat constructor; auto|]. by apply close_segment_inv.
    + split; [apply Forall_app; split; [done|]; by repeat constructor; auto|].
      by exists segs.
Qed.

Lemma before_vertex_inv (shape : SHPObject) (w0 : list Z) (st : acc_state) (n : nat) :
  spool_inv fname P w0 st ->
  (forall j, 0 <= j < Z.of_nat n -> vertex_on_boundary cx cy shape j = false ->
     P (stored_point shape j)) ->
  spool_inv fname P w0 (fst (before_vertex fname cx cy shape st (Z.of_nat n))).
Proof.
  intros Hinv. induction n as [|n IH]; intros HP; [done|].
  replace (Z.of_nat (S n)) with (Z.of_nat n + 1) by lia.
  rewrite before_vertex_succ by lia.
  destruct (before_vertex fname cx cy shape st (Z.of_nat n)) as [stj np] eqn:Es.
  apply vertex_step_inv.
  - apply IH. intros j Hj. apply HP. lia.
  - apply HP. lia.
Qed.

Lemma read_shape_inv (shape : SHPObject) (w0 : list Z) (st : acc_state) :
  spool_inv fname P w0 st ->
  (forall j, 0 <= j < nVertices shape -> vertex_on_boundary cx cy shape j = false ->
     P (stored_point shape j)) ->
  spool_inv fname P w0 (read_shape fname cx cy st shape).
Proof.
  intros Hinv HP. rewrite read_shape_before_vertex. cbn zeta.
  destruct (Z.geb_spec (nVertices shape) 2) as [Hge|Hlt]; [|exact Hinv].
  rewrite <- (Z2Nat.id (nVertices shape)) by lia.
  apply before_vertex_inv; [exact Hinv|].
  intros j Hj. apply HP. lia.
Qed.

Lemma read_shapes_inv (shapes : list SHPObject) (w0 : list Z) (st : acc_state) :
  spool_inv fname P w0 st ->
  (forall shape j, shape ∈ shapes -> 0 <= j < nVertices shape ->
     vertex_on_boundary cx cy shape j = false -> P (stored_point shape j)) ->
  spool_inv fname P w0 (foldl (read_shape fname cx cy) st shapes).
Proof.
  revert st. induction shapes as [|shape shapes IH]; intros st Hinv HP; [done|].
  cbn [foldl]. apply IH.
  - apply read_shape_inv; [done|]. intros j. apply HP. left.
  - intros shape' j Hin. apply HP. by right.
Qed.
End spool.

(** The other spools are left alone. *)
Lemma vertex_step_frame (fname c : Z * Z) (cx cy : float * float) (shape : SHPObject)
    (s : acc_state * Z) (j : Z) :
  c <> fname ->
  spools (fst (vertex_step fname cx cy shape s j)) !! c = spools (fst s) !! c.
Proof.
  intros Hne. destruct s as [st np].
  destruct (vertex_on_boundary cx cy shape j) eqn:Hb.
  - by rewrite vertex_step_boundary.
  - rewrite vertex_step_kept by done. cbn zeta. cbn [fst spools].
    destruct (fst (fst _)); [|done]. by apply close_segment_lookup_ne.
Qed.

Lemma read_shape_frame (fname c : Z * Z) (cx cy : float * float) (shape : SHPObject)
    (st : acc_state) :
  c <> fname -> spools (read_shape fname cx cy st shape) !! c = spools st !! c.
Proof.
  intros Hne. unfold read_shape. destruct (nVertices shape >=? 2); [|done].
  generalize (seqZ 0 (nVertices shape)). intros l.
  change (spools st !! c)
    with (spools (fst (Acc (spools st) (segCount st) (seg_x st) (seg_y st)
                         (bad_flag st) (add32 (total st) (nVertices shape)), 1)) !! c).
  generalize (Acc (spools st) (segCount st) (seg_x st) (seg_y st) (bad_flag st)
                (add32 (total st) (nVertices shape)), 1).
  induction l as [|j l IH]; intros s; [done|].
  cbn [foldl]. rewrite IH. by apply vertex_step_frame.
Qed.

Lemma read_shapes_frame (fname c : Z * Z) (cx cy : float * float)
    (shapes : list SHPObject) (st : acc_state) :
  c <> fname -> spools (read_shapes fname cx cy shapes st) !! c = spools st !! c.
Proof.
  intros Hne. unfold read_shapes.
  assert (forall st0, spools (foldl (read_shape fname cx cy) st0 shapes) !! c
                        = spools st0 !! c) as Hfold.
  { induction shapes as [|shape shapes IH]; intros st0; [done|].
    cbn [foldl]. rewrite IH. by apply read_shape_frame. }
  destruct (segCount _ >? 1); cbn [spools].
  - rewrite close_segment_lookup_ne by done. by rewrite Hfold.
  - by rewrite Hfold.
Qed.

(** The spool of a shape file after its shapes were read: what it held,
    then whole segments of two vertices or more, each vertex the stored
    point of a vertex off the boundary. *)
Lemma read_shapes_spool (fname : Z * Z) (cx cy : float * float)
    (shapes : list SHPObject) (st : acc_state) (w0 : list Z) :
  acc_wf st -> segCount st = 0 -> spools st !! fname = Some w0 ->
  exists segs,
    spools (read_shapes fname cx cy shapes st) !! fname
      = Some (w0 ++ flat_map spooled segs)
    /\ Forall (fun V => (2 <= length V)%nat /\ Forall (kept_point cx cy shapes) V) segs.
Proof.
  intros Hwf H0 Hsp. unfold read_shapes.
  set (st0 := Acc (spools st) (segCount st) (seg_x st) (seg_y st) false (total st)).
  assert (spool_inv fname (kept_point cx cy shapes) w0 st0) as Hinv.
  { split; [done|]. split.
    - unfold pending, st0. cbn [segCount]. rewrite H0. constructor.
    - exists []. by rewrite app_nil_r. }
  apply (read_shapes_inv fname cx cy _ shapes) in Hinv.
  - destruct (Z.gtb_spec (segCount (foldl (read_shape fname cx cy) st0 shapes)) 1)
      as [Hgt|Hle].
    + cbn [spools]. by apply close_segment_inv.
    + destruct Hinv as (_ & _ & segs & Hs & Hsegs). by exists segs.
  - intros shape j Hin Hj Hb. by exists shape, j.
Qed.

(** ** Vertices on the boundary of the cell *)

Lemma before_vertex_wf (fname : Z * Z) (cx cy : float * float) (shape : SHPObject)
    (st : acc_state) (j : Z) :
  acc_wf st -> 0 <= j -> acc_wf (fst (before_vertex fname cx cy shape st j)).
Proof.
  intros Hwf Hj. rewrite <- (Z2Nat.id j) by done.
  induction (Z.to_nat j) as [|n IH]; [done|].
  replace (Z.of_nat (S n)) with (Z.of_nat n + 1) by lia.
  rewrite before_vertex_succ by lia.
  destruct (before_vertex fname cx cy shape st (Z.of_nat n)) as [stj np].
  by apply vertex_step_wf.
Qed.

(** C6: a vertex that the boundary test rejects is not stored: the spools,
    [segCount] and the vertices in progress are as before it, and
    [bad_flag] is set; so at the following vertex of the shape the flag
    [start_segment] is set, and that vertex, when it is kept, is the first
    of a new segment.  Every vertex of every segment written to the spool
    of a shape file is the stored point of a vertex that the test did not
    reject. *)
Theorem boundary_vertex_filtered (fname : Z * Z) (cx cy : float * float) :
  (forall (shape : SHPObject) (st : acc_state) (j : Z),
     acc_wf st -> 0 <= j < nVertices shape ->
     vertex_on_boundary cx cy shape j = true ->
     let s := before_vertex fname cx cy shape st j in
     let s' := before_vertex fname cx cy shape st (j + 1) in
     (spools (fst s') = spools (fst s) /\ segCount (fst s') = segCount (fst s)
      /\ seg_x (fst s') = seg_x (fst s) /\ seg_y (fst s') = seg_y (fst s)
      /\ pending (fst s') = pending (fst s))
     /\ bad_flag (fst s') = true
     /\ (j + 1 < nVertices shape ->
           fst (fst (start_flags shape (j + 1) (snd s') (bad_flag (fst s')))) = true
           /\ (vertex_on_boundary cx cy shape (j + 1) = false ->
                 pending (fst (before_vertex fname cx cy shape st (j + 1 + 1)))
                   = [stored_point shape (j + 1)])))
  /\ (forall (shapes : list SHPObject) (st : acc_state) (w0 : list Z),
        acc_wf st -> segCount st = 0 -> spools st !! fname = Some w0 ->
        exists segs,
          spools (read_shapes fname cx cy shapes st) !! fname
            = Some (w0 ++ flat_map spooled segs)
          /\ Forall (Forall (kept_point cx cy shapes)) segs).
Proof.
  split.
  - intros shape st j Hwf Hj Hb s s'.
    pose proof (before_vertex_wf fname cx cy shape st j Hwf ltac:(lia)) as Hwfs.
    pose proof (before_vertex_wf fname cx cy shape st (j + 1) Hwf ltac:(lia)) as Hwfs'.
    fold s in Hwfs. fold s' in Hwfs'.
    assert (s' = (Acc (spools (fst s)) (segCount (fst s)) (seg_x (fst s))
                    (seg_y (fst s)) true (total (fst s)),
                  snd (start_flags shape j (snd s) (bad_flag (fst s))))) as Es'.
    { subst s'. rewrite before_vertex_succ by lia. fold s.
      destruct s as [stj np]. by rewrite vertex_step_boundary. }
    split; [by rewrite Es'|]. split; [by rewrite Es'|].
    intros Hnext.
    assert (fst (fst (start_flags shape (j + 1) (snd s') (bad_flag (fst s')))) = true)
      as Hstart.
    { rewrite start_flags_eq. cbn [fst]. rewrite Es'. cbn [fst bad_flag].
      by rewrite orb_true_r. }
    split; [done|]. intros Hkept.
    rewrite before_vertex_succ by lia. fold s'.
    destruct s' as [st' np'] eqn:E'. cbn [fst snd] in *.
    destruct (vertex_step_kept_pending fname cx cy shape st' np' (j + 1) Hwfs' Hkept)
      as (_ & Hpend & _).
    by rewrite Hstart in Hpend.
  - intros shapes st w0 Hwf H0 Hsp.
    destruct (read_shapes_spool fname cx cy shapes st w0 Hwf H0 Hsp)
      as (segs & Hs & Hsegs).
    exists segs. split; [done|].
    eapply Forall_impl; [exact Hsegs|]. by intros V [_ HV].
Qed.

Lemma boundary_vertex_filtered_witness :
  (let shape := ex_edge in
   let st := ex_state in
   let j := 1 in
   let s := before_vertex (180, 0) ex_cornerx ex_cornery shape st j in
   let s' := before_vertex (180, 0) ex_cornerx ex_cornery shape st (j + 1) in
   (spools (fst s') = spools (fst s) /\ segCount (fst s') = segCount (fst s)
    /\ seg_x (fst s') = seg_x (fst s) /\ seg_y (fst s') = seg_y (fst s)
    /\ pending (fst s') = pending (fst s))
   /\ bad_flag (fst s') = true
   /\ (j + 1 < nVertices shape ->
         fst (fst (start_flags shape (j + 1) (snd s') (bad_flag (fst s')))) = true
         /\ (vertex_on_boundary ex_cornerx ex_cornery shape (j + 1) = false ->
               pending (fst (before_vertex (180, 0) ex_cornerx ex_cornery shape st
                               (j + 1 + 1)))
                 = [stored_point shape (j + 1)])))
  /\ (exists segs,
        spools (read_shapes (180, 0) ex_cornerx ex_cornery [ex_edge] ex_state) !! (180, 0)
          = Some ([] ++ flat_map spooled segs)
        /\ Forall (Forall (kept_point ex_cornerx ex_cornery [ex_edge])) segs).
Proof.
  split.
  - apply (proj1 (boundary_vertex_filtered (180, 0) ex_cornerx ex_cornery)
             ex_edge ex_state 1).
    + unfold acc_wf. simpl. lia.
    + simpl. lia.
    + vm_compute. reflexivity.
  - apply (proj2 (boundary_vertex_filtered (180, 0) ex_cornerx ex_cornery)
             [ex_edge] ex_state []).
    + unfold acc_wf. simpl. lia.
    + reflexivity.
    + vm_compute. reflexivity.
Defined.

(** The ring [ex_edge]: its second vertex is on the southern edge, so the
    first vertex is alone and dropped, and the third and fourth vertices
    are the one segment spooled. *)
Example boundary_vertex_example :
  vertex_on_boundary ex_cornerx ex_cornery ex_edge 1 = true
  /\ spools (read_shapes (180, 0) ex_cornerx ex_cornery [ex_edge] ex_state) !! (180, 0)
     = Some (spooled [stored_point ex_edge 2; stored_point ex_edge 3]).
Proof. vm_compute. done. Qed.

(** ** The directory of the output file *)

Lemma pack_header_fields (head_buf : list Z) (a s v : Z) :
  pack_header head_buf a s v
    = fst (pack_fields [(32, a); (32, s); (32, v)] head_buf 0).
Proof. unfold pack_header, pack_fields. cbn [foldl fst snd]. reflexivity. Qed.

Lemma length_pack_header (head_buf : list Z) (a s v : Z) :
  length (pack_header head_buf a s v) = length head_buf.
Proof. by rewrite pack_header_fields, length_pack_fields. Qed.

(** The three fields of a directory entry read back from [head_buf]. *)
Lemma unpack_pack_header (head_buf : list Z) (a s v : Z) :
  length head_buf = 12%nat ->
  let h := pack_header head_buf a s v in
  (bit_unpack h 0 32, bit_unpack h 32 32, bit_unpack h 64 32)
    = (a mod 2 ^ 32, s mod 2 ^ 32, v mod 2 ^ 32).
Proof.
  intros Hlen h. subst h. rewrite pack_header_fields.
  assert (Hw : Forall (fun f : Z * Z => 0 <= fst f) [(32, a); (32, s); (32, v)])
    by (repeat constructor; simpl; lia).
  pose proof (bit_unpack_pack_fields _ head_buf 0 0 32 a Hw ltac:(lia)
                ltac:(rewrite Hlen; simpl; lia) eq_refl) as H0.
  pose proof (bit_unpack_pack_fields _ head_buf 0 1 32 s Hw ltac:(lia)
                ltac:(rewrite Hlen; simpl; lia) eq_refl) as H1.
  pose proof (bit_unpack_pack_fields _ head_buf 0 2 32 v Hw ltac:(lia)
                ltac:(rewrite Hlen; simpl; lia) eq_refl) as H2.
  cbn [take total_bits foldr fst] in H0, H1, H2.
  change (0 + 0) with 0 in H0. change (0 + (32 + 0)) with 32 in H1.
  change (0 + (32 + (32 + 0))) with 64 in H2.
  by rewrite H0, H1, H2.
Qed.

Lemma read_header_take (file : list Z) (offset : Z) (h : list Z) :
  take 12 (drop (Z.to_nat offset) file) = h ->
  read_header file offset = (bit_unpack h 0 32, bit_unpack h 32 32, bit_unpack h 64 32).
Proof. intros <-. done. Qed.

(** [fwrite] inside the file and at its end. *)
Lemma fwrite_inside (buf : list Z) (f : stream) :
  0 <= cursor f ->
  (Z.to_nat (cursor f) + length buf <= length (bytes f))%nat ->
  bytes (fwrite buf f)
    = take (Z.to_nat (cursor f)) (bytes f) ++ buf
      ++ drop (Z.to_nat (cursor f) + length buf) (bytes f).
Proof.
  intros Hc Hin. unfold fwrite. cbn [bytes].
  replace (Z.to_nat (cursor f) - length (bytes f))%nat with 0%nat by lia. done.
Qed.

Lemma fwrite_at_end (buf : list Z) (f : stream) :
  cursor f = Z.of_nat (length (bytes f)) ->
  fwrite buf f = Stream (bytes f ++ buf) (Z.of_nat (length (bytes f ++ buf))).
Proof.
  intros Hc. unfold fwrite. rewrite Hc, Nat2Z.id, Nat.sub_diag.
  rewrite take_ge, drop_ge by lia. cbn [replicate app].
  rewrite app_nil_r, length_app. f_equal. lia.
Qed.

Lemma length_fwrite_inside (buf : list Z) (f : stream) :
  0 <= cursor f ->
  (Z.to_nat (cursor f) + length buf <= length (bytes f))%nat ->
  length (bytes (fwrite buf f)) = length (bytes f).
Proof.
  intros Hc Hin. rewrite fwrite_inside by done.
  rewrite !length_app, length_take, length_drop. lia.
Qed.

(** Twelve bytes read at [q] from a file in which twelve bytes were written
    at [p]: the bytes written when [q = p], the old bytes when the two
    ranges do not meet. *)
Lemma take_drop_patch_eq (file buf : list Z) (p : nat) :
  length buf = 12%nat -> (p + 12 <= length file)%nat ->
  take 12 (drop p (take p file ++ buf ++ drop (p + 12) file)) = buf.
Proof.
  intros Hb Hp. rewrite drop_app_length' by (rewrite length_take; lia).
  rewrite take_app_length' by done. done.
Qed.

Lemma take_drop_patch_ne (file buf : list Z) (p q : nat) :
  length buf = 12%nat -> (p + 12 <= length file)%nat ->
  (q + 12 <= p)%nat \/ (p + 12 <= q)%nat ->
  take 12 (drop q (take p file ++ buf ++ drop (p + 12) file)) = take 12 (drop q file).
Proof.
  intros Hb Hp Hq. apply list_eq. intros i.
  destruct (decide (i < 12)%nat) as [Hi|Hi];
    [|by rewrite !lookup_take_ge by lia].
  rewrite !lookup_take_lt, !lookup_drop by done.
  destruct Hq as [Hq|Hq].
  - rewrite lookup_app_l by (rewrite length_take; lia).
    by rewrite lookup_take_lt by lia.
  - rewrite lookup_app_r by (rewrite length_take; lia).
    rewrite lookup_app_r by (rewrite length_take; lia).
    rewrite lookup_drop, length_take. f_equal. lia.
Qed.

Lemma take_drop_app_l (file extra : list Z) (q : nat) :
  (q + 12 <= length file)%nat ->
  take 12 (drop q (file ++ extra)) = take 12 (drop q file).
Proof.
  intros Hq. rewrite drop_app_le by lia.
  rewrite take_app_le by (rewrite length_drop; lia). done.
Qed.

(** ** The codec pass over one cell *)

Lemma pack_segment_rest (V : list (Z * Z)) (rest buffer fp' : list Z) :
  pack_segment (Z.of_nat (length V)) (vertex_words V ++ rest) = Ok (buffer, fp') ->
  fp' = rest.
Proof.
  unfold pack_segment. rewrite Nat2Z.id.
  rewrite (read_vertices_spec V [] [] rest _ _ 0) by done.
  cbn [mbind result_bind].
  destruct (segment_layout _ _ _) as [l|]; [|done]. by intros [= _ <-].
Qed.

Lemma length_vertex_words (V : list (Z * Z)) :
  length (vertex_words V) = (2 * length V)%nat.
Proof.
  induction V as [|v V IH]; [done|].
  change (vertex_words (v :: V)) with (fst v :: snd v :: vertex_words V).
  cbn [length]. rewrite IH. lia.
Qed.

Lemma cell_loop_nil (fuel : nat) (ofp : stream) (ns nv t : Z) :
  cell_loop fuel [] ofp ns nv t = Ok (ofp, ns, nv, t).
Proof. by destruct fuel. Qed.

Lemma read_vertices_shorter (n : nat) (k : Z) (fp segx segy : list Z) (dx dy : Z * Z)
    (segx' segy' : list Z) (dx' dy' : Z * Z) (fp' : list Z) :
  read_vertices n k fp segx segy dx dy = Ok (segx', segy', dx', dy', fp') ->
  (length fp' <= length fp)%nat.
Proof.
  revert k fp segx segy dx dy.
  induction n as [|n IH]; intros k fp segx segy dx dy; cbn [read_vertices].
  - intros [= _ _ _ _ <-]. done.
  - destruct fp as [|x [|y fp]]; [done|done|].
    intros Hr. apply IH in Hr. cbn [length]. lia.
Qed.

Lemma pack_segment_shorter (segCount : Z) (fp buffer fp' : list Z) :
  pack_segment segCount fp = Ok (buffer, fp') -> (length fp' <= length fp)%nat.
Proof.
  unfold pack_segment.
  destruct (read_vertices _ _ _ _ _ _ _) as [[[[[segx segy] dx] dy] rest]|e] eqn:Hr;
    [|done].
  cbn [mbind result_bind].
  destruct (segment_layout _ _ _) as [l|e]; [|done].
  cbn [mbind result_bind]. intros [= _ <-].
  by apply read_vertices_shorter in Hr.
Qed.

(** The loop does not depend on its fuel once there is one unit of it for
    every word of the spool: the loop of the source ends at the end of the
    file. *)
Lemma cell_loop_fuel (fuel fuel' : nat) (fp : list Z) (ofp : stream) (ns nv t : Z) :
  (length fp <= fuel)%nat -> (length fp <= fuel')%nat ->
  cell_loop fuel fp ofp ns nv t = cell_loop fuel' fp ofp ns nv t.
Proof.
  revert fuel' fp ofp ns nv t.
  induction fuel as [|fuel IH]; intros fuel' fp ofp ns nv t Hf Hf'.
  - destruct fp; [|cbn in Hf; lia]. by rewrite !cell_loop_nil.
  - destruct fp as [|segCount fp]; [by rewrite !cell_loop_nil|].
    destruct fuel' as [|fuel']; [cbn in Hf'; lia|].
    cbn [length] in Hf, Hf'. cbn [cell_loop].
    destruct (segCount >? 1).
    + destruct (pack_segment segCount fp) as [[buffer rest]|e] eqn:Hp; [|done].
      cbn [mbind result_bind]. apply pack_segment_shorter in Hp.
      apply IH; lia.
    + apply IH; lia.
Qed.

(** The cell loop over a spool of whole segments: when it returns, it has
    counted every segment and every vertex and has appended to the file. *)
Lemma cell_loop_spec (segs : list (list (Z * Z))) (fuel : nat) (ofp ofp' : stream)
    (ns nv t ns' nv' t' : Z) :
  Forall (fun V => (2 <= length V)%nat) segs ->
  (length (flat_map spooled segs) <= fuel)%nat ->
  cursor ofp = Z.of_nat (length (bytes ofp)) ->
  cell_loop fuel (flat_map spooled segs) ofp ns nv t = Ok (ofp', ns', nv', t') ->
  ns' = ns + Z.of_nat (length segs)
  /\ (0 <= nv -> nv + total_vertices segs < 2 ^ 31 -> nv' = nv + total_vertices segs)
  /\ cursor ofp' = Z.of_nat (length (bytes ofp'))
  /\ exists packed, bytes ofp' = bytes ofp ++ packed.
Proof.
  intros Hsegs. revert fuel ofp ns nv t.
  induction Hsegs as [|V segs HV Hsegs IH]; intros fuel ofp ns nv t Hfuel Hcur Hloop.
  - cbn [flat_map] in Hloop. rewrite cell_loop_nil in Hloop.
    injection Hloop as <- <- <- <-. cbn [length total_vertices foldr].
    split; [lia|]. split; [lia|]. split; [done|]. exists []. by rewrite app_nil_r.
  - cbn [flat_map] in Hloop, Hfuel.
    unfold spooled at 1 in Hloop. unfold spooled at 1 in Hfuel.
    rewrite length_app in Hfuel. cbn [length] in Hfuel.
    destruct fuel as [|fuel]; [lia|].
    cbn [app cell_loop] in Hloop.
    destruct (Z.gtb_spec (Z.of_nat (length V)) 1) as [_|]; [|lia].
    destruct (pack_segment _ _) as [[buffer fp']|] eqn:Hpack; [|done].
    pose proof (pack_segment_rest _ _ _ _ Hpack) as ->.
    cbn [mbind result_bind] in Hloop.
    apply IH in Hloop as (Hns & Hnv & Hcur' & packed & Hbytes).
    + split; [cbn [length]; lia|]. split; [|split; [done|]].
      * intros H0 Hsum. cbn [total_vertices foldr] in Hsum |- *.
        fold (total_vertices segs) in Hsum |- *.
        assert (0 <= total_vertices segs).
        { clear. induction segs as [|W segs IH]; simpl; [lia|].
          fold (total_vertices segs). lia. }
        assert (add32 nv (Z.of_nat (length V)) = nv + Z.of_nat (length V)) as Hadd.
        { unfold add32. apply wrap32_id. unfold int32. lia. }
        rewrite Hadd in Hnv. rewrite Hnv by lia. lia.
      * rewrite fwrite_at_end in Hbytes by done. cbn [bytes] in Hbytes.
        exists (buffer ++ packed). by rewrite Hbytes, (assoc_L (++)).
    + rewrite length_vertex_words in Hfuel. lia.
    + by rewrite fwrite_at_end.
Qed.

Lemma header_offset_grid (i j : Z) :
  in_grid i j ->
  128 <= header_offset i j /\ header_offset i j + 12 <= header_size.
Proof. unfold in_grid, header_offset, header_size. lia. Qed.

Lemma header_offset_apart (i j i' j' : Z) :
  in_grid i j -> in_grid i' j' -> (i', j') <> (i, j) ->
  header_offset i' j' + 12 <= header_offset i j
  \/ header_offset i j + 12 <= header_offset i' j'.
Proof.
  unfold in_grid, header_offset. intros Hg Hg' Hne.
  assert (i' * 360 + j' <> i * 360 + j).
  { intros Heq. apply Hne. f_equal; lia. }
  lia.
Qed.

Lemma codec_cell_none (i j : Z) (st : codec_state) :
  cells st !! (j, i) = None -> codec_cell i j st = Ok st.
Proof. intros Hn. unfold codec_cell, codec_cell_fs. by rewrite Hn. Qed.

(** What the codec pass does for a cell whose spool exists and holds whole
    segments. *)
Lemma codec_cell_some (i j : Z) (st st' : codec_state) (segs : list (list (Z * Z))) :
  in_grid i j -> codec_inv st ->
  cells st !! (j, i) = Some (flat_map spooled segs) ->
  Forall (fun V => (2 <= length V)%nat) segs ->
  codec_cell i j st = Ok st' ->
  codec_inv st'
  /\ cells st' = delete (j, i) (cells st)
  /\ (exists packed, length (bytes (ofp st')) = length (bytes (ofp st) ++ packed))
  /\ (exists nv,
        entry st' i j
          = (wrap32 (Z.of_nat (length (bytes (ofp st)))) mod 2 ^ 32,
             Z.of_nat (length segs) mod 2 ^ 32, nv mod 2 ^ 32)
        /\ (total_vertices segs < 2 ^ 31 -> nv = total_vertices segs))
  /\ (forall i' j', in_grid i' j' -> (i', j') <> (i, j) ->
        entry st' i' j' = entry st i' j').
Proof.
  intros Hg (Hsize & Hcur & Hhead) Hsp Hsegs Hcell.
  unfold codec_cell, codec_cell_fs in Hcell. rewrite Hsp in Hcell.
  destruct (cell_loop _ _ _ _ _ _) as [[[[ofp1 ns] nv] t]|] eqn:Hloop; [|done].
  cbn [mbind result_bind] in Hcell. injection Hcell as <-.
  apply cell_loop_spec in Hloop as (Hns & Hnv & Hcur1 & packed & Hbytes); [|done..].
  destruct (header_offset_grid i j Hg) as [Hlo Hhi]. unfold header_size in *.
  remember (pack_header (head_buf st) (wrap32 (ftell (ofp st))) ns nv) as h eqn:Eh.
  assert (length h = 12%nat) as Hh by (subst h; by rewrite length_pack_header).
  assert (length (bytes ofp1) = length (bytes (ofp st) ++ packed)) as Hlen1
    by (by rewrite Hbytes).
  rewrite length_app in Hlen1.
  assert (Hfile : bytes (fwrite h (fseek_set (header_offset i j) ofp1))
            = take (Z.to_nat (header_offset i j)) (bytes ofp1) ++ h
              ++ drop (Z.to_nat (header_offset i j) + 12) (bytes ofp1)).
  { rewrite fwrite_inside; cbn [fseek_set cursor bytes]; rewrite ?Hh; [done|lia|lia]. }
  unfold codec_inv, entry, header_size. cbn [ofp cells head_buf fseek_end bytes cursor].
  rewrite Hfile.
  split; [|split; [done|split; [|split]]].
  - rewrite !length_app, length_take, length_drop, Hh. split; [lia|]. split; [lia|done].
  - exists packed. rewrite !length_app, length_take, length_drop, Hh. lia.
  - exists nv. split.
    + erewrite read_header_take; [|apply take_drop_patch_eq; [done|lia]].
      subst h. rewrite unpack_pack_header by done.
      unfold ftell. rewrite Hcur, Hns. done.
    + intros Hsum. rewrite Hnv; lia.
  - intros i' j' Hg' Hne.
    destruct (header_offset_grid i' j' Hg') as [Hlo' Hhi'].
    pose proof (header_offset_apart i j i' j' Hg Hg' Hne) as Hapart.
    unfold read_header.
    unfold header_size in *.
    rewrite take_drop_patch_ne by (done || lia).
    rewrite Hbytes, take_drop_app_l by lia. done.
Qed.

(** ** Loops *)

Lemma for_each_app {S A : Type} (body : A -> S -> result S) (l1 l2 : list A) (s : S) :
  for_each body (l1 ++ l2) s = (s' ← for_each body l1 s; for_each body l2 s').
Proof.
  revert s. induction l1 as [|a l1 IH]; intros s; [done|].
  cbn [app for_each]. destruct (body a s) as [s1|e]; [|done]. apply IH.
Qed.

Lemma for_each_fmap {S A B : Type} (f : A -> B) (body : B -> S -> result S)
    (l : list A) (s : S) :
  for_each body (f <$> l) s = for_each (fun a => body (f a)) l s.
Proof.
  revert s. induction l as [|a l IH]; intros s; [done|].
  cbn [fmap list_fmap for_each]. destruct (body (f a) s) as [s1|e]; [|done]. apply IH.
Qed.

Lemma for_each_bind {S A B : Type} (f : A -> list B) (body : B -> S -> result S)
    (l : list A) (s : S) :
  for_each body (l ≫= f) s = for_each (fun a s => for_each body (f a) s) l s.
Proof.
  revert s. induction l as [|a l IH]; intros s; [done|].
  cbn [mbind list_bind for_each]. rewrite for_each_app.
  destruct (for_each body (f a) s) as [s1|e]; [|done]. apply IH.
Qed.

Lemma for_each_inv {S A : Type} (I : S -> Prop) (body : A -> S -> result S)
    (l : list A) (s s' : S) :
  (forall a s s', a ∈ l -> I s -> body a s = Ok s' -> I s') ->
  I s -> for_each body l s = Ok s' -> I s'.
Proof.
  revert s. induction l as [|a l IH]; intros s Hbody Hs Hrun.
  - by injection Hrun as <-.
  - cbn [for_each] in Hrun. destruct (body a s) as [s1|e] eqn:Ha; [|done].
    apply (IH s1); [|by eapply Hbody; [left|..] |done].
    intros b t t' Hb. apply Hbody. by right.
Qed.

Lemma for_each_split {S A : Type} (body : A -> S -> result S) (l : list A) (x : A)
    (s s' : S) :
  x ∈ l -> for_each body l s = Ok s' ->
  exists l1 l2 s1 s2,
    l = l1 ++ x :: l2 /\ for_each body l1 s = Ok s1 /\ body x s1 = Ok s2
    /\ for_each body l2 s2 = Ok s'.
Proof.
  intros (l1 & l2 & ->)%list_elem_of_split Hrun.
  rewrite for_each_app in Hrun.
  destruct (for_each body l1 s) as [s1|e] eqn:H1; [|done].
  cbn [mbind result_bind for_each] in Hrun.
  destruct (body x s1) as [s2|e] eqn:Hx; [|done].
  by exists l1, l2, s1, s2.
Qed.

Lemma codec_loop_fs_grid (stuck : Z * Z -> bool) (st : codec_state) :
  codec_loop_fs stuck st
    = for_each (fun c st => codec_cell_fs stuck (fst c) (snd c) st) grid st.
Proof.
  unfold codec_loop_fs, grid. rewrite for_each_bind.
  f_equal.
Qed.

Lemma codec_loop_grid (st : codec_state) :
  codec_loop st = for_each (fun c st => codec_cell (fst c) (snd c) st) grid st.
Proof. exact (codec_loop_fs_grid removes_all st). Qed.

Lemma elem_of_grid (i j : Z) : (i, j) ∈ grid <-> in_grid i j.
Proof.
  unfold grid, in_grid. rewrite list_elem_of_bind. split.
  - intros (i' & Hj & Hi). apply list_elem_of_fmap in Hj as (j' & [= -> ->] & Hj).
    apply elem_of_seqZ in Hi, Hj. lia.
  - intros [Hi Hj]. exists i. split; [|apply elem_of_seqZ; lia].
    apply list_elem_of_fmap. exists j. split; [done|]. apply elem_of_seqZ. lia.
Qed.

Lemma NoDup_grid : NoDup grid.
Proof.
  unfold grid. apply NoDup_bind; [| |apply NoDup_seqZ].
  - intros i1 i2 [i j] _ _ (j1 & [= -> ->] & _)%list_elem_of_fmap
      (j2 & [= -> _] & _)%list_elem_of_fmap. done.
  - intros i _. apply NoDup_fmap_2; [|apply NoDup_seqZ]. by intros j1 j2 [= ->].
Qed.

(** ** The placeholder directory *)

Lemma pack_header_zero :
  pack_header (replicate 12 0) 0 0 0 = replicate 12 0.
Proof. vm_compute. reflexivity. Qed.

Lemma init_header_cell_spec (v : list Z) (i j k : Z) :
  length v = 128%nat -> 0 <= k -> k = i * 360 + j ->
  init_header_cell i j
      (Stream (v ++ replicate (Z.to_nat (12 * k)) 0) (128 + 12 * k), replicate 12 0)
    = (Stream (v ++ replicate (Z.to_nat (12 * (k + 1))) 0) (128 + 12 * (k + 1)),
       replicate 12 0).
Proof.
  intros Hv Hk ->. unfold init_header_cell. cbn zeta.
  rewrite pack_header_zero. f_equal.
  rewrite fwrite_at_end.
  - cbn [fseek_set bytes]. rewrite <- (assoc_L (++)), <- replicate_add.
    f_equal; [do 2 f_equal; lia|].
    rewrite length_app, length_replicate, Hv. lia.
  - cbn [fseek_set bytes cursor]. rewrite length_app, length_replicate, Hv.
    unfold header_offset. lia.
Qed.

Lemma init_header_row (v : list Z) (i : Z) (n : nat) :
  length v = 128%nat -> 0 <= i ->
  foldl (fun f j => init_header_cell i j f)
      (Stream (v ++ replicate (Z.to_nat (12 * (i * 360))) 0) (128 + 12 * (i * 360)),
       replicate 12 0)
      (seqZ 0 (Z.of_nat n))
    = (Stream (v ++ replicate (Z.to_nat (12 * (i * 360 + Z.of_nat n))) 0)
         (128 + 12 * (i * 360 + Z.of_nat n)),
       replicate 12 0).
Proof.
  intros Hv Hi. induction n as [|n IH].
  - cbn [seqZ foldl]. by rewrite Z.add_0_r.
  - replace (Z.of_nat (S n)) with (Z.of_nat n + 1) by lia.
    rewrite seqZ_app, foldl_app, IH by lia.
    change (seqZ (0 + Z.of_nat n) 1) with [Z.of_nat n].
    cbn [foldl].
    rewrite (init_header_cell_spec v i (Z.of_nat n) (i * 360 + Z.of_nat n)) by lia.
    by replace (i * 360 + Z.of_nat n + 1) with (i * 360 + (Z.of_nat n + 1)) by lia.
Qed.

Lemma init_header_rows (v : list Z) (n : nat) :
  length v = 128%nat ->
  foldl (fun f i => foldl (fun f j => init_header_cell i j f) f (seqZ 0 360))
      (Stream v 128, replicate 12 0) (seqZ 0 (Z.of_nat n))
    = (Stream (v ++ replicate (Z.to_nat (12 * (Z.of_nat n * 360))) 0)
         (128 + 12 * (Z.of_nat n * 360)),
       replicate 12 0).
Proof.
  intros Hv. induction n as [|n IH].
  - cbn [seqZ foldl]. cbn. by rewrite app_nil_r.
  - replace (Z.of_nat (S n)) with (Z.of_nat n + 1) by lia.
    rewrite seqZ_app, foldl_app, IH by lia.
    change (seqZ (0 + Z.of_nat n) 1) with [Z.of_nat n].
    cbn [foldl].
    pose proof (init_header_row v (Z.of_nat n) 360 Hv ltac:(lia)) as Hrow.
    change (Z.of_nat 360) with 360 in Hrow. rewrite Hrow.
    by replace (Z.of_nat n * 360 + 360) with ((Z.of_nat n + 1) * 360) by lia.
Qed.

Lemma init_header_spec (v : list Z) :
  length v = 128%nat ->
  init_header (Stream v 128, replicate 12 0)
    = (Stream (v ++ replicate (Z.to_nat 777600) 0) 777728, replicate 12 0).
Proof.
  intros Hv. unfold init_header.
  pose proof (init_header_rows v 180 Hv) as Hrows.
  change (Z.of_nat 180) with 180 in Hrows.
  change (12 * (180 * 360)) with 777600 in Hrows.
  change (128 + 777600) with 777728 in Hrows. exact Hrows.
Qed.

Lemma length_version_block (FILE_VERSION : list Z) :
  length (version_block FILE_VERSION) = 128%nat.
Proof.
  unfold version_block.
  rewrite length_take, !length_app, length_replicate. cbn [length]. lia.
Qed.

(** The state of the codec pass before its first cell. *)
Lemma codec_pass_fs_start (stuck : Z * Z -> bool) (FILE_VERSION : list Z)
    (disk : gmap (Z * Z) (list Z)) :
  codec_pass_fs stuck FILE_VERSION disk
    = codec_loop_fs stuck
        (Codec (Stream (version_block FILE_VERSION ++ replicate (Z.to_nat 777600) 0) 777728)
           disk (replicate 12 0) 0).
Proof.
  unfold codec_pass_fs. cbn zeta.
  rewrite fwrite_at_end by done. cbn [bytes app].
  rewrite length_version_block. change (Z.of_nat 128) with 128.
  by rewrite (init_header_spec _ (length_version_block FILE_VERSION)).
Qed.

Lemma codec_pass_start (FILE_VERSION : list Z) (disk : gmap (Z * Z) (list Z)) :
  codec_pass FILE_VERSION disk
    = codec_loop (Codec (Stream (version_block FILE_VERSION ++ replicate (Z.to_nat 777600) 0) 777728)
                    disk (replicate 12 0) 0).
Proof. exact (codec_pass_fs_start removes_all FILE_VERSION disk). Qed.

Lemma bit_unpack_zeros (start numbits : Z) (n : nat) :
  bit_unpack (replicate n 0) start numbits = 0.
Proof.
  unfold bit_unpack. generalize (Z.to_nat numbits). intros k. revert start.
  assert (forall acc s, bit_unpack_loop (replicate n 0) s k acc = acc * 2 ^ Z.of_nat k)
    as H; [|intros s; by rewrite H].
  induction k as [|k IH]; intros acc s.
  - cbn. lia.
  - cbn [bit_unpack_loop]. rewrite IH.
    assert (get_bit (replicate n 0) s = false) as ->.
    { unfold get_bit. destruct (_ !! _) as [b|] eqn:Hb; [|done].
      apply lookup_replicate in Hb as [-> _]. apply Z.bits_0. }
    rewrite Nat2Z.inj_succ, Z.pow_succ_r by lia. cbn [Z.b2z]. lia.
Qed.

Lemma entry_start (FILE_VERSION : list Z) (disk : gmap (Z * Z) (list Z)) (i j : Z) :
  in_grid i j ->
  entry (Codec (Stream (version_block FILE_VERSION ++ replicate (Z.to_nat 777600) 0) 777728)
           disk (replicate 12 0) 0) i j = (0, 0, 0).
Proof.
  intros Hg. destruct (header_offset_grid i j Hg) as [Hlo Hhi]. unfold header_size in *.
  unfold entry, read_header. cbn [ofp bytes].
  rewrite drop_app_ge by (rewrite length_version_block; lia).
  rewrite drop_replicate, take_replicate, !bit_unpack_zeros. done.
Qed.

Lemma codec_inv_start (FILE_VERSION : list Z) (disk : gmap (Z * Z) (list Z)) :
  codec_inv (Codec (Stream (version_block FILE_VERSION ++ replicate (Z.to_nat 777600) 0) 777728)
               disk (replicate 12 0) 0).
Proof.
  unfold codec_inv, header_size. cbn [ofp bytes cursor head_buf].
  rewrite length_app, length_version_block, !length_replicate. lia.
Qed.

(** ** The first pass over all shape files *)

Lemma remove_row_sub (stuck : Z * Z -> bool) (i : Z) (l : list Z)
    (disk : gmap (Z * Z) (list Z)) (c : Z * Z) (x : list Z) :
  foldl (fun disk j => remove stuck (j, i) disk) disk l !! c = Some x ->
  disk !! c = Some x.
Proof.
  revert disk. induction l as [|j l IH]; intros disk Hc; [done|].
  cbn [foldl] in Hc. apply IH in Hc. unfold remove in Hc.
  destruct (stuck (j, i)); [done|]. by apply lookup_delete_Some in Hc as [_ Hc].
Qed.

Lemma remove_row_gone (stuck : Z * Z -> bool) (i j : Z) (l : list Z)
    (disk : gmap (Z * Z) (list Z)) :
  j ∈ l -> stuck (j, i) = false ->
  foldl (fun disk j => remove stuck (j, i) disk) disk l !! (j, i) = None.
Proof.
  intros Hj Hs. revert disk Hj.
  induction l as [|j' l IH]; intros disk Hj; [by apply elem_of_nil in Hj|].
  cbn [foldl]. apply elem_of_cons in Hj as [->|Hj]; [|by apply IH].
  destruct (foldl _ _ l !! (j', i)) as [x|] eqn:Hx; [|done].
  apply remove_row_sub in Hx. unfold remove in Hx. rewrite Hs in Hx.
  by rewrite lookup_delete_eq in Hx.
Qed.

Lemma remove_row_keep (stuck : Z * Z -> bool) (i : Z) (l : list Z)
    (disk : gmap (Z * Z) (list Z)) (c : Z * Z) :
  (forall j, j ∈ l -> c = (j, i) -> stuck c = true) ->
  foldl (fun disk j => remove stuck (j, i) disk) disk l !! c = disk !! c.
Proof.
  revert disk. induction l as [|j l IH]; intros disk Hc; [done|].
  cbn [foldl]. rewrite IH by (intros j' Hj'; apply Hc; by right).
  unfold remove. destruct (stuck (j, i)) eqn:Hs; [done|].
  apply lookup_delete_ne. intros Heq.
  assert (stuck c = true) as Ht by (apply (Hc j); [by left|done]).
  congruence.
Qed.

Lemma remove_rows_sub (stuck : Z * Z -> bool) (rows : list Z)
    (disk : gmap (Z * Z) (list Z)) (c : Z * Z) (x : list Z) :
  foldl (fun disk i => foldl (fun disk j => remove stuck (j, i) disk) disk (seqZ 0 360))
    disk rows !! c = Some x ->
  disk !! c = Some x.
Proof.
  revert disk. induction rows as [|i rows IH]; intros disk Hc; [done|].
  cbn [foldl] in Hc. apply IH in Hc. by apply remove_row_sub in Hc.
Qed.

(** The spool of a cell of the grid is gone after the loop of lines
    179-186 when the system lets it be removed. *)
Lemma remove_old_cells_fs_gone (stuck : Z * Z -> bool) (disk : gmap (Z * Z) (list Z))
    (i j : Z) :
  in_grid i j -> stuck (j, i) = false ->
  remove_old_cells_fs stuck disk !! (j, i) = None.
Proof.
  intros [Hi Hj] Hs. unfold remove_old_cells_fs.
  assert (i ∈ seqZ 0 180) as Hin by (apply elem_of_seqZ; lia).
  assert (j ∈ seqZ 0 360) as Hjn by (apply elem_of_seqZ; lia).
  revert Hin. generalize (seqZ 0 180). intros rows. revert disk.
  induction rows as [|i' rows IH]; intros disk Hin; [by apply elem_of_nil in Hin|].
  cbn [foldl]. apply elem_of_cons in Hin as [->|Hin]; [|by apply IH].
  destruct (foldl _ _ rows !! (j, i')) as [x|] eqn:Hx; [|done].
  apply remove_rows_sub in Hx. by rewrite remove_row_gone in Hx.
Qed.

(** A file that is not the spool of a cell of the grid, or that the system
    does not let be removed, is as it was after the loop. *)
Lemma remove_old_cells_fs_keep (stuck : Z * Z -> bool) (disk : gmap (Z * Z) (list Z))
    (c : Z * Z) :
  ~ in_grid (snd c) (fst c) \/ stuck c = true ->
  remove_old_cells_fs stuck disk !! c = disk !! c.
Proof.
  intros Hc. unfold remove_old_cells_fs.
  assert (Hrows : forall l (disk : gmap (Z * Z) (list Z)),
            (forall i, i ∈ l -> 0 <= i < 180) ->
            foldl (fun disk i =>
                     foldl (fun disk j => remove stuck (j, i) disk) disk (seqZ 0 360))
              disk l !! c = disk !! c).
  { induction l as [|i l IH]; intros disk' Hl; [done|].
    cbn [foldl]. rewrite IH by (intros i' Hi'; apply Hl; by right).
    apply remove_row_keep. intros j Hj%elem_of_seqZ ->.
    destruct Hc as [Hout|Hs]; [|done]. exfalso. apply Hout.
    split; cbn; [apply Hl; by left|lia]. }
  apply Hrows. intros i Hi%elem_of_seqZ. lia.
Qed.

Lemma remove_old_cells_gone (disk : gmap (Z * Z) (list Z)) (i j : Z) :
  in_grid i j -> remove_old_cells disk !! (j, i) = None.
Proof. intros Hg. by apply remove_old_cells_fs_gone. Qed.

Lemma spools_Acc (disk : gmap (Z * Z) (list Z)) (n : Z) (sx sy : list Z) (b : bool)
    (t : Z) :
  spools (Acc disk n sx sy b t) = disk.
Proof. reflexivity. Qed.

Lemma spools_acc_start (disk : gmap (Z * Z) (list Z)) :
  spools (acc_start disk) = remove_old_cells disk.
Proof. exact (spools_Acc (remove_old_cells disk) 0 [] [] false 0). Qed.

Lemma wf_spools_start (disk : gmap (Z * Z) (list Z)) :
  wf_spools (spools (acc_start disk)).
Proof.
  intros i j fp Hg Hsp. rewrite spools_acc_start in Hsp.
  rewrite remove_old_cells_gone in Hsp by exact Hg. discriminate Hsp.
Qed.

(** One shape file: its spool exists afterwards, the spools that were
    there still are, and spools of whole segments stay so. *)
Lemma accumulate_cell_spec (dir : input_dir) (lnh : bool) (ln : Z) (lth : bool) (lt : Z)
    (st st' : acc_state) :
  accumulate_cell dir lnh ln lth lt st = Ok st' ->
  (wf_spools (spools st) -> wf_spools (spools st'))
  /\ (forall c, is_Some (spools st !! c) -> is_Some (spools st' !! c))
  /\ (is_Some (find_dataset dir lnh ln lth lt) ->
        is_Some (spools st' !! cell_of lnh ln lth lt)).
Proof.
  unfold accumulate_cell. cbv zeta.
  destruct (find_dataset dir lnh ln lth lt) as [[ds [|shapes]]|] eqn:Hfind; [done| |].
  2:{ intros [= <-]. split; [done|]. split; [done|]. by intros [? ?]. }
  intros Hok.
  set (fname := cell_of lnh ln lth lt) in *.
  set (cx := ((double_of_int (fst fname) * 3600)%float,
              (double_of_int (fst fname + 1) * 3600)%float)).
  set (cy := ((double_of_int (snd fname) * 3600)%float,
              (double_of_int (snd fname + 1) * 3600)%float)).
  set (st1 := Acc (open_append fname (spools st)) 0 (seg_x st) (seg_y st)
                (bad_flag st) (total st)).
  assert (st' = read_shapes fname cx cy shapes st1) as ->
    by (injection Hok as <-; reflexivity).
  clear Hok.
  assert (acc_wf st1) as Hwf1 by (unfold acc_wf, st1; cbn; lia).
  assert (spools st1 !! fname = Some (default [] (spools st !! fname))) as Hsp1.
  { unfold st1, open_append. cbn [spools]. apply lookup_insert_eq. }
  destruct (read_shapes_spool fname cx cy shapes st1 _ Hwf1 eq_refl Hsp1)
    as (segs & Hsp' & Hsegs).
  assert (forall c, c <> fname ->
            spools (read_shapes fname cx cy shapes st1) !! c = spools st !! c) as Hframe.
  { intros c Hc. rewrite read_shapes_frame by done.
    unfold st1, open_append. cbn [spools]. by apply lookup_insert_ne. }
  split; [|split].
  - intros Hwf i j fp Hg Hfp.
    destruct (decide ((j, i) = fname)) as [Heq|Hne].
    + rewrite Heq, Hsp' in Hfp. injection Hfp as <-.
      destruct (spools st !! fname) as [w|] eqn:Hw; cbn [default].
      * rewrite <- Heq in Hw. destruct (Hwf i j w Hg Hw) as (segs0 & -> & Hsegs0).
        exists (segs0 ++ segs). rewrite flat_map_app. split; [done|].
        apply Forall_app. split; [done|].
        eapply Forall_impl; [exact Hsegs|]. by intros V [? _].
      * exists segs. split; [done|].
        eapply Forall_impl; [exact Hsegs|]. by intros V [? _].
    + rewrite Hframe in Hfp by done. by apply (Hwf i j).
  - intros c Hc. destruct (decide (c = fname)) as [->|Hne].
    + by rewrite Hsp'.
    + by rewrite Hframe.
  - intros _. by rewrite Hsp'.
Qed.

Lemma for_each_ext {S A : Type} (body1 body2 : A -> S -> result S) (l : list A) (s : S) :
  (forall a s, body1 a s = body2 a s) -> for_each body1 l s = for_each body2 l s.
Proof.
  intros Hext. revert s. induction l as [|a l IH]; intros s; [done|].
  cbn [for_each]. rewrite Hext. destruct (body2 a s) as [s1|e]; [|done]. apply IH.
Qed.

Lemma accumulate_flat (dir : input_dir) (st : acc_state) :
  accumulate dir st
    = for_each (fun c st =>
                  accumulate_cell dir (fst (fst (fst c))) (snd (fst (fst c)))
                    (snd (fst c)) (snd c) st)
        input_cells st.
Proof.
  unfold accumulate, input_cells. rewrite for_each_bind.
  apply for_each_ext. intros lnh s. rewrite for_each_bind.
  apply for_each_ext. intros ln s'. rewrite for_each_bind.
  apply for_each_ext. intros lth s''. by rewrite for_each_fmap.
Qed.

Lemma elem_of_input_cells (lnh : bool) (ln : Z) (lth : bool) (lt : Z) :
  ln ∈ lon_range lnh -> lt ∈ lat_range lth -> (lnh, ln, lth, lt) ∈ input_cells.
Proof.
  intros Hln Hlt. unfold input_cells.
  apply list_elem_of_bind. exists lnh. split; [|destruct lnh; repeat constructor].
  apply list_elem_of_bind. exists ln. split; [|done].
  apply list_elem_of_bind. exists lth. split; [|destruct lth; repeat constructor].
  apply list_elem_of_fmap. by exists lt.
Qed.

(** After the first pass the spools of the grid hold whole segments, and
    the spool of every shape file that was found exists. *)
Lemma accumulate_spec (dir : input_dir) (st st' : acc_state) :
  accumulate dir st = Ok st' ->
  (wf_spools (spools st) -> wf_spools (spools st'))
  /\ (forall lnh ln lth lt,
        ln ∈ lon_range lnh -> lt ∈ lat_range lth ->
        is_Some (find_dataset dir lnh ln lth lt) ->
        is_Some (spools st' !! cell_of lnh ln lth lt)).
Proof.
  rewrite accumulate_flat. intros Hrun. split.
  - intros Hwf.
    eapply (for_each_inv (fun s => wf_spools (spools s))); [|exact Hwf|exact Hrun].
    intros c s s' _ Hs Hbody. cbv beta in Hbody.
    apply accumulate_cell_spec in Hbody as (Hkeep & _). by apply Hkeep.
  - intros lnh ln lth lt Hln Hlt Hfind.
    destruct (for_each_split _ _ _ _ _ (elem_of_input_cells lnh ln lth lt Hln Hlt) Hrun)
      as (l1 & l2 & s1 & s2 & _ & _ & Hcell & Hrun2).
    cbn [fst snd] in Hcell.
    apply accumulate_cell_spec in Hcell as (_ & _ & Hsome).
    eapply (for_each_inv (fun s => is_Some (spools s !! cell_of lnh ln lth lt)));
      [|exact (Hsome Hfind)|exact Hrun2].
    intros c s s' _ Hs Hbody. cbv beta in Hbody.
    apply accumulate_cell_spec in Hbody as (_ & Hkeep & _). by apply Hkeep.
Qed.

(** ** The whole run *)

Lemma main_unfold (dir : input_dir) (FILE_VERSION : list Z)
    (disk : gmap (Z * Z) (list Z)) :
  main dir FILE_VERSION disk
    = (st ← accumulate dir (acc_start disk); codec_pass FILE_VERSION (spools st)).
Proof. unfold main, main_fs, acc_start, remove_old_cells, codec_pass. reflexivity. Qed.

Lemma cell_of_grid (lnh : bool) (ln : Z) (lth : bool) (lt : Z) :
  ln ∈ lon_range lnh -> lt ∈ lat_range lth ->
  in_grid (snd (cell_of lnh ln lth lt)) (fst (cell_of lnh ln lth lt)).
Proof.
  unfold lon_range, lat_range, cell_of, in_grid. cbn [fst snd].
  destruct lnh, lth; rewrite !elem_of_seqZ; lia.
Qed.

Lemma wrap32_mod (a : Z) : 0 <= a < 2 ^ 31 -> wrap32 a mod 2 ^ 32 = a.
Proof.
  intros Ha. rewrite wrap32_id by (unfold int32; lia). apply Z.mod_small. lia.
Qed.

Lemma total_vertices_bound (segs : list (list (Z * Z))) :
  Forall (fun V => (2 <= length V)%nat) segs ->
  0 <= 2 * Z.of_nat (length segs) <= total_vertices segs.
Proof.
  induction 1 as [|V segs HV Hsegs IH]; cbn [length total_vertices foldr] in *; [lia|].
  fold (total_vertices segs) in *. lia.
Qed.

Lemma result_bind_Ok {A B : Type} (k : A -> result B) (a : A) :
  (x ← Ok a; k x) = k a.
Proof. reflexivity. Qed.

Lemma result_bind_Ok_inv {A B : Type} (k : A -> result B) (r : result A) (b : B) :
  (x ← r; k x) = Ok b -> exists a, r = Ok a /\ k a = Ok b.
Proof. destruct r as [a|e]; [|done]. intros H. by exists a. Qed.

Lemma cells_Codec (o : stream) (c : gmap (Z * Z) (list Z)) (h : list Z) (t : Z) :
  cells (Codec o c h t) = c.
Proof. reflexivity. Qed.

(** ** The run on the example directory *)

Lemma accumulate_ex :
  accumulate ex_dir (acc_start ∅) = Ok (Acc {[ (0, 0) := [] ]} 0 [] [] false 0).
Proof. vm_compute. reflexivity. Qed.

Lemma grid_head : exists grid', grid = (0, 0) :: grid'.
Proof.
  unfold grid. rewrite (seqZ_cons 0 180) by lia. cbn [mbind list_bind].
  rewrite (seqZ_cons 0 360) by lia. cbn [fmap list_fmap app]. by eexists.
Qed.

Lemma codec_cells_empty (l : list (Z * Z)) (st : codec_state) :
  cells st = ∅ ->
  for_each (fun c st => codec_cell (fst c) (snd c) st) l st = Ok st.
Proof.
  intros Hempty. induction l as [|c l IH]; [done|].
  cbn [for_each]. rewrite codec_cell_none by (by rewrite Hempty).
  by rewrite result_bind_Ok.
Qed.

Lemma codec_cell_empty_spool (i j : Z) (st : codec_state) :
  cells st !! (j, i) = Some [] ->
  exists st', codec_cell i j st = Ok st' /\ cells st' = delete (j, i) (cells st).
Proof.
  intros Hsp. unfold codec_cell, codec_cell_fs. rewrite Hsp. cbn [length cell_loop].
  rewrite result_bind_Ok. by eexists.
Qed.

Lemma length_start (FILE_VERSION : list Z) (disk : gmap (Z * Z) (list Z)) :
  Z.of_nat (length (bytes (ofp (Codec
    (Stream (version_block FILE_VERSION ++ replicate (Z.to_nat 777600) 0) 777728)
    disk (replicate 12 0) 0)))) = 777728.
Proof.
  cbn [ofp bytes]. rewrite length_app, length_version_block, length_replicate. lia.
Qed.

(** The run on [ex_dir] ends, and the entry of the cell whose shape file
    holds no shape has the size of the header as its address. *)
Lemma main_ex :
  exists final,
    main ex_dir [] ∅ = Ok final /\ entry final 0 0 = (777728, 0, 0).
Proof.
  rewrite main_unfold, accumulate_ex, result_bind_Ok, spools_Acc.
  rewrite codec_pass_start, codec_loop_grid.
  destruct grid_head as [grid' Hgrid].
  pose proof NoDup_grid as Hnd. rewrite Hgrid in Hnd.
  apply NoDup_cons in Hnd as [Hnotin _].
  assert (forall c, c ∈ grid' -> in_grid (fst c) (snd c)) as Hin.
  { intros [i j] Hc. apply elem_of_grid. rewrite Hgrid. by right. }
  rewrite Hgrid. cbn [for_each fst snd].
  assert (in_grid 0 0) as Hg by (unfold in_grid; lia).
  pose proof (codec_inv_start [] {[ (0, 0) := [] ]}) as Hinv.
  pose proof (length_start [] {[ (0, 0) := [] ]}) as Hlen.
  pose proof (cells_Codec
                (Stream (version_block [] ++ replicate (Z.to_nat 777600) 0) 777728)
                {[ (0, 0) := [] ]} (replicate 12 0) 0) as Hcells.
  revert Hinv Hlen Hcells.
  generalize (Codec (Stream (version_block [] ++ replicate (Z.to_nat 777600) 0) 777728)
                {[ (0, 0) := [] ]} (replicate 12 0) 0).
  intros st0 Hinv Hlen Hcells.
  destruct (codec_cell_empty_spool 0 0 st0) as (s2 & Hcell & Hcells2).
  { rewrite Hcells. apply lookup_singleton_eq. }
  rewrite Hcell, result_bind_Ok.
  rewrite codec_cells_empty by (rewrite Hcells2, Hcells; apply delete_singleton_eq).
  exists s2. split; [done|].
  destruct (codec_cell_some 0 0 st0 s2 [] Hg Hinv) as (_ & _ & _ & (nv & Hentry & Hnv) & _);
    [rewrite Hcells; apply lookup_singleton_eq|constructor|done|].
  rewrite Hentry, Hlen, Hnv by (cbn; lia). reflexivity.
Qed.

(** ** The directory after a full run *)

(** C5 as stated fails: the shape file of cell (0, 0) of [ex_dir] holds no
    shape, so no segment is spooled for the cell, its spool is empty, and
    yet its directory entry holds the address 777728. *)
Lemma entry_of_empty_spool_is_not_zero :
  exists final st,
    main ex_dir [] ∅ = Ok final
    /\ accumulate ex_dir (acc_start ∅) = Ok st
    /\ spools st !! (0, 0) = Some []
    /\ entry final 0 0 = (777728, 0, 0)
    /\ entry final 0 0 <> (0, 0, 0).
Proof.
  destruct main_ex as (final & Hmain & Hentry).
  exists final, (Acc {[ (0, 0) := [] ]} 0 [] [] false 0).
  split; [done|]. split; [exact accumulate_ex|].
  split; [rewrite spools_Acc; apply lookup_singleton_eq|].
  split; [done|]. by rewrite Hentry.
Qed.
(** ** The choice of the data set of a cell *)

Lemma first_dataset_none (e : Z -> option shp_file) (l : list Z) :
  first_dataset e l = None <-> forall d, d ∈ l -> e d = None.
Proof.
  induction l as [|d l IH]; cbn [first_dataset].
  - split; [|done]. intros _ d Hd. by apply elem_of_nil in Hd.
  - destruct (e d) as [f|] eqn:Hd.
    + split; [done|]. intros H. specialize (H d (list_elem_of_here _ _)). congruence.
    + rewrite IH. split.
      * intros H d' [->|Hd']%elem_of_cons; auto.
      * intros H d' Hd'. apply H. by right.
Qed.

Lemma first_dataset_some (e : Z -> option shp_file) (l : list Z) (ds : Z)
    (f : shp_file) :
  first_dataset e l = Some (ds, f)
  <-> exists l1 l2, l = l1 ++ ds :: l2 /\ e ds = Some f
                    /\ forall d, d ∈ l1 -> e d = None.
Proof.
  induction l as [|d l IH]; cbn [first_dataset].
  - split; [done|]. intros (l1 & l2 & Hl & _). by destruct l1.
  - destruct (e d) as [f'|] eqn:Hd.
    + split.
      * intros [= <- <-]. exists [], l. split; [done|]. split; [done|].
        intros d' Hd'. by apply elem_of_nil in Hd'.
      * intros (l1 & l2 & Hl & Hds & Hnone).
        destruct l1 as [|d1 l1]; cbn in Hl; injection Hl as -> ->.
        -- congruence.
        -- specialize (Hnone d1 (list_elem_of_here _ _)). congruence.
    + rewrite IH. split.
      * intros (l1 & l2 & -> & Hds & Hnone). exists (d :: l1), l2.
        split; [done|]. split; [done|].
        intros d' [->|Hd']%elem_of_cons; auto.
      * intros (l1 & l2 & Hl & Hds & Hnone).
        destruct l1 as [|d1 l1]; cbn in Hl; injection Hl as -> ->.
        -- congruence.
        -- exists l1, l2. split; [done|]. split; [done|].
           intros d' Hd'. apply Hnone. by right.
Qed.

Lemma seqZ_split_at (n ds : Z) (l1 l2 : list Z) :
  seqZ 0 n = l1 ++ ds :: l2 -> 0 <= ds < n /\ l1 = seqZ 0 ds.
Proof.
  intros Hl.
  assert (Hlen : length (seqZ 0 n) = length (l1 ++ ds :: l2)) by by rewrite Hl.
  rewrite length_seqZ, length_app in Hlen. cbn [length] in Hlen.
  assert (Hds : seqZ 0 n !! length l1 = Some ds).
  { rewrite Hl. by rewrite list_lookup_middle. }
  apply lookup_seqZ in Hds as [-> Hlt].
  split; [lia|].
  apply list_eq. intros i. destruct (decide (i < length l1)%nat) as [Hi|Hi].
  - apply (f_equal (fun l => l !! i)) in Hl. cbn beta in Hl.
    rewrite lookup_app_l in Hl by done. rewrite <- Hl.
    rewrite !lookup_seqZ_lt by lia. done.
  - rewrite lookup_ge_None_2 by lia. symmetry. apply lookup_seqZ_ge. lia.
Qed.

(** X1: the data set letters are tried in the order of [dataset]: the file
    read for a cell is the first of the six that exists, the others are
    never looked at, and no file is read when none exists. *)
Theorem first_existing_dataset (dir : input_dir) (lnh : bool) (ln : Z) (lth : bool)
    (lt : Z) :
  (forall ds f,
     find_dataset dir lnh ln lth lt = Some (ds, f)
     <-> 0 <= ds < 6 /\ dir lnh ln lth lt ds = Some f
         /\ forall ds', 0 <= ds' < ds -> dir lnh ln lth lt ds' = None)
  /\ (find_dataset dir lnh ln lth lt = None
      <-> forall ds, 0 <= ds < 6 -> dir lnh ln lth lt ds = None).
Proof.
  unfold find_dataset. split.
  - intros ds f. rewrite first_dataset_some. split.
    + intros (l1 & l2 & Hl & Hds & Hnone).
      apply seqZ_split_at in Hl as [Hr ->]. split; [done|]. split; [done|].
      intros ds' Hds'. apply Hnone. apply elem_of_seqZ. lia.
    + intros (Hr & Hds & Hnone).
      exists (seqZ 0 ds), (seqZ (ds + 1) (6 - ds - 1)). split.
      * replace 6 with (ds + (6 - ds)) at 1 by lia.
        rewrite seqZ_app by lia. f_equal. rewrite Z.add_0_l.
        rewrite seqZ_cons by lia. done.
      * split; [done|]. intros d Hd. apply elem_of_seqZ in Hd. apply Hnone. lia.
  - rewrite first_dataset_none. split.
    + intros H ds Hds. apply H. apply elem_of_seqZ. lia.
    + intros H ds Hds. apply H. apply elem_of_seqZ in Hds. lia.
Qed.
(** ** The cells of the first pass and the stale spools *)

Lemma elem_of_lon_range (lnh : bool) (ln : Z) :
  ln ∈ lon_range lnh <-> if lnh then 0 <= ln < 180 else 1 <= ln < 181.
Proof. unfold lon_range. destruct lnh; rewrite elem_of_seqZ; lia. Qed.

Lemma elem_of_lat_range (lth : bool) (lt : Z) :
  lt ∈ lat_range lth <-> if lth then 0 <= lt < 90 else 1 <= lt < 91.
Proof. unfold lat_range. destruct lth; rewrite elem_of_seqZ; lia. Qed.

(** X2: the four loops of the first pass name every cell of the grid once:
    each cell is the cell of exactly one hemisphere, longitude, hemisphere
    and latitude of the loops, so no spool is opened twice in a run. *)
Theorem cell_of_covers_grid_once (i j : Z) :
  in_grid i j ->
  exists lnh ln lth lt,
    ln ∈ lon_range lnh /\ lt ∈ lat_range lth /\ cell_of lnh ln lth lt = (j, i)
    /\ forall lnh' ln' lth' lt',
         ln' ∈ lon_range lnh' -> lt' ∈ lat_range lth' ->
         cell_of lnh' ln' lth' lt' = (j, i) ->
         (lnh', ln', lth', lt') = (lnh, ln, lth, lt).
Proof.
  intros [Hi Hj].
  exists (180 <=? j), (if 180 <=? j then j - 180 else 180 - j),
         (90 <=? i), (if 90 <=? i then i - 90 else 90 - i).
  split; [apply elem_of_lon_range; destruct (Z.leb_spec 180 j); lia|].
  split; [apply elem_of_lat_range; destruct (Z.leb_spec 90 i); lia|].
  split.
  - unfold cell_of. destruct (Z.leb_spec 180 j), (Z.leb_spec 90 i); f_equal; lia.
  - intros lnh' ln' lth' lt' Hln%elem_of_lon_range Hlt%elem_of_lat_range.
    unfold cell_of. intros [= Hx Hy].
    destruct lnh', lth', (Z.leb_spec 180 j), (Z.leb_spec 90 i);
      try lia; repeat f_equal; lia.
Qed.

Lemma cell_of_covers_grid_once_witness :
  exists lnh ln lth lt,
    ln ∈ lon_range lnh /\ lt ∈ lat_range lth /\ cell_of lnh ln lth lt = (0, 179)
    /\ forall lnh' ln' lth' lt',
         ln' ∈ lon_range lnh' -> lt' ∈ lat_range lth' ->
         cell_of lnh' ln' lth' lt' = (0, 179) ->
         (lnh', ln', lth', lt') = (lnh, ln, lth, lt).
Proof. apply (cell_of_covers_grid_once 179 0). unfold in_grid. lia. Defined.

Lemma remove_old_cells_other (disk : gmap (Z * Z) (list Z)) (c : Z * Z) :
  ~ in_grid (snd c) (fst c) -> remove_old_cells disk !! c = disk !! c.
Proof. intros Hc. apply remove_old_cells_fs_keep. by left. Qed.

(** X3: the loop that removes the spools of an earlier run calls [remove]
    on the name of every cell of the grid and on no other name.  After it
    the spool of a cell of the grid is gone when the system lets it be
    removed; a spool on which [remove] fails is still there with what it
    holds, and [main] goes on; every file of another name is as it was. *)
Theorem stale_spools_removed (stuck : Z * Z -> bool) (disk : gmap (Z * Z) (list Z))
    (i j : Z) :
  (in_grid i j -> stuck (j, i) = false ->
     remove_old_cells_fs stuck disk !! (j, i) = None)
  /\ (stuck (j, i) = true -> remove_old_cells_fs stuck disk !! (j, i) = disk !! (j, i))
  /\ (~ in_grid i j -> remove_old_cells_fs stuck disk !! (j, i) = disk !! (j, i)).
Proof.
  split; [|split].
  - apply remove_old_cells_fs_gone.
  - intros Hs. apply remove_old_cells_fs_keep. by right.
  - intros Hout. apply remove_old_cells_fs_keep. by left.
Qed.

Lemma stale_spools_removed_witness :
  let stuck := fun c : Z * Z => (fst c =? 7) && (snd c =? 7) in
  let disk : gmap (Z * Z) (list Z) :=
    {[ (359, 179) := [7]; (7, 7) := [9]; (360, 0) := [8] ]} in
  remove_old_cells_fs stuck disk !! (359, 179) = None
  /\ remove_old_cells_fs stuck disk !! (7, 7) = Some [9]
  /\ remove_old_cells_fs stuck disk !! (360, 0) = Some [8].
Proof.
  intros stuck disk.
  destruct (stale_spools_removed stuck disk 179 359) as (Hgone & _ & _).
  destruct (stale_spools_removed stuck disk 7 7) as (_ & Hstuck & _).
  destruct (stale_spools_removed stuck disk 0 360) as (_ & _ & Hout).
  split; [|split].
  - apply Hgone; [unfold in_grid; lia|reflexivity].
  - rewrite Hstuck; reflexivity.
  - rewrite Hout; [reflexivity|]. unfold in_grid. lia.
Defined.
(** ** How the first pass ends *)

Lemma for_each_exit {S A : Type} (I : S -> Prop) (body : A -> S -> result S)
    (l : list A) (s : S) (e : fatal) :
  (forall a s s', a ∈ l -> I s -> body a s = Ok s' -> I s') ->
  I s -> for_each body l s = Exit e ->
  exists a s1, a ∈ l /\ I s1 /\ body a s1 = Exit e.
Proof.
  revert s. induction l as [|a l IH]; intros s Hbody Hs Hrun; [done|].
  cbn [for_each] in Hrun. destruct (body a s) as [s1|e'] eqn:Ha.
  - rewrite result_bind_Ok in Hrun.
    destruct (IH s1) as (b & s2 & Hb & Hs2 & Hexit); [| |done|].
    + intros b t t' Hb. apply Hbody. by right.
    + eapply Hbody; [by left|done..].
    + exists b, s2. split; [by right|done].
  - injection Hrun as ->. exists a, s. split; [by left|done].
Qed.

Lemma for_each_ok {S A : Type} (body : A -> S -> result S) (l : list A) (s : S) :
  (forall a s, a ∈ l -> exists s', body a s = Ok s') ->
  exists s', for_each body l s = Ok s'.
Proof.
  revert s. induction l as [|a l IH]; intros s Hbody; [by exists s|].
  cbn [for_each]. destruct (Hbody a s) as [s1 ->]; [by left|].
  rewrite result_bind_Ok. apply IH. intros b t Hb. apply Hbody. by right.
Qed.

Lemma elem_of_input_cells_inv (lnh : bool) (ln : Z) (lth : bool) (lt : Z) :
  (lnh, ln, lth, lt) ∈ input_cells -> ln ∈ lon_range lnh /\ lt ∈ lat_range lth.
Proof.
  unfold input_cells.
  intros (lnh' & Hc & _)%list_elem_of_bind.
  apply list_elem_of_bind in Hc as (ln' & Hc & Hln).
  apply list_elem_of_bind in Hc as (lth' & Hc & _).
  apply list_elem_of_fmap in Hc as (lt' & [= -> -> -> ->] & Hlt).
  done.
Qed.

(** A cell of the first pass exits when, and only when, the shape file
    found for it cannot be opened; the state has no part in it. *)
Lemma accumulate_cell_exit (dir : input_dir) (lnh : bool) (ln : Z) (lth : bool)
    (lt : Z) (st : acc_state) (e : fatal) :
  accumulate_cell dir lnh ln lth lt st = Exit e
  <-> e = ShapeOpenFailed
      /\ exists ds, find_dataset dir lnh ln lth lt = Some (ds, Unreadable).
Proof.
  unfold accumulate_cell.
  destruct (find_dataset dir lnh ln lth lt) as [[ds [|shapes]]|].
  - split; [intros [= <-]; eauto|]. by intros [-> _].
  - split; [done|]. by intros [_ [ds' [=]]].
  - split; [done|]. by intros [_ [ds' [=]]].
Qed.

Lemma accumulate_exit (dir : input_dir) (st : acc_state) (e : fatal) :
  accumulate dir st = Exit e ->
  e = ShapeOpenFailed
  /\ exists lnh ln lth lt ds,
       ln ∈ lon_range lnh /\ lt ∈ lat_range lth
       /\ find_dataset dir lnh ln lth lt = Some (ds, Unreadable).
Proof.
  rewrite accumulate_flat. intros Hrun.
  apply (for_each_exit (fun _ => True)) in Hrun
    as ([[[lnh ln] lth] lt] & s1 & Hin & _ & Hcell); [|done..].
  cbn [fst snd] in Hcell. apply accumulate_cell_exit in Hcell as [-> [ds Hfind]].
  split; [done|]. apply elem_of_input_cells_inv in Hin as [Hln Hlt].
  by exists lnh, ln, lth, lt, ds.
Qed.

Lemma accumulate_exit_unreadable (dir : input_dir) (st : acc_state) (lnh : bool)
    (ln : Z) (lth : bool) (lt ds : Z) :
  ln ∈ lon_range lnh -> lt ∈ lat_range lth ->
  find_dataset dir lnh ln lth lt = Some (ds, Unreadable) ->
  accumulate dir st = Exit ShapeOpenFailed.
Proof.
  intros Hln Hlt Hfind.
  destruct (accumulate dir st) as [st'|e] eqn:Hrun.
  - rewrite accumulate_flat in Hrun.
    destruct (for_each_split _ _ _ _ _ (elem_of_input_cells lnh ln lth lt Hln Hlt) Hrun)
      as (l1 & l2 & s1 & s2 & _ & _ & Hcell & _).
    cbn [fst snd] in Hcell. unfold accumulate_cell in Hcell.
    rewrite Hfind in Hcell. done.
  - by apply accumulate_exit in Hrun as [-> _].
Qed.

Lemma accumulate_unreadable_ex :
  accumulate ex_unreadable (acc_start ∅) = Exit ShapeOpenFailed.
Proof.
  apply (accumulate_exit_unreadable _ _ false 1 false 1 3);
    [apply elem_of_seqZ; lia..|done].
Qed.

(** X4: the first pass can exit for one reason only, a shape file that is
    there and that shapelib does not open, and it does exit whenever the
    first data set found for some cell of the loops is such a file: no
    other data set letter is tried for that cell. *)
Theorem first_pass_exit (dir : input_dir) (st : acc_state) :
  (forall e, accumulate dir st = Exit e -> e = ShapeOpenFailed)
  /\ (accumulate dir st = Exit ShapeOpenFailed
      <-> exists lnh ln lth lt ds,
            ln ∈ lon_range lnh /\ lt ∈ lat_range lth
            /\ find_dataset dir lnh ln lth lt = Some (ds, Unreadable)).
Proof.
  split; [intros e He; by apply accumulate_exit in He as [-> _]|].
  split; [intros He; by apply accumulate_exit in He as [_ ?]|].
  intros (lnh & ln & lth & lt & ds & Hln & Hlt & Hfind).
  by apply (accumulate_exit_unreadable _ _ lnh ln lth lt ds).
Qed.

Lemma first_pass_exit_witness :
  accumulate ex_unreadable (acc_start ∅) = Exit ShapeOpenFailed.
Proof.
  apply first_pass_exit. exists false, 1, false, 1, 3.
  split; [apply elem_of_seqZ; lia|]. split; [apply elem_of_seqZ; lia|]. done.
Defined.
(** ** The cell loop, whatever the file and the counters *)

Lemma wrap32_add_l (a b : Z) : wrap32 (wrap32 a + b) = wrap32 (a + b).
Proof.
  unfold wrap32. f_equal.
  replace ((a + 2 ^ 31) mod 2 ^ 32 - 2 ^ 31 + b + 2 ^ 31)
    with ((a + 2 ^ 31) mod 2 ^ 32 + b) by lia.
  rewrite Zplus_mod_idemp_l. f_equal. lia.
Qed.

Lemma wrap32_add_r (a b : Z) : wrap32 (a + wrap32 b) = wrap32 (a + b).
Proof. rewrite Z.add_comm, wrap32_add_l. f_equal. lia. Qed.

Lemma add32_assoc (a b c : Z) : add32 (add32 a b) c = add32 a (add32 (add32 0 b) c).
Proof.
  unfold add32. rewrite !wrap32_add_l, !wrap32_add_r. f_equal. lia.
Qed.

Lemma add32_0_r (a : Z) : int32 a -> add32 a 0 = a.
Proof. intros Ha. unfold add32. rewrite Z.add_0_r. by apply wrap32_id. Qed.

Lemma add32_0_l (a : Z) : int32 a -> add32 0 a = a.
Proof. intros Ha. unfold add32. rewrite Z.add_0_l. by apply wrap32_id. Qed.

Lemma add32_int32 (a b : Z) : int32 (add32 a b).
Proof. apply wrap32_int32. Qed.

Lemma int32_0 : int32 0.
Proof. unfold int32. lia. Qed.

(** The cell loop adds to the file and to the counters what it makes of
    the spool from the empty file and zero counters. *)
Lemma cell_loop_shift (fuel : nat) (fp : list Z) (ofp : stream) (ns nv t : Z) :
  cursor ofp = Z.of_nat (length (bytes ofp)) -> int32 nv -> int32 t ->
  cell_loop fuel fp ofp ns nv t
    = (r ← cell_loop fuel fp (Stream [] 0) 0 0 0; Ok (shift ofp ns nv t r)).
Proof.
  revert fp ofp ns nv t.
  induction fuel as [|fuel IH]; intros fp ofp ns nv t Hcur Hnv Ht.
  - cbn [cell_loop mbind result_bind shift bytes].
    rewrite app_nil_r, Z.add_0_r, !add32_0_r by done.
    destruct ofp as [b c]. cbn in Hcur. by subst c.
  - destruct fp as [|s fp].
    { cbn [cell_loop mbind result_bind shift bytes].
      rewrite app_nil_r, Z.add_0_r, !add32_0_r by done.
      destruct ofp as [b c]. cbn in Hcur. by subst c. }
    cbn [cell_loop]. destruct (s >? 1); [|by apply IH].
    destruct (pack_segment s fp) as [[buffer rest]|e]; [|done].
    rewrite !result_bind_Ok.
    rewrite (IH rest (fwrite buffer ofp));
      [|by rewrite fwrite_at_end|apply add32_int32..].
    rewrite (IH rest (fwrite buffer (Stream [] 0)));
      [|by rewrite fwrite_at_end|apply add32_int32..].
    destruct (cell_loop fuel rest (Stream [] 0) 0 0 0) as [[[[o n] v] t']|e]; [|done].
    rewrite !result_bind_Ok. unfold shift.
    rewrite !fwrite_at_end by done. cbn [bytes app].
    rewrite <- !app_assoc. f_equal. f_equal; [f_equal; [f_equal; lia|]|].
    + apply add32_assoc.
    + apply add32_assoc.
Qed.

Lemma cell_loop_int32 (fuel : nat) (fp : list Z) (ofp o : stream) (ns nv t n v t' : Z) :
  int32 nv -> int32 t ->
  cell_loop fuel fp ofp ns nv t = Ok (o, n, v, t') -> int32 v /\ int32 t'.
Proof.
  revert fp ofp ns nv t.
  induction fuel as [|fuel IH]; intros fp ofp ns nv t Hnv Ht; cbn [cell_loop].
  - by intros [= _ _ <- <-].
  - destruct fp as [|s fp]; [by intros [= _ _ <- <-]|].
    destruct (s >? 1); [|by apply IH].
    destruct (pack_segment s fp) as [[buffer rest]|e]; [|done].
    rewrite result_bind_Ok. apply IH; apply add32_int32.
Qed.

Lemma packed_cell_int32 (fp d : list Z) (n v : Z) :
  packed_cell fp = Ok (d, n, v) -> int32 v.
Proof.
  unfold packed_cell.
  destruct (cell_loop _ _ _ _ _ _) as [[[[o n'] v'] t']|e] eqn:Hloop; [|done].
  rewrite result_bind_Ok. intros [= _ _ <-].
  by apply cell_loop_int32 in Hloop as [? _]; [|apply int32_0..].
Qed.

Lemma cell_loop_same (fuel : nat) (fp : list Z) (ofp o : stream) (ns nv n v t' : Z) :
  cell_loop fuel fp ofp ns nv nv = Ok (o, n, v, t') -> t' = v.
Proof.
  revert fp ofp ns nv.
  induction fuel as [|fuel IH]; intros fp ofp ns nv; cbn [cell_loop].
  - by intros [= _ _ <- <-].
  - destruct fp as [|s fp]; [by intros [= _ _ <- <-]|].
    destruct (s >? 1); [|by apply IH].
    destruct (pack_segment s fp) as [[buffer rest]|e]; [|done].
    rewrite result_bind_Ok. apply IH.
Qed.

(** The cell loop on the file of the codec pass, by [packed_cell]. *)
Lemma cell_loop_packed (fp : list Z) (ofp : stream) (t : Z) :
  cursor ofp = Z.of_nat (length (bytes ofp)) -> int32 t ->
  match packed_cell fp with
  | Ok (d, n, v) =>
      exists t',
        cell_loop (length fp) fp ofp 0 0 t
          = Ok (Stream (bytes ofp ++ d) (Z.of_nat (length (bytes ofp ++ d))), n, v, t')
        /\ t' = add32 t v
  | Exit e => cell_loop (length fp) fp ofp 0 0 t = Exit e
  end.
Proof.
  intros Hcur Ht. unfold packed_cell.
  rewrite (cell_loop_shift _ _ ofp) by (done || apply int32_0).
  destruct (cell_loop _ _ (Stream [] 0) _ _ _) as [[[[o n] v] t']|e] eqn:Hloop; [|done].
  rewrite !result_bind_Ok. unfold shift.
  assert (t' = v) as ->.
  { by apply cell_loop_same in Hloop. }
  exists (add32 t v). split; [|done].
  apply cell_loop_int32 in Hloop as [Hv _]; [|apply int32_0..].
  by rewrite Z.add_0_l, add32_0_l.
Qed.
(** *** Byte buffers are determined by their bits *)

Lemma byte_high_bits (b k : Z) : 0 <= b < 256 -> 8 <= k -> Z.testbit b k = false.
Proof.
  intros Hb Hk. rewrite <- (Z.mod_small b (2 ^ 8)) by lia.
  apply Z.mod_pow2_bits_high. lia.
Qed.

Lemma byte_of_bits (b : Z) :
  0 <= b -> (forall k, 8 <= k -> Z.testbit b k = false) -> 0 <= b < 256.
Proof.
  intros Hb Hhigh. split; [done|].
  destruct (Z.eq_dec b 0) as [->|Hne]; [lia|].
  assert (Hlog : Z.log2 b < 8).
  { destruct (Z_lt_le_dec (Z.log2 b) 8) as [|Hge]; [done|].
    specialize (Hhigh (Z.log2 b) Hge).
    rewrite Z.bit_log2 in Hhigh by lia. done. }
  apply Z.log2_lt_pow2 in Hlog; lia.
Qed.

Lemma byte_setbit (b k : Z) : 0 <= b < 256 -> 0 <= k < 8 -> 0 <= Z.setbit b k < 256.
Proof.
  intros Hb Hk. apply byte_of_bits.
  - unfold Z.setbit. apply Z.lor_nonneg. split; [lia|].
    apply Z.shiftl_nonneg. lia.
  - intros m Hm. rewrite Z.setbit_neq by lia. by apply byte_high_bits.
Qed.

Lemma byte_clearbit (b k : Z) : 0 <= b < 256 -> 0 <= k < 8 -> 0 <= Z.clearbit b k < 256.
Proof.
  intros Hb Hk. apply byte_of_bits.
  - unfold Z.clearbit. apply Z.ldiff_nonneg. lia.
  - intros m Hm. rewrite Z.clearbit_neq by lia. by apply byte_high_bits.
Qed.

Lemma set_bit_bytes (buffer : list Z) (i : Z) (v : bool) :
  0 <= i -> Forall (fun b => 0 <= b < 256) buffer ->
  Forall (fun b => 0 <= b < 256) (set_bit buffer i v).
Proof.
  intros Hi Hbytes. unfold set_bit.
  destruct (buffer !! Z.to_nat (i / 8)) as [b|] eqn:Hb; [|done].
  apply Forall_insert; [done|].
  pose proof (Forall_lookup_1 _ _ _ _ Hbytes Hb) as Hbyte. cbv beta in Hbyte.
  pose proof (Z.mod_pos_bound i 8).
  destruct v; [apply byte_setbit|apply byte_clearbit]; lia.
Qed.

Lemma bit_pack_loop_bytes (k : nat) (buffer : list Z) (start value : Z) :
  0 <= start -> Forall (fun b => 0 <= b < 256) buffer ->
  Forall (fun b => 0 <= b < 256) (bit_pack_loop buffer start k value).
Proof.
  revert buffer start. induction k as [|k IH]; intros buffer start Hs Hbytes; [done|].
  cbn [bit_pack_loop]. apply IH; [lia|]. by apply set_bit_bytes.
Qed.

Lemma bit_pack_bytes (buffer : list Z) (start numbits value : Z) :
  0 <= start -> Forall (fun b => 0 <= b < 256) buffer ->
  Forall (fun b => 0 <= b < 256) (bit_pack buffer start numbits value).
Proof. apply bit_pack_loop_bytes. Qed.

Lemma bytes_eq_by_bits (l1 l2 : list Z) :
  length l1 = length l2 ->
  Forall (fun b => 0 <= b < 256) l1 -> Forall (fun b => 0 <= b < 256) l2 ->
  (forall i, 0 <= i < 8 * Z.of_nat (length l1) -> get_bit l1 i = get_bit l2 i) ->
  l1 = l2.
Proof.
  intros Hlen H1 H2 Hbits. apply list_eq_same_length with (length l1); [done..|].
  intros k b1 b2 Hk Hb1 Hb2.
  pose proof (Forall_lookup_1 _ _ _ _ H1 Hb1) as Hr1.
  pose proof (Forall_lookup_1 _ _ _ _ H2 Hb2) as Hr2. cbv beta in Hr1, Hr2.
  apply Z.bits_inj'. intros m Hm.
  destruct (Z_lt_le_dec m 8) as [Hlt|Hge]; [|by rewrite !byte_high_bits].
  specialize (Hbits (8 * Z.of_nat k + (7 - m))). unfold get_bit in Hbits.
  replace ((8 * Z.of_nat k + (7 - m)) / 8) with (Z.of_nat k) in Hbits
    by (apply (Z.div_unique _ _ _ (7 - m)); lia).
  replace ((8 * Z.of_nat k + (7 - m)) mod 8) with (7 - m) in Hbits
    by (apply (Z.mod_unique _ _ (Z.of_nat k)); lia).
  rewrite Nat2Z.id, Hb1, Hb2 in Hbits.
  replace (7 - (7 - m)) with m in Hbits by lia. apply Hbits. lia.
Qed.

(** *** The directory entry does not depend on what [head_buf] held *)

Lemma pack_header_unfold (head_buf : list Z) (a s v : Z) :
  pack_header head_buf a s v
    = bit_pack (bit_pack (bit_pack head_buf 0 32 a) 32 32 s) 64 32 v.
Proof. reflexivity. Qed.

Lemma pack_header_bytes (head_buf : list Z) (a s v : Z) :
  Forall (fun b => 0 <= b < 256) head_buf ->
  Forall (fun b => 0 <= b < 256) (pack_header head_buf a s v).
Proof.
  intros Hb. rewrite pack_header_unfold.
  repeat (apply bit_pack_bytes; [lia|]). done.
Qed.

Lemma get_bit_pack_header (head_buf : list Z) (a s v i : Z) :
  length head_buf = 12%nat -> 0 <= i < 96 ->
  get_bit (pack_header head_buf a s v) i =
    if i <? 32 then Z.testbit a (31 - i)
    else if i <? 64 then Z.testbit s (63 - i)
    else Z.testbit v (95 - i).
Proof.
  intros Hlen Hi. rewrite pack_header_unfold.
  rewrite !get_bit_bit_pack by (rewrite ?length_bit_pack, ?Hlen; lia).
  repeat match goal with
         | |- context [?x <? ?y] => destruct (Z.ltb_spec x y)
         | |- context [?x <=? ?y] => destruct (Z.leb_spec x y)
         end; cbn [andb]; try lia; f_equal; lia.
Qed.

Lemma pack_header_fresh (head_buf : list Z) (a s v : Z) :
  length head_buf = 12%nat -> Forall (fun b => 0 <= b < 256) head_buf ->
  pack_header head_buf a s v = pack_header (replicate 12 0) a s v.
Proof.
  intros Hlen Hb. apply bytes_eq_by_bits.
  - by rewrite !length_pack_header, Hlen.
  - by apply pack_header_bytes.
  - apply pack_header_bytes. apply Forall_replicate. lia.
  - intros i Hi. rewrite length_pack_header, Hlen in Hi.
    rewrite !get_bit_pack_header by (done || lia). done.
Qed.
(** *** The position of a cell in the order of the codec loops *)

Lemma rows_lookup (n k : nat) :
  (k < n * 360)%nat ->
  (seqZ 0 (Z.of_nat n) ≫= fun i => pair i <$> seqZ 0 360) !! k
    = Some (Z.of_nat k / 360, Z.of_nat k mod 360)
  /\ length (seqZ 0 (Z.of_nat n) ≫= fun i => pair i <$> seqZ 0 360) = (n * 360)%nat.
Proof.
  revert k. induction n as [|n IH]; intros k Hk; [lia|].
  assert (Hlen : length (seqZ 0 (Z.of_nat n) ≫= fun i => pair i <$> seqZ 0 360)
                 = (n * 360)%nat).
  { destruct n as [|n']; [done|]. apply (IH 0%nat). lia. }
  rewrite Nat2Z.inj_succ, <- Z.add_1_r, seqZ_app by lia.
  change (seqZ (0 + Z.of_nat n) 1) with [0 + Z.of_nat n].
  rewrite bind_app, bind_cons; cbn [mbind list_bind]; rewrite app_nil_r, Z.add_0_l.
  split.
  - destruct (decide (k < n * 360)%nat) as [Hlt|Hge].
    + rewrite lookup_app_l by lia. by apply IH.
    + rewrite lookup_app_r by lia. rewrite Hlen.
      rewrite list_lookup_fmap, lookup_seqZ_lt by lia. cbn [fmap option_fmap option_map].
      f_equal. f_equal.
      * apply (Z.div_unique _ _ _ (Z.of_nat k - 360 * Z.of_nat n)); lia.
      * rewrite Z.add_0_l. apply (Z.mod_unique _ _ (Z.of_nat n)); lia.
  - rewrite length_app, Hlen, length_fmap, length_seqZ. lia.
Qed.

Lemma grid_position (l1 l2 : list (Z * Z)) (i j : Z) :
  grid = l1 ++ (i, j) :: l2 ->
  Z.of_nat (length l1) = i * 360 + j /\ in_grid i j /\ (i, j) ∉ l1.
Proof.
  intros Hgrid.
  assert (Hin : in_grid i j).
  { apply elem_of_grid. rewrite Hgrid. apply elem_of_app. right. by left. }
  assert (Hnd : (i, j) ∉ l1).
  { pose proof NoDup_grid as Hnd. rewrite Hgrid in Hnd.
    apply NoDup_app in Hnd as (_ & Hnd & _). intros Hl1.
    apply (Hnd _ Hl1). by left. }
  split; [|done].
  assert (Hk : grid !! length l1 = Some (i, j)).
  { rewrite Hgrid. by rewrite list_lookup_middle. }
  assert (Hlt : (length l1 < 180 * 360)%nat).
  { apply lookup_lt_Some in Hk. unfold grid in Hk.
    change 180 with (Z.of_nat 180) in Hk.
    destruct (rows_lookup 180 0) as [_ Hlen]; [lia|]. by rewrite Hlen in Hk. }
  unfold grid in Hk. change 180 with (Z.of_nat 180) in Hk.
  destruct (rows_lookup 180 (length l1) Hlt) as [Hlook _].
  rewrite Hlook in Hk. injection Hk as <- <-.
  pose proof (Z.div_mod (Z.of_nat (length l1)) 360). lia.
Qed.

Lemma length_grid : Z.of_nat (length grid) = 64800.
Proof.
  destruct (rows_lookup 180 0) as [_ Hrows]; [lia|].
  unfold grid. change 180 with (Z.of_nat 180). rewrite Hrows.
  rewrite Nat2Z.inj_mul. reflexivity.
Qed.

Lemma seqZ_split (n k : Z) :
  0 <= k < n -> seqZ 0 n = seqZ 0 k ++ k :: seqZ (k + 1) (n - k - 1).
Proof.
  intros Hk. replace n with (k + (n - k)) at 1 by lia.
  rewrite seqZ_app by lia. rewrite (seqZ_cons (0 + k)) by lia.
  rewrite Z.add_0_l. do 2 f_equal; lia.
Qed.

(** The cells before a cell and after it, in the order of the loops. *)
Lemma grid_split (i j : Z) :
  in_grid i j -> exists l2, grid = cells_before i j ++ (i, j) :: l2.
Proof.
  intros [Hi Hj]. unfold grid, cells_before.
  assert (Hrow : pair i <$> seqZ 0 360
                 = (pair i <$> seqZ 0 j) ++ (i, j) :: (pair i <$> seqZ (j + 1) (360 - j - 1))).
  { rewrite (seqZ_split 360 j) by lia. by rewrite fmap_app. }
  rewrite (seqZ_split 180 i) by lia. rewrite bind_app, bind_cons.
  rewrite Hrow. eexists. rewrite <- !app_assoc. reflexivity.
Qed.

(** The lemmas above are what the rest needs of the order of the cells. *)
#[global] Opaque grid.
(** *** Loops with an invariant on the elements done *)

Lemma for_each_prefix {S A : Type} (I : list A -> S -> Prop)
    (body : A -> S -> result S) (l : list A) (s s' : S) :
  I [] s ->
  (forall l1 a l2 s s',
     l = l1 ++ a :: l2 -> I l1 s -> body a s = Ok s' -> I (l1 ++ [a]) s') ->
  for_each body l s = Ok s' -> I l s'.
Proof.
  intros Hstart Hstep.
  assert (Hgen : forall l2 l1 s, l = l1 ++ l2 -> I l1 s ->
                   for_each body l2 s = Ok s' -> I l s').
  { induction l2 as [|a l2 IH]; intros l1 s0 Hl Hs Hrun.
    - injection Hrun as <-. rewrite app_nil_r in Hl. by subst l1.
    - cbn [for_each] in Hrun. destruct (body a s0) as [s1|e] eqn:Ha; [|done].
      rewrite result_bind_Ok in Hrun.
      apply (IH (l1 ++ [a]) s1); [by rewrite <- app_assoc| |done].
      by apply (Hstep l1 a l2 s0). }
  by apply (Hgen l [] s).
Qed.

Lemma for_each_prefix_ok {S A : Type} (I : list A -> S -> Prop)
    (body : A -> S -> result S) (l : list A) (s : S) :
  I [] s ->
  (forall l1 a l2 s,
     l = l1 ++ a :: l2 -> I l1 s -> exists s', body a s = Ok s' /\ I (l1 ++ [a]) s') ->
  exists s', for_each body l s = Ok s' /\ I l s'.
Proof.
  intros Hstart Hstep.
  assert (Hgen : forall l2 l1 s, l = l1 ++ l2 -> I l1 s ->
                   exists s', for_each body l2 s = Ok s' /\ I l s').
  { induction l2 as [|a l2 IH]; intros l1 s0 Hl Hs.
    - exists s0. split; [done|]. rewrite app_nil_r in Hl. by subst l1.
    - cbn [for_each]. destruct (Hstep l1 a l2 s0 Hl Hs) as (s1 & -> & Hs1).
      rewrite result_bind_Ok. apply (IH (l1 ++ [a])); [by rewrite <- app_assoc|done]. }
  by apply (Hgen l [] s).
Qed.

(** *** A cell of the codec pass in closed form *)

Lemma fwrite_patch (h pre old post : list Z) (f : stream) :
  bytes f = pre ++ old ++ post -> cursor f = Z.of_nat (length pre) ->
  length old = length h ->
  bytes (fwrite h f) = pre ++ h ++ post.
Proof.
  intros Hb Hc Hlen. unfold fwrite. cbn [bytes]. rewrite Hc, Nat2Z.id, Hb.
  rewrite take_app_length.
  replace (length pre - length (pre ++ old ++ post))%nat with 0%nat
    by (rewrite !length_app; lia).
  cbn [replicate app]. rewrite <- Hlen.
  rewrite drop_app_ge by lia.
  replace (length pre + length old - length pre)%nat with (length old) by lia.
  by rewrite drop_app_length.
Qed.

Lemma codec_cell_eq (i j : Z) (st : codec_state) (fp : list Z) :
  cursor (ofp st) = Z.of_nat (length (bytes (ofp st))) ->
  int32 (packed_total st) ->
  cells st !! (j, i) = Some fp ->
  codec_cell i j st =
    match packed_cell fp with
    | Ok (d, n, v) =>
        let h := pack_header (head_buf st)
                   (wrap32 (Z.of_nat (length (bytes (ofp st))))) n v in
        Ok (Codec
              (fseek_end
                 (fwrite h
                    (fseek_set (header_offset i j)
                       (Stream (bytes (ofp st) ++ d)
                          (Z.of_nat (length (bytes (ofp st) ++ d)))))))
              (delete (j, i) (cells st)) h (add32 (packed_total st) v))
    | Exit e => Exit e
    end.
Proof.
  intros Hcur Ht Hfp. unfold codec_cell, codec_cell_fs. rewrite Hfp.
  pose proof (cell_loop_packed fp (ofp st) (packed_total st) Hcur Ht) as Hloop.
  destruct (packed_cell fp) as [[[d n] v]|e].
  - destruct Hloop as (t' & -> & ->). rewrite result_bind_Ok.
    unfold ftell. by rewrite Hcur.
  - by rewrite Hloop.
Qed.
(** *** The layout of the file is kept by every cell of the codec pass *)

Lemma file_layout_snoc (disk : gmap (Z * Z) (list Z)) (cs : list (Z * Z)) (c : Z * Z) :
  file_layout disk (cs ++ [c]) = layout_step disk (file_layout disk cs) c.
Proof. unfold file_layout. by rewrite foldl_app. Qed.

Lemma vertices_packed_snoc (disk : gmap (Z * Z) (list Z)) (cs : list (Z * Z))
    (c : Z * Z) :
  vertices_packed disk (cs ++ [c])
    = match disk !! (snd c, fst c) with
      | Some fp =>
          match packed_cell fp with
          | Ok (_, _, v) => add32 (vertices_packed disk cs) v
          | Exit _ => vertices_packed disk cs
          end
      | None => vertices_packed disk cs
      end.
Proof. unfold vertices_packed. by rewrite foldl_app. Qed.

Lemma vertices_packed_int32 (disk : gmap (Z * Z) (list Z)) (cs : list (Z * Z)) :
  int32 (vertices_packed disk cs).
Proof.
  induction cs as [|c cs IH] using rev_ind; [apply int32_0|].
  rewrite vertices_packed_snoc.
  destruct (disk !! (snd c, fst c)) as [fp|]; [|done].
  destruct (packed_cell fp) as [[[d n] v]|e]; [apply add32_int32|done].
Qed.

Lemma codec_layout_start (disk : gmap (Z * Z) (list Z)) (FILE_VERSION : list Z) :
  codec_layout disk (version_block FILE_VERSION) []
    (Codec (Stream (version_block FILE_VERSION ++ replicate (Z.to_nat 777600) 0) 777728)
       disk (replicate 12 0) 0).
Proof.
  unfold codec_layout. cbn [ofp bytes cursor head_buf packed_total cells length].
  cbn [file_layout foldl fst snd app].
  split; [by rewrite app_nil_r|]. split; [done|].
  split; [rewrite length_app, length_version_block, length_replicate; lia|].
  split; [done|]. split; [apply Forall_replicate; lia|]. split; [done|].
  split; [done|]. intros c Hc. by apply elem_of_nil in Hc.
Qed.

Lemma codec_layout_step (disk : gmap (Z * Z) (list Z)) (v : list Z)
    (l1 l2 : list (Z * Z)) (i j : Z) (st : codec_state) :
  length v = 128%nat -> grid = l1 ++ (i, j) :: l2 -> codec_layout disk v l1 st ->
  match disk !! (j, i) with
  | Some fp =>
      match packed_cell fp with
      | Ok _ =>
          exists st', codec_cell i j st = Ok st'
                      /\ codec_layout disk v (l1 ++ [(i, j)]) st'
      | Exit e => codec_cell i j st = Exit e
      end
  | None => codec_cell i j st = Ok st /\ codec_layout disk v (l1 ++ [(i, j)]) st
  end.
Proof.
  intros Hv Hgrid (Hbytes & Hdir & Hcur & Hhlen & Hhb & Htotal & Hrest & Hdone).
  apply grid_position in Hgrid as (Hk & Hg & Hnew).
  assert (Hcell : cells st !! (j, i) = disk !! (j, i)) by exact (Hrest (i, j) Hnew).
  assert (Hkeys : forall c : Z * Z, c <> (i, j) -> (snd c, fst c) <> (j, i)).
  { intros [a b] Hne [= -> ->]. done. }
  destruct Hg as [Hi Hj].
  assert (Hzeros : replicate (Z.to_nat (12 * (64800 - Z.of_nat (length l1)))) 0
                   = replicate 12 0
                     ++ replicate (Z.to_nat (12 * (64800 - Z.of_nat (length (l1 ++ [(i, j)]))))) 0).
  { rewrite <- replicate_add. f_equal. rewrite length_app. cbn [length]. lia. }
  destruct (disk !! (j, i)) as [fp|] eqn:Hdisk.
  - rewrite (codec_cell_eq i j st fp);
      [|done|rewrite Htotal; apply vertices_packed_int32|done].
    destruct (packed_cell fp) as [[[d n] vs]|e] eqn:Hpacked; [|done].
    eexists. split; [reflexivity|].
    unfold codec_layout.
    cbn [ofp bytes cursor head_buf packed_total cells fseek_end].
    rewrite file_layout_snoc, vertices_packed_snoc. unfold layout_step.
    cbn [fst snd]. rewrite Hdisk, Hpacked. cbn [fst snd].
    set (D := fst (file_layout disk l1)) in *.
    set (R := snd (file_layout disk l1)) in *.
    assert (Hlen : Z.of_nat (length (bytes (ofp st))) = header_size + Z.of_nat (length R)).
    { rewrite Hbytes, !length_app, length_replicate. unfold header_size. lia. }
    rewrite Hlen.
    rewrite (pack_header_fresh (head_buf st)) by done.
    set (h := pack_header (replicate 12 0) _ n vs).
    assert (Hh : length h = 12%nat) by (unfold h; by rewrite length_pack_header).
    assert (Hfile : bytes (fwrite h (fseek_set (header_offset i j)
                       (Stream (bytes (ofp st) ++ d)
                          (Z.of_nat (length (bytes (ofp st) ++ d))))))
                    = (v ++ D) ++ h
                      ++ replicate (Z.to_nat (12 * (64800 - Z.of_nat (length (l1 ++ [(i, j)]))))) 0
                      ++ R ++ d).
    { apply (fwrite_patch h (v ++ D) (replicate 12 0)).
      - cbn [fseek_set bytes]. rewrite Hbytes, Hzeros.
        by rewrite <- !app_assoc.
      - cbn [fseek_set cursor]. rewrite length_app. unfold header_offset. lia.
      - by rewrite Hh. }
    rewrite Hfile.
    split; [by rewrite <- !app_assoc|].
    split; [rewrite !length_app, Hh; cbn [length]; lia|].
    split; [done|]. split; [done|].
    split; [apply pack_header_bytes, Forall_replicate; lia|].
    split; [by rewrite Htotal|].
    split.
    + intros c Hc. rewrite lookup_delete_ne.
      * apply Hrest. intros Hin. apply Hc. apply elem_of_app. by left.
      * intros Heq. apply Hc. apply elem_of_app. right.
        destruct c as [a b]. injection Heq as -> ->. by left.
    + intros c [Hc|Hc]%elem_of_app.
      * destruct (decide ((j, i) = (snd c, fst c))) as [<-|Hne];
          [apply lookup_delete_eq|].
        rewrite lookup_delete_ne by done. by apply Hdone.
      * apply list_elem_of_singleton in Hc as ->. apply lookup_delete_eq.
  - split; [by apply codec_cell_none; rewrite Hcell|].
    unfold codec_layout.
    rewrite file_layout_snoc, vertices_packed_snoc. unfold layout_step.
    cbn [fst snd]. rewrite Hdisk. cbn [fst snd].
    split; [rewrite Hbytes, Hzeros; by rewrite <- !app_assoc|].
    split; [rewrite !length_app, length_replicate; cbn [length]; lia|].
    split; [done|]. split; [done|]. split; [done|]. split; [done|].
    split.
    + intros c Hc. apply Hrest. intros Hin. apply Hc. apply elem_of_app. by left.
    + intros c [Hc|Hc]%elem_of_app; [by apply Hdone|].
      apply list_elem_of_singleton in Hc as ->. cbn [fst snd]. by rewrite Hcell.
Qed.

(** *** The codec pass as a whole *)

Lemma codec_loop_layout (disk : gmap (Z * Z) (list Z)) (v : list Z)
    (st st' : codec_state) :
  length v = 128%nat -> codec_layout disk v [] st -> codec_loop st = Ok st' ->
  codec_layout disk v grid st'
  /\ forall i j fp, in_grid i j -> disk !! (j, i) = Some fp ->
       exists r, packed_cell fp = Ok r.
Proof.
  intros Hv Hstart. rewrite codec_loop_grid. intros Hrun.
  apply (for_each_prefix
           (fun done s =>
              codec_layout disk v done s
              /\ forall c fp, c ∈ done -> disk !! (snd c, fst c) = Some fp ->
                   exists r, packed_cell fp = Ok r)) in Hrun.
  - destruct Hrun as [Hlayout Hok]. split; [done|].
    intros i j fp Hg Hfp. apply (Hok (i, j)); [by apply elem_of_grid|done].
  - split; [done|]. intros c fp Hc. by apply elem_of_nil in Hc.
  - intros l1 [i j] l2 s s' Hgrid [Hlayout Hok] Hcell. cbn [fst snd] in Hcell.
    pose proof (codec_layout_step disk v l1 l2 i j s Hv Hgrid Hlayout) as Hstep.
    destruct (disk !! (j, i)) as [fp|] eqn:Hdisk.
    + destruct (packed_cell fp) as [r|e] eqn:Hpacked; [|congruence].
      destruct Hstep as (s1 & Hs1 & Hlayout1).
      assert (s1 = s') as -> by congruence.
      split; [done|]. intros c fp' [Hc|Hc]%elem_of_app; [by apply Hok|].
      apply list_elem_of_singleton in Hc as ->. cbn [fst snd].
      rewrite Hdisk. intros [= <-]. by exists r.
    + destruct Hstep as [Hs1 Hlayout1].
      assert (s = s') as -> by congruence.
      split; [done|]. intros c fp' [Hc|Hc]%elem_of_app; [by apply Hok|].
      apply list_elem_of_singleton in Hc as ->. cbn [fst snd]. by rewrite Hdisk.
Qed.

Lemma codec_loop_ok (disk : gmap (Z * Z) (list Z)) (v : list Z) (st : codec_state) :
  length v = 128%nat -> codec_layout disk v [] st ->
  (forall i j fp, in_grid i j -> disk !! (j, i) = Some fp ->
     exists r, packed_cell fp = Ok r) ->
  exists st', codec_loop st = Ok st'.
Proof.
  intros Hv Hstart Hok. rewrite codec_loop_grid.
  destruct (for_each_prefix_ok (codec_layout disk v)
              (fun c st => codec_cell (fst c) (snd c) st) grid st Hstart)
    as (st' & Hrun & _); [|by exists st'].
  intros l1 [i j] l2 s Hgrid Hlayout. cbn [fst snd].
  pose proof (codec_layout_step disk v l1 l2 i j s Hv Hgrid Hlayout) as Hstep.
  destruct (disk !! (j, i)) as [fp|] eqn:Hdisk.
  - destruct (Hok i j fp) as [r Hr]; [|done|].
    { by apply grid_position in Hgrid as (_ & Hg & _). }
    rewrite Hr in Hstep. done.
  - by exists s.
Qed.

Lemma codec_loop_exit (disk : gmap (Z * Z) (list Z)) (v : list Z) (st : codec_state)
    (e : fatal) :
  length v = 128%nat -> codec_layout disk v [] st -> codec_loop st = Exit e ->
  exists i j fp, in_grid i j /\ disk !! (j, i) = Some fp /\ packed_cell fp = Exit e.
Proof.
  intros Hv Hstart. rewrite codec_loop_grid.
  assert (Hgen : forall l2 l1 s, grid = l1 ++ l2 -> codec_layout disk v l1 s ->
            for_each (fun c st => codec_cell (fst c) (snd c) st) l2 s = Exit e ->
            exists i j fp,
              in_grid i j /\ disk !! (j, i) = Some fp /\ packed_cell fp = Exit e).
  { induction l2 as [|[i j] l2 IH]; intros l1 s Hgrid Hlayout Hrun; [done|].
    cbn [for_each fst snd] in Hrun.
    pose proof (codec_layout_step disk v l1 l2 i j s Hv Hgrid Hlayout) as Hstep.
    pose proof (grid_position _ _ _ _ Hgrid) as (_ & Hg & _).
    destruct (disk !! (j, i)) as [fp|] eqn:Hdisk.
    - destruct (packed_cell fp) as [r|e'] eqn:Hpacked.
      + destruct Hstep as (s1 & Hs1 & Hlayout1). rewrite Hs1, result_bind_Ok in Hrun.
        apply (IH (l1 ++ [(i, j)]) s1); [by rewrite <- app_assoc|done..].
      + rewrite Hstep in Hrun. injection Hrun as ->. by exists i, j, fp.
    - destruct Hstep as [Hs1 Hlayout1]. rewrite Hs1, result_bind_Ok in Hrun.
      apply (IH (l1 ++ [(i, j)]) s); [by rewrite <- app_assoc|done..]. }
  intros Hrun. exact (Hgen grid [] st (eq_sym (app_nil_l grid)) Hstart Hrun).
Qed.
(** *** The cell loop on a spool of whole segments *)

Lemma pack_segment_words (V : list (Z * Z)) (rest : list Z) :
  pack_segment (Z.of_nat (length V)) (vertex_words V ++ rest)
    = (b ← segment_buffer V; Ok (b, rest)).
Proof.
  unfold segment_buffer, pack_segment. rewrite Nat2Z.id.
  rewrite <- (app_nil_r (vertex_words V)) at 2.
  rewrite !(read_vertices_spec V [] [] _ _ _ 0) by done.
  cbn [mbind result_bind].
  by destruct (segment_layout _ _ _) as [l|].
Qed.

Lemma segment_buffer_exit (V : list (Z * Z)) (e : fatal) :
  segment_buffer V = Exit e -> e = LonBiasOutOfRange \/ e = LatBiasOutOfRange.
Proof.
  unfold segment_buffer, pack_segment. rewrite Nat2Z.id.
  rewrite <- (app_nil_r (vertex_words V)).
  rewrite (read_vertices_spec V [] [] _ _ _ 0) by done.
  cbn [mbind result_bind]. unfold segment_layout.
  repeat match goal with |- context [if ?b then _ else _] => destruct b end;
    cbn [mbind result_bind]; intros [= <-] || done; auto.
Qed.

Lemma segment_buffers_exit (segs : list (list (Z * Z))) (e : fatal) :
  segment_buffers segs = Exit e -> e = LonBiasOutOfRange \/ e = LatBiasOutOfRange.
Proof.
  induction segs as [|V segs IH]; [done|]. cbn [segment_buffers].
  destruct (segment_buffer V) as [b|e'] eqn:Hb.
  - rewrite result_bind_Ok. destruct (segment_buffers segs) as [bs|e'']; [done|].
    intros [= <-]. by apply IH.
  - intros [= <-]. by apply segment_buffer_exit in Hb.
Qed.

(** The vertex count the loop keeps for a list of segments. *)
Lemma total_vertices_cons (V : list (Z * Z)) (segs : list (list (Z * Z))) :
  total_vertices (V :: segs) = Z.of_nat (length V) + total_vertices segs.
Proof. done. Qed.

Lemma cell_loop_segments (segs : list (list (Z * Z))) (fuel : nat) (ofp : stream)
    (ns nv t : Z) :
  Forall (fun V => (2 <= length V)%nat) segs ->
  (length (flat_map spooled segs) <= fuel)%nat ->
  cursor ofp = Z.of_nat (length (bytes ofp)) -> int32 nv -> int32 t ->
  cell_loop fuel (flat_map spooled segs) ofp ns nv t
    = (bufs ← segment_buffers segs;
       Ok (Stream (bytes ofp ++ concat bufs)
             (Z.of_nat (length (bytes ofp ++ concat bufs))),
           ns + Z.of_nat (length segs),
           wrap32 (nv + total_vertices segs), wrap32 (t + total_vertices segs))).
Proof.
  intros Hsegs. revert fuel ofp ns nv t.
  induction Hsegs as [|V segs HV Hsegs IH]; intros fuel ofp ns nv t Hfuel Hcur Hnv Ht.
  - cbn [flat_map segment_buffers]. rewrite cell_loop_nil, result_bind_Ok.
    cbn [concat length total_vertices foldr].
    rewrite app_nil_r, !Z.add_0_r, !wrap32_id by done.
    destruct ofp as [b c]. cbn in Hcur. by subst c.
  - cbn [flat_map] in *. unfold spooled at 1. unfold spooled at 1 in Hfuel.
    rewrite length_app in Hfuel. cbn [length] in Hfuel.
    destruct fuel as [|fuel]; [lia|].
    cbn [app cell_loop segment_buffers].
    destruct (Z.gtb_spec (Z.of_nat (length V)) 1) as [_|]; [|lia].
    rewrite pack_segment_words.
    destruct (segment_buffer V) as [b|e]; [|done].
    rewrite !result_bind_Ok.
    rewrite IH; [|lia|by rewrite fwrite_at_end|apply add32_int32..].
    destruct (segment_buffers segs) as [bufs|e]; [|done].
    rewrite !result_bind_Ok. rewrite fwrite_at_end by done.
    cbn [bytes concat length]. rewrite <- !app_assoc, total_vertices_cons.
    unfold add32. rewrite !wrap32_add_l.
    rewrite Nat2Z.inj_succ, <- !Z.add_assoc.
    by replace (1 + Z.of_nat (length segs)) with (Z.succ (Z.of_nat (length segs))) by lia.
Qed.

Lemma wrap32_0 : wrap32 0 = 0.
Proof. done. Qed.

Lemma packed_cell_segments (segs : list (list (Z * Z))) :
  Forall (fun V => (2 <= length V)%nat) segs ->
  packed_cell (flat_map spooled segs)
    = (bufs ← segment_buffers segs;
       Ok (concat bufs, Z.of_nat (length segs), wrap32 (total_vertices segs))).
Proof.
  intros Hsegs. unfold packed_cell.
  rewrite cell_loop_segments; [|done|done|done|apply int32_0..].
  destruct (segment_buffers segs) as [bufs|e]; [|done].
  by rewrite !result_bind_Ok.
Qed.

(** X5: the cell loop on a spool of whole segments.  It packs the segments
    in their order, each into a buffer of its own that it appends to the
    output file, stops at the first segment one of whose biases is out of
    range and for no other reason, and adds the number of segments and, in
    32 bits, the number of vertices to the counts. *)
Theorem cell_loop_packs_in_order (segs : list (list (Z * Z))) (fuel : nat)
    (ofp : stream) (ns nv t : Z) :
  Forall (fun V => (2 <= length V)%nat) segs ->
  (length (flat_map spooled segs) <= fuel)%nat ->
  cursor ofp = Z.of_nat (length (bytes ofp)) -> int32 nv -> int32 t ->
  cell_loop fuel (flat_map spooled segs) ofp ns nv t
    = (bufs ← segment_buffers segs;
       Ok (Stream (bytes ofp ++ concat bufs)
             (Z.of_nat (length (bytes ofp ++ concat bufs))),
           ns + Z.of_nat (length segs),
           wrap32 (nv + total_vertices segs), wrap32 (t + total_vertices segs)))
  /\ (forall e, cell_loop fuel (flat_map spooled segs) ofp ns nv t = Exit e ->
        e = LonBiasOutOfRange \/ e = LatBiasOutOfRange).
Proof.
  intros Hsegs Hfuel Hcur Hnv Ht.
  pose proof (cell_loop_segments segs fuel ofp ns nv t Hsegs Hfuel Hcur Hnv Ht) as Hrun.
  split; [exact Hrun|]. intros e He. rewrite Hrun in He.
  destruct (segment_buffers segs) as [bufs|e'] eqn:Hbufs; [discriminate He|].
  injection He as ->. exact (segment_buffers_exit segs e Hbufs).
Qed.
(** ** The whole run *)

Lemma main_layout (dir : input_dir) (FILE_VERSION : list Z)
    (disk : gmap (Z * Z) (list Z)) (final : codec_state) :
  main dir FILE_VERSION disk = Ok final ->
  exists st,
    accumulate dir (acc_start disk) = Ok st
    /\ wf_spools (spools st)
    /\ codec_layout (spools st) (version_block FILE_VERSION) grid final
    /\ forall i j fp, in_grid i j -> spools st !! (j, i) = Some fp ->
         exists r, packed_cell fp = Ok r.
Proof.
  rewrite main_unfold. intros Hmain.
  apply result_bind_Ok_inv in Hmain as (st & Hacc & Hcodec).
  exists st. split; [done|].
  split; [apply (accumulate_spec _ _ _ Hacc), wf_spools_start|].
  rewrite codec_pass_start in Hcodec.
  by apply (codec_loop_layout (spools st) (version_block FILE_VERSION)) in Hcodec;
    [|apply length_version_block|apply codec_layout_start].
Qed.

Lemma main_ok (dir : input_dir) (FILE_VERSION : list Z)
    (disk : gmap (Z * Z) (list Z)) (st : acc_state) :
  accumulate dir (acc_start disk) = Ok st ->
  (forall i j fp, in_grid i j -> spools st !! (j, i) = Some fp ->
     exists r, packed_cell fp = Ok r) ->
  exists final, main dir FILE_VERSION disk = Ok final.
Proof.
  intros Hacc Hok. rewrite main_unfold, Hacc, result_bind_Ok, codec_pass_start.
  by apply (codec_loop_ok (spools st) (version_block FILE_VERSION));
    [apply length_version_block|apply codec_layout_start|].
Qed.

Lemma main_exit (dir : input_dir) (FILE_VERSION : list Z)
    (disk : gmap (Z * Z) (list Z)) (e : fatal) :
  main dir FILE_VERSION disk = Exit e ->
  accumulate dir (acc_start disk) = Exit e
  \/ exists st i j fp,
       accumulate dir (acc_start disk) = Ok st /\ wf_spools (spools st)
       /\ in_grid i j /\ spools st !! (j, i) = Some fp /\ packed_cell fp = Exit e.
Proof.
  rewrite main_unfold.
  destruct (accumulate dir (acc_start disk)) as [st|e'] eqn:Hacc.
  - rewrite result_bind_Ok, codec_pass_start. intros Hcodec. right.
    apply (codec_loop_exit (spools st) (version_block FILE_VERSION)) in Hcodec
      as (i & j & fp & Hg & Hfp & Hexit);
      [|apply length_version_block|apply codec_layout_start].
    exists st, i, j, fp. split; [done|].
    split; [apply (accumulate_spec _ _ _ Hacc), wf_spools_start|done].
  - intros [= <-]. by left.
Qed.

(** *** The directory and the packed region, cell by cell *)

Lemma layout_extends (disk : gmap (Z * Z) (list Z)) (l : list (Z * Z))
    (acc : list Z * list Z) :
  exists D R, foldl (layout_step disk) acc l = (fst acc ++ D, snd acc ++ R).
Proof.
  revert acc. induction l as [|c l IH]; intros acc.
  - exists [], []. cbn [foldl]. rewrite !app_nil_r. by destruct acc.
  - cbn [foldl]. destruct (IH (layout_step disk acc c)) as (D & R & ->).
    unfold layout_step.
    destruct (disk !! (snd c, fst c)) as [fp|].
    + destruct (packed_cell fp) as [[[d n] v]|e]; cbn [fst snd].
      * set (h := pack_header _ _ _ _).
        exists (h ++ D), (d ++ R). by rewrite !app_assoc.
      * by exists D, R.
    + cbn [fst snd]. exists (replicate 12 0 ++ D), R. by rewrite !app_assoc.
Qed.

Lemma file_layout_split (disk : gmap (Z * Z) (list Z)) (l1 l2 : list (Z * Z))
    (c : Z * Z) :
  exists D R,
    file_layout disk (l1 ++ c :: l2)
      = (fst (layout_step disk (file_layout disk l1) c) ++ D,
         snd (layout_step disk (file_layout disk l1) c) ++ R).
Proof.
  unfold file_layout. rewrite foldl_app. cbn [foldl]. apply layout_extends.
Qed.

Lemma length_directory (disk : gmap (Z * Z) (list Z)) (l : list (Z * Z)) :
  (forall c fp, c ∈ l -> disk !! (snd c, fst c) = Some fp ->
     exists r, packed_cell fp = Ok r) ->
  Z.of_nat (length (fst (file_layout disk l))) = 12 * Z.of_nat (length l).
Proof.
  induction l as [|c l IH] using rev_ind; intros Hok; [done|].
  rewrite file_layout_snoc, length_app. cbn [length].
  assert (IH' : Z.of_nat (length (fst (file_layout disk l))) = 12 * Z.of_nat (length l)).
  { apply IH. intros c' fp Hc'. apply Hok. apply elem_of_app. by left. }
  unfold layout_step. destruct (disk !! (snd c, fst c)) as [fp|] eqn:Hfp.
  - destruct (Hok c fp) as [[[d n] v] ->]; [apply elem_of_app; right; by left|done|].
    cbn [fst]. rewrite length_app, length_pack_header, length_replicate. lia.
  - cbn [fst]. rewrite length_app, length_replicate. lia.
Qed.

Lemma take_drop_middle_12 (pre e post : list Z) (p : nat) :
  p = length pre -> length e = 12%nat ->
  take 12 (drop p (pre ++ e ++ post)) = e.
Proof.
  intros -> He. rewrite drop_app_length. rewrite <- He. apply take_app_length.
Qed.

(** The entry and the packed segments of a cell in a file with the layout
    of [file_layout]: the address is the size of the header plus that of
    the segments of the cells before it. *)
Lemma layout_cell_at (disk : gmap (Z * Z) (list Z)) (v : list Z) (final : codec_state)
    (i j : Z) (l1 l2 : list (Z * Z)) :
  length v = 128%nat -> grid = l1 ++ (i, j) :: l2 ->
  (forall i j fp, in_grid i j -> disk !! (j, i) = Some fp ->
     exists r, packed_cell fp = Ok r) ->
  bytes (ofp final)
    = v ++ fst (file_layout disk grid) ++ snd (file_layout disk grid) ->
  match disk !! (j, i) with
  | None => entry final i j = (0, 0, 0)
  | Some fp =>
      exists (d : list Z) (n vs : Z),
        packed_cell fp = Ok (d, n, vs)
        /\ (let address :=
              header_size + Z.of_nat (length (snd (file_layout disk l1))) in
            entry final i j = (wrap32 address mod 2 ^ 32, n mod 2 ^ 32, vs mod 2 ^ 32)
            /\ address + Z.of_nat (length d) <= Z.of_nat (length (bytes (ofp final)))
            /\ take (length d) (drop (Z.to_nat address) (bytes (ofp final))) = d)
  end.
Proof.
  intros Hv Hgrid Hok Hbytes.
  pose proof (grid_position _ _ _ _ Hgrid) as (Hk & Hg & _).
  assert (Hall : forall c fp, c ∈ grid -> disk !! (snd c, fst c) = Some fp ->
                   exists r, packed_cell fp = Ok r).
  { intros [a b] fp Hc. apply Hok. by apply elem_of_grid. }
  assert (Hlen1 : Z.of_nat (length (fst (file_layout disk l1)))
                  = 12 * Z.of_nat (length l1)).
  { apply length_directory. intros c fp Hc. apply Hall. rewrite Hgrid.
    apply elem_of_app. by left. }
  assert (Hlen : Z.of_nat (length (fst (file_layout disk grid))) = 777600).
  { rewrite (length_directory disk grid Hall), length_grid. done. }
  rewrite Hgrid in Hbytes.
  destruct (file_layout_split disk l1 l2 (i, j)) as (D & R & Hsplit).
  rewrite Hgrid in Hlen. rewrite Hsplit in Hbytes, Hlen. clear Hsplit.
  unfold layout_step in Hbytes, Hlen. cbn [fst snd] in Hbytes, Hlen.
  set (D1 := fst (file_layout disk l1)) in *.
  set (R1 := snd (file_layout disk l1)) in *.
  unfold entry. destruct (disk !! (j, i)) as [fp|] eqn:Hfp.
  - destruct (Hok i j fp Hg Hfp) as [[[d n] vs] Hpacked].
    rewrite Hpacked in Hbytes, Hlen. cbn [fst snd] in Hbytes, Hlen.
    exists d, n, vs. split; [done|]. cbv zeta.
    set (e := pack_header (replicate 12 0)
                (wrap32 (header_size + Z.of_nat (length R1))) n vs) in *.
    assert (He : length e = 12%nat) by (unfold e; by rewrite length_pack_header).
    split; [|split].
    + erewrite read_header_take.
      2:{ rewrite Hbytes.
          replace (v ++ ((D1 ++ e) ++ D) ++ (R1 ++ d) ++ R)
            with ((v ++ D1) ++ e ++ (D ++ (R1 ++ d) ++ R))
            by (by rewrite <- !app_assoc).
          apply take_drop_middle_12; [|done].
          rewrite length_app. unfold header_offset. lia. }
      unfold e. by rewrite unpack_pack_header.
    + rewrite Hbytes, !length_app. rewrite !length_app in Hlen.
      unfold header_size. lia.
    + rewrite Hbytes.
      replace (v ++ ((D1 ++ e) ++ D) ++ (R1 ++ d) ++ R)
        with ((v ++ ((D1 ++ e) ++ D) ++ R1) ++ d ++ R)
        by (by rewrite <- !app_assoc).
      rewrite drop_app_length'.
      * apply take_app_length.
      * rewrite !length_app. rewrite !length_app in Hlen. unfold header_size. lia.
  - cbn [fst snd] in Hbytes.
    erewrite read_header_take.
    2:{ rewrite Hbytes.
        replace (v ++ ((D1 ++ replicate 12 0) ++ D) ++ R1 ++ R)
          with ((v ++ D1) ++ replicate 12 0 ++ (D ++ R1 ++ R))
          by (by rewrite <- !app_assoc).
        apply take_drop_middle_12; [|done].
        rewrite length_app. unfold header_offset. lia. }
    by rewrite !bit_unpack_zeros.
Qed.

Lemma layout_cell (disk : gmap (Z * Z) (list Z)) (v : list Z) (final : codec_state)
    (i j : Z) :
  length v = 128%nat -> in_grid i j ->
  (forall i j fp, in_grid i j -> disk !! (j, i) = Some fp ->
     exists r, packed_cell fp = Ok r) ->
  bytes (ofp final)
    = v ++ fst (file_layout disk grid) ++ snd (file_layout disk grid) ->
  match disk !! (j, i) with
  | None => entry final i j = (0, 0, 0)
  | Some fp =>
      exists (d : list Z) (n vs : Z) (before : list Z),
        packed_cell fp = Ok (d, n, vs)
        /\ (let address := header_size + Z.of_nat (length before) in
            entry final i j = (wrap32 address mod 2 ^ 32, n mod 2 ^ 32, vs mod 2 ^ 32)
            /\ address + Z.of_nat (length d) <= Z.of_nat (length (bytes (ofp final)))
            /\ take (length d) (drop (Z.to_nat address) (bytes (ofp final))) = d)
  end.
Proof.
  intros Hv Hg Hok Hbytes.
  pose proof Hg as Hin. apply elem_of_grid in Hin.
  apply list_elem_of_split in Hin as (l1 & l2 & Hgrid).
  pose proof (layout_cell_at disk v final i j l1 l2 Hv Hgrid Hok Hbytes) as Hcell.
  destruct (disk !! (j, i)) as [fp|]; [|exact Hcell].
  destruct Hcell as (d & n & vs & Hpacked & Hcell).
  exists d, n, vs, (snd (file_layout disk l1)). split; [exact Hpacked|exact Hcell].
Qed.
Lemma codec_layout_bytes (disk : gmap (Z * Z) (list Z)) (v : list Z)
    (final : codec_state) :
  codec_layout disk v grid final ->
  bytes (ofp final) = v ++ fst (file_layout disk grid) ++ snd (file_layout disk grid).
Proof.
  intros (Hbytes & _). rewrite Hbytes, length_grid.
  replace (Z.to_nat (12 * (64800 - 64800))) with 0%nat by reflexivity.
  reflexivity.
Qed.

(** X8: the output file is the version block, the directory and the packed
    region, in this order and with nothing else: the entries are those of
    the cells in the order of the grid, each with the address at which the
    segments of its cell start, and the packed region is the segments of
    the cells one after the other.  Seeking back to fill an entry
    overwrites nothing but the twelve bytes of that entry. *)
Theorem output_file_layout (dir : input_dir) (FILE_VERSION : list Z)
    (disk : gmap (Z * Z) (list Z)) (final : codec_state) :
  main dir FILE_VERSION disk = Ok final ->
  exists st,
    accumulate dir (acc_start disk) = Ok st
    /\ bytes (ofp final)
       = version_block FILE_VERSION
           ++ fst (file_layout (spools st) grid) ++ snd (file_layout (spools st) grid)
    /\ length (version_block FILE_VERSION) = 128%nat
    /\ Z.of_nat (length (fst (file_layout (spools st) grid))) = 777600
    /\ cursor (ofp final) = Z.of_nat (length (bytes (ofp final))).
Proof.
  intros (st & Hacc & _ & Hlayout & Hok)%main_layout.
  exists st. split; [exact Hacc|].
  split; [exact (codec_layout_bytes _ _ _ Hlayout)|].
  split; [apply length_version_block|].
  destruct Hlayout as (_ & Hdir & Hcur & _).
  rewrite Hdir, length_grid. split; [reflexivity|exact Hcur].
Qed.

(** X9: the segments of a cell are where its directory entry says.  For
    every cell with a spool, the bytes of the output file from the address
    of its entry are the buffers of its segments, in the order of the
    spool and whole, and the entry counts these segments and their
    vertices. *)
Theorem cell_segments_at_address (dir : input_dir) (FILE_VERSION : list Z)
    (disk : gmap (Z * Z) (list Z)) (final : codec_state) (st : acc_state)
    (i j : Z) (fp : list Z) :
  main dir FILE_VERSION disk = Ok final ->
  accumulate dir (acc_start disk) = Ok st ->
  in_grid i j -> spools st !! (j, i) = Some fp ->
  exists segs bufs address,
    fp = flat_map spooled segs
    /\ Forall (fun V => (2 <= length V)%nat) segs
    /\ segment_buffers segs = Ok bufs
    /\ header_size <= address
    /\ address + Z.of_nat (length (concat bufs)) <= Z.of_nat (length (bytes (ofp final)))
    /\ take (length (concat bufs)) (drop (Z.to_nat address) (bytes (ofp final)))
       = concat bufs
    /\ (address < 2 ^ 31 -> total_vertices segs < 2 ^ 31 ->
          entry final i j = (address, Z.of_nat (length segs), total_vertices segs)).
Proof.
  intros (st' & Hacc' & Hwf & Hlayout & Hok)%main_layout Hacc Hg Hfp.
  assert (st' = st) as -> by congruence.
  destruct (Hwf i j fp Hg Hfp) as (segs & -> & Hsegs).
  pose proof (layout_cell (spools st) (version_block FILE_VERSION) final i j
                (length_version_block _) Hg Hok (codec_layout_bytes _ _ _ Hlayout))
    as Hcell.
  rewrite Hfp in Hcell.
  destruct Hcell as (d & n & vs & before & Hpacked & Hentry & Hfit & Hdata).
  rewrite packed_cell_segments in Hpacked by done.
  destruct (segment_buffers segs) as [bufs|e] eqn:Hbufs; [|done].
  rewrite result_bind_Ok in Hpacked. injection Hpacked as <- <- <-.
  exists segs, bufs, (header_size + Z.of_nat (length before)).
  split; [done|]. split; [done|]. split; [done|]. split; [lia|].
  split; [done|]. split; [done|].
  intros Ha Ht. rewrite Hentry.
  pose proof (total_vertices_bound segs Hsegs).
  unfold header_size in *.
  rewrite (wrap32_id (total_vertices segs)) by (unfold int32; lia).
  rewrite wrap32_mod by lia.
  rewrite !Z.mod_small by lia. done.
Qed.

Lemma wrap32_congr (a b : Z) : a mod 2 ^ 32 = b mod 2 ^ 32 -> wrap32 a = wrap32 b.
Proof.
  intros Hab. unfold wrap32. f_equal.
  rewrite <- (Zplus_mod_idemp_l a), <- (Zplus_mod_idemp_l b). by rewrite Hab.
Qed.

Lemma wrap32_mod_eq (a : Z) : wrap32 a mod 2 ^ 32 = a mod 2 ^ 32.
Proof.
  unfold wrap32. rewrite Zminus_mod_idemp_l. f_equal. lia.
Qed.

(** *** The total of the packed vertices *)

Lemma foldr_sum_snoc {A : Type} (f : A -> Z) (l : list A) (a : A) :
  foldr (fun c s => f c + s) 0 (l ++ [a]) = foldr (fun c s => f c + s) 0 l + f a.
Proof.
  induction l as [|b l IH]; cbn [app foldr]; [lia|]. rewrite IH. lia.
Qed.

Lemma vertices_packed_sum (disk : gmap (Z * Z) (list Z)) (l : list (Z * Z)) :
  vertices_packed disk l = wrap32 (foldr (fun c s => cell_vertices disk c + s) 0 l).
Proof.
  induction l as [|c l IH] using rev_ind; [done|].
  rewrite vertices_packed_snoc, foldr_sum_snoc, IH. unfold cell_vertices.
  destruct (disk !! (snd c, fst c)) as [fp|]; [|by rewrite Z.add_0_r].
  destruct (packed_cell fp) as [[[d n] v]|e]; [|by rewrite Z.add_0_r].
  unfold add32. by rewrite wrap32_add_l.
Qed.

Lemma foldr_sum_mod {A : Type} (f g : A -> Z) (l : list A) :
  (forall a, a ∈ l -> f a = g a mod 2 ^ 32) ->
  foldr (fun c s => f c + s) 0 l mod 2 ^ 32
    = foldr (fun c s => g c + s) 0 l mod 2 ^ 32.
Proof.
  induction l as [|a l IH]; intros Hfg; [done|]. cbn [foldr].
  rewrite Z.add_mod, (Z.add_mod (g a)) by lia.
  rewrite IH by (intros b Hb; apply Hfg; by right).
  rewrite (Hfg a) by (by left). by rewrite Z.mod_mod by lia.
Qed.

(** X10: the total that the run prints at its end ("Total points packed")
    is the sum of the vertex counts of the directory it wrote, as a 32-bit
    integer. *)
Theorem total_is_directory_sum (dir : input_dir) (FILE_VERSION : list Z)
    (disk : gmap (Z * Z) (list Z)) (final : codec_state) :
  main dir FILE_VERSION disk = Ok final ->
  packed_total final = wrap32 (directory_vertices final).
Proof.
  intros (st & Hacc & Hwf & Hlayout & Hok)%main_layout.
  pose proof (codec_layout_bytes _ _ _ Hlayout) as Hbytes.
  destruct Hlayout as (_ & _ & _ & _ & _ & -> & _).
  rewrite vertices_packed_sum. apply wrap32_congr. symmetry.
  unfold directory_vertices. apply foldr_sum_mod.
  intros [i j] Hg%elem_of_grid. cbn [fst snd].
  pose proof (layout_cell (spools st) (version_block FILE_VERSION) final i j
                (length_version_block _) Hg Hok Hbytes) as Hcell.
  unfold cell_vertices. cbn [fst snd].
  destruct (spools st !! (j, i)) as [fp|].
  - destruct Hcell as (d & n & vs & before & -> & -> & _). reflexivity.
  - rewrite Hcell. reflexivity.
Qed.
(** ** The position of the output file when the codec pass reaches a cell *)

Lemma codec_prefix_layout (disk : gmap (Z * Z) (list Z)) (v : list Z)
    (l1 l2 : list (Z * Z)) (st mid : codec_state) :
  length v = 128%nat -> grid = l1 ++ l2 -> codec_layout disk v [] st ->
  for_each (fun c st => codec_cell (fst c) (snd c) st) l1 st = Ok mid ->
  codec_layout disk v l1 mid.
Proof.
  intros Hv Hgrid Hstart Hrun.
  apply (for_each_prefix (fun done s => codec_layout disk v done s)) in Hrun;
    [exact Hrun|exact Hstart|].
  intros a1 [i j] a2 s s' Hl1 Hlayout Hcell. cbn [fst snd] in Hcell.
  assert (Hsplit : grid = a1 ++ (i, j) :: (a2 ++ l2)).
  { rewrite Hgrid, Hl1. by rewrite <- app_assoc. }
  pose proof (codec_layout_step disk v a1 (a2 ++ l2) i j s Hv Hsplit Hlayout) as Hstep.
  destruct (disk !! (j, i)) as [fp|].
  - destruct (packed_cell fp) as [r|e]; [|congruence].
    destruct Hstep as (s1 & Hs1 & Hlayout1). congruence.
  - destruct Hstep as [Hs1 Hlayout1]. congruence.
Qed.

Lemma codec_reached_eq (FILE_VERSION : list Z) (disk : gmap (Z * Z) (list Z))
    (i j : Z) :
  codec_reached FILE_VERSION disk i j
    = for_each (fun c st => codec_cell (fst c) (snd c) st) (cells_before i j)
        (Codec (Stream (version_block FILE_VERSION ++ replicate (Z.to_nat 777600) 0) 777728)
           disk (replicate 12 0) 0).
Proof.
  unfold codec_reached. cbn zeta.
  rewrite fwrite_at_end by done. cbn [bytes app].
  rewrite length_version_block. change (Z.of_nat 128) with 128.
  rewrite (init_header_spec _ (length_version_block FILE_VERSION)).
  unfold cells_before. rewrite for_each_app, for_each_bind.
  rewrite (for_each_ext
             (fun i' s => for_each (fun c st => codec_cell (fst c) (snd c) st)
                            (pair i' <$> seqZ 0 360) s)
             (fun i' st => for_each (fun j' st => codec_cell i' j' st) (seqZ 0 360) st))
    by (intros i' s; by rewrite for_each_fmap).
  destruct (for_each _ (seqZ 0 i) _) as [st|e]; [|reflexivity].
  rewrite !result_bind_Ok. by rewrite for_each_fmap.
Qed.

(** The state in which a codec pass that returns reached a cell: the file
    is positioned at its end, which is the size of the header plus that of
    the segments of the cells before. *)
Lemma codec_reached_layout (FILE_VERSION : list Z) (disk : gmap (Z * Z) (list Z))
    (final : codec_state) (i j : Z) :
  in_grid i j -> codec_pass FILE_VERSION disk = Ok final ->
  exists reached l2,
    grid = cells_before i j ++ (i, j) :: l2
    /\ codec_reached FILE_VERSION disk i j = Ok reached
    /\ ftell (ofp reached) = Z.of_nat (length (bytes (ofp reached)))
    /\ ftell (ofp reached)
       = header_size + Z.of_nat (length (snd (file_layout disk (cells_before i j)))).
Proof.
  intros Hg Hpass. destruct (grid_split i j Hg) as [l2 Hgrid].
  rewrite codec_pass_start, codec_loop_grid, Hgrid, for_each_app in Hpass.
  rewrite codec_reached_eq.
  destruct (for_each _ (cells_before i j) _) as [reached|e] eqn:Hrun; [|discriminate Hpass].
  exists reached, l2. split; [exact Hgrid|]. split; [reflexivity|].
  apply (codec_prefix_layout disk (version_block FILE_VERSION) _ ((i, j) :: l2))
    in Hrun; [|apply length_version_block|exact Hgrid|apply codec_layout_start].
  destruct Hrun as (Hbytes & Hdir & Hcur & _).
  pose proof (grid_position _ _ _ _ Hgrid) as (Hk & [Hi Hj] & _).
  unfold ftell. split; [exact Hcur|].
  rewrite Hcur, Hbytes, !length_app, length_version_block, length_replicate.
  unfold header_size. lia.
Qed.
(** The directory after the two passes, for a cell of the grid, in terms
    of the spool the first pass left for it and of the state in which the
    codec pass reached the cell. *)
Lemma main_entry_reached (dir : input_dir) (FILE_VERSION : list Z)
    (disk : gmap (Z * Z) (list Z)) (final : codec_state) (i j : Z) :
  main dir FILE_VERSION disk = Ok final -> in_grid i j ->
  exists st,
    accumulate dir (acc_start disk) = Ok st
    /\ (forall lnh ln lth lt,
          ln ∈ lon_range lnh -> lt ∈ lat_range lth ->
          is_Some (find_dataset dir lnh ln lth lt) ->
          is_Some (spools st !! cell_of lnh ln lth lt))
    /\ cells final !! (j, i) = None
    /\ match spools st !! (j, i) with
       | None => entry final i j = (0, 0, 0)
       | Some fp =>
           exists segs reached,
             fp = flat_map spooled segs
             /\ Forall (fun V => (2 <= length V)%nat) segs
             /\ codec_reached FILE_VERSION (spools st) i j = Ok reached
             /\ ftell (ofp reached) = Z.of_nat (length (bytes (ofp reached)))
             /\ header_size <= ftell (ofp reached)
                <= Z.of_nat (length (bytes (ofp final)))
             /\ (ftell (ofp reached) < 2 ^ 31 -> total_vertices segs < 2 ^ 31 ->
                   entry final i j
                     = (ftell (ofp reached), Z.of_nat (length segs),
                        total_vertices segs))
       end.
Proof.
  intros Hmain Hg.
  pose proof Hmain as Hpass. rewrite main_unfold in Hpass.
  apply result_bind_Ok_inv in Hpass as (st & Hacc & Hpass).
  apply main_layout in Hmain as (st' & Hacc' & Hwf & Hlayout & Hok).
  assert (st' = st) as -> by congruence. clear Hacc'.
  exists st. split; [exact Hacc|].
  split; [exact (proj2 (accumulate_spec _ _ _ Hacc))|].
  split.
  { destruct Hlayout as (_ & _ & _ & _ & _ & _ & _ & Hdone).
    apply (Hdone (i, j)). by apply elem_of_grid. }
  destruct (codec_reached_layout FILE_VERSION (spools st) final i j Hg Hpass)
    as (reached & l2 & Hgrid & Hreached & Hcur & Hpos).
  pose proof (layout_cell_at (spools st) (version_block FILE_VERSION) final i j
                (cells_before i j) l2 (length_version_block _) Hgrid Hok
                (codec_layout_bytes _ _ _ Hlayout)) as Hcell.
  destruct (spools st !! (j, i)) as [fp|] eqn:Hfp; [|exact Hcell].
  destruct (Hwf i j fp Hg Hfp) as (segs & -> & Hsegs).
  destruct Hcell as (d & n & vs & Hpacked & Hentry & Hfit & _).
  rewrite packed_cell_segments in Hpacked by exact Hsegs.
  destruct (segment_buffers segs) as [bufs|e]; [|discriminate Hpacked].
  rewrite result_bind_Ok in Hpacked. injection Hpacked as <- <- <-.
  rewrite <- Hpos in Hentry, Hfit.
  exists segs, reached. split; [reflexivity|]. split; [exact Hsegs|].
  split; [exact Hreached|]. split; [exact Hcur|].
  split; [unfold header_size in *; lia|].
  intros Ha Ht. rewrite Hentry.
  pose proof (total_vertices_bound segs Hsegs).
  assert (header_size <= ftell (ofp reached)) by (unfold header_size in *; lia).
  unfold header_size in *.
  rewrite (wrap32_id (total_vertices segs)) by (unfold int32; lia).
  rewrite wrap32_mod by lia.
  rewrite !Z.mod_small by lia. reflexivity.
Qed.

(** C5, as amended: after a full run, a cell of the grid for which a spool
    file exists, be it empty, has in its directory entry the number of the
    segments spooled for it, the number of their vertices, and as address
    the position of the output file when the codec pass reached the cell,
    which is the end of the file then and the size of the header or more;
    a cell for which no spool file exists has an entry of zeros. *)
Theorem directory_entries (dir : input_dir) (FILE_VERSION : list Z)
    (disk : gmap (Z * Z) (list Z)) (final : codec_state) (i j : Z) :
  main dir FILE_VERSION disk = Ok final -> in_grid i j ->
  exists st,
    accumulate dir (acc_start disk) = Ok st
    /\ match spools st !! (j, i) with
       | None => entry final i j = (0, 0, 0)
       | Some fp =>
           exists segs reached,
             fp = flat_map spooled segs
             /\ Forall (fun V => (2 <= length V)%nat) segs
             /\ codec_reached FILE_VERSION (spools st) i j = Ok reached
             /\ ftell (ofp reached) = Z.of_nat (length (bytes (ofp reached)))
             /\ header_size <= ftell (ofp reached)
                <= Z.of_nat (length (bytes (ofp final)))
             /\ (ftell (ofp reached) < 2 ^ 31 -> total_vertices segs < 2 ^ 31 ->
                   entry final i j
                     = (ftell (ofp reached), Z.of_nat (length segs),
                        total_vertices segs))
       end.
Proof.
  intros Hmain Hg.
  destruct (main_entry_reached dir FILE_VERSION disk final i j Hmain Hg)
    as (st & Hacc & _ & _ & Hentry).
  exists st. split; [exact Hacc|exact Hentry].
Qed.

(** C10: the spool of every shape file that is found exists after the first
    pass, whatever the file holds; when it is empty the codec pass gives the
    cell a directory entry with zero segments, zero vertices and, as
    address, the position of the output file when it reached the cell, the
    end of the file, where the segments of the cell would go; the spool is
    removed. *)
Theorem empty_spool_is_packed (dir : input_dir) (FILE_VERSION : list Z)
    (disk : gmap (Z * Z) (list Z)) (final : codec_state)
    (lnh : bool) (ln : Z) (lth : bool) (lt : Z) :
  main dir FILE_VERSION disk = Ok final ->
  ln ∈ lon_range lnh -> lt ∈ lat_range lth ->
  is_Some (find_dataset dir lnh ln lth lt) ->
  let c := cell_of lnh ln lth lt in
  exists st,
    accumulate dir (acc_start disk) = Ok st
    /\ is_Some (spools st !! c)
    /\ (spools st !! c = Some [] ->
          exists reached,
            codec_reached FILE_VERSION (spools st) (snd c) (fst c) = Ok reached
            /\ ftell (ofp reached) = Z.of_nat (length (bytes (ofp reached)))
            /\ header_size <= ftell (ofp reached)
               <= Z.of_nat (length (bytes (ofp final)))
            /\ (ftell (ofp reached) < 2 ^ 31 ->
                  entry final (snd c) (fst c) = (ftell (ofp reached), 0, 0)))
    /\ cells final !! c = None.
Proof.
  intros Hmain Hln Hlt Hfind c.
  pose proof (cell_of_grid lnh ln lth lt Hln Hlt) as Hg. fold c in Hg.
  destruct (main_entry_reached dir FILE_VERSION disk final (snd c) (fst c) Hmain Hg)
    as (st & Hacc & Hsome & Hnone & Hentry).
  rewrite <- surjective_pairing in Hnone, Hentry.
  exists st. split; [exact Hacc|]. split; [by apply Hsome|]. split; [|exact Hnone].
  intros Hempty. rewrite Hempty in Hentry.
  destruct Hentry as (segs & reached & Hsegs & _ & Hreached & Hcur & Haddr & Hentry).
  exists reached. split; [exact Hreached|]. split; [exact Hcur|].
  split; [exact Haddr|]. intros Ha.
  destruct segs as [|V segs].
  - apply Hentry; [exact Ha|]. cbn. lia.
  - cbn [flat_map] in Hsegs. discriminate Hsegs.
Qed.
(** *** The run on three shape files side by side *)

Lemma accumulate_row_ex :
  accumulate ex_row_dir (acc_start ∅)
    = Ok (Acc ex_row_spools 0 [18225000; 18250000] [25000; 50000] false 9).
Proof. vm_compute. reflexivity. Qed.

Lemma ex_row_spools_packed (i j : Z) (fp : list Z) :
  ex_row_spools !! (j, i) = Some fp -> exists r, packed_cell fp = Ok r.
Proof.
  unfold ex_row_spools.
  intros [[_ <-]|[_ [[_ <-]|[_ [_ <-]%lookup_singleton_Some]]%lookup_insert_Some]]%lookup_insert_Some;
    vm_compute; eauto.
Qed.

Lemma main_row_ex : exists final, main ex_row_dir [] ∅ = Ok final.
Proof.
  apply (main_ok _ _ _ _ accumulate_row_ex).
  intros i j fp _. rewrite spools_Acc. apply ex_row_spools_packed.
Qed.

Lemma directory_entries_witness :
  exists final,
    main ex_row_dir [] ∅ = Ok final
    /\ exists st,
         accumulate ex_row_dir (acc_start ∅) = Ok st
         /\ match spools st !! (182, 0) with
            | None => entry final 0 182 = (0, 0, 0)
            | Some fp =>
                exists segs reached,
                  fp = flat_map spooled segs
                  /\ Forall (fun V => (2 <= length V)%nat) segs
                  /\ codec_reached [] (spools st) 0 182 = Ok reached
                  /\ ftell (ofp reached) = Z.of_nat (length (bytes (ofp reached)))
                  /\ header_size <= ftell (ofp reached)
                     <= Z.of_nat (length (bytes (ofp final)))
                  /\ (ftell (ofp reached) < 2 ^ 31 -> total_vertices segs < 2 ^ 31 ->
                        entry final 0 182
                          = (ftell (ofp reached), Z.of_nat (length segs),
                             total_vertices segs))
            end.
Proof.
  destruct main_row_ex as (final & Hmain). exists final. split; [exact Hmain|].
  apply (directory_entries ex_row_dir [] ∅ final 0 182 Hmain).
  unfold in_grid. lia.
Defined.

Lemma empty_spool_is_packed_witness :
  exists final,
    main ex_row_dir [] ∅ = Ok final
    /\ let c := cell_of true 1 false 90 in
       exists st,
         accumulate ex_row_dir (acc_start ∅) = Ok st
         /\ is_Some (spools st !! c)
         /\ (spools st !! c = Some [] ->
               exists reached,
                 codec_reached [] (spools st) (snd c) (fst c) = Ok reached
                 /\ ftell (ofp reached) = Z.of_nat (length (bytes (ofp reached)))
                 /\ header_size <= ftell (ofp reached)
                    <= Z.of_nat (length (bytes (ofp final)))
                 /\ (ftell (ofp reached) < 2 ^ 31 ->
                       entry final (snd c) (fst c) = (ftell (ofp reached), 0, 0)))
         /\ cells final !! c = None.
Proof.
  destruct main_row_ex as (final & Hmain). exists final. split; [exact Hmain|].
  apply (empty_spool_is_packed ex_row_dir [] ∅ final true 1 false 90 Hmain).
  - apply elem_of_seqZ. lia.
  - apply elem_of_seqZ. lia.
  - vm_compute. eauto.
Defined.

(** The directory of the run on [ex_row_dir]: the first cell has its two
    segments at the end of the header, the cell with the empty spool and
    the cell after it both have the address 28 bytes further, where the
    segment of the latter is. *)
Example row_directory :
  exists final,
    main ex_row_dir [] ∅ = Ok final
    /\ entry final 0 180 = (777728, 2, 5)
    /\ entry final 0 181 = (777756, 0, 0)
    /\ entry final 0 182 = (777756, 1, 2)
    /\ entry final 0 183 = (0, 0, 0).
Proof.
  destruct main_row_ex as (final & Hmain). exists final. split; [exact Hmain|].
  apply main_layout in Hmain as (st & Hacc & _ & Hlayout & Hok).
  rewrite accumulate_row_ex in Hacc. injection Hacc as <-.
  rewrite spools_Acc in Hlayout, Hok.
  pose proof (codec_layout_bytes _ _ _ Hlayout) as Hbytes.
  assert (Hcell : forall j, in_grid 0 j ->
            match ex_row_spools !! (j, 0) with
            | None => entry final 0 j = (0, 0, 0)
            | Some fp =>
                exists d n vs,
                  packed_cell fp = Ok (d, n, vs)
                  /\ entry final 0 j
                     = (wrap32 (header_size
                                + Z.of_nat (length (snd (file_layout ex_row_spools
                                                           (cells_before 0 j)))))
                          mod 2 ^ 32, n mod 2 ^ 32, vs mod 2 ^ 32)
            end).
  { intros j Hg. destruct (grid_split 0 j Hg) as [l2 Hgrid].
    pose proof (layout_cell_at ex_row_spools (version_block []) final 0 j
                  (cells_before 0 j) l2 (length_version_block _) Hgrid Hok Hbytes)
      as Hc.
    destruct (ex_row_spools !! (j, 0)) as [fp|]; [|exact Hc].
    destruct Hc as (d & n & vs & Hp & He & _). by exists d, n, vs. }
  assert (H180 : ex_row_spools !! (180, 0) = Some (flat_map spooled ex_ring_segments))
    by (vm_compute; reflexivity).
  assert (H181 : ex_row_spools !! (181, 0) = Some []) by (vm_compute; reflexivity).
  assert (H182 : ex_row_spools !! (182, 0)
                 = Some (spooled [(18225000, 25000); (18250000, 50000)]))
    by (vm_compute; reflexivity).
  assert (H183 : ex_row_spools !! (183, 0) = None) by (vm_compute; reflexivity).
  pose proof (Hcell 180 ltac:(unfold in_grid; lia)) as C180. rewrite H180 in C180.
  pose proof (Hcell 181 ltac:(unfold in_grid; lia)) as C181. rewrite H181 in C181.
  pose proof (Hcell 182 ltac:(unfold in_grid; lia)) as C182. rewrite H182 in C182.
  pose proof (Hcell 183 ltac:(unfold in_grid; lia)) as C183. rewrite H183 in C183.
  clear Hcell Hlayout Hok Hbytes.
  destruct C180 as (d0 & n0 & v0 & P0 & ->).
  destruct C181 as (d1 & n1 & v1 & P1 & ->).
  destruct C182 as (d2 & n2 & v2 & P2 & ->).
  vm_compute in P0. injection P0 as <- <- <-.
  vm_compute in P1. injection P1 as <- <- <-.
  vm_compute in P2. injection P2 as <- <- <-.
  split; [vm_compute; reflexivity|]. split; [vm_compute; reflexivity|].
  split; [vm_compute; reflexivity|exact C183].
Qed.
(** *** The files on disk after the run *)

Lemma accumulate_cell_frame (dir : input_dir) (lnh : bool) (ln : Z) (lth : bool)
    (lt : Z) (st st' : acc_state) (c : Z * Z) :
  accumulate_cell dir lnh ln lth lt st = Ok st' -> c <> cell_of lnh ln lth lt ->
  spools st' !! c = spools st !! c.
Proof.
  unfold accumulate_cell.
  destruct (find_dataset dir lnh ln lth lt) as [[ds [|shapes]]|]; [done| |].
  - intros [= <-] Hc. rewrite read_shapes_frame by done.
    rewrite spools_Acc. unfold open_append. by apply lookup_insert_ne.
  - by intros [= <-] _.
Qed.

Lemma accumulate_frame (dir : input_dir) (st st' : acc_state) (c : Z * Z) :
  accumulate dir st = Ok st' -> ~ in_grid (snd c) (fst c) ->
  spools st' !! c = spools st !! c.
Proof.
  rewrite accumulate_flat. intros Hrun Hc.
  eapply (for_each_inv (fun s => spools s !! c = spools st !! c));
    [|reflexivity|exact Hrun].
  intros [[[lnh ln] lth] lt] s s' Hin Hs Hcell. cbn [fst snd] in Hcell.
  apply elem_of_input_cells_inv in Hin as [Hln Hlt].
  rewrite <- Hs. apply (accumulate_cell_frame _ _ _ _ _ _ _ _ Hcell).
  intros ->. apply Hc. by apply cell_of_grid.
Qed.
(** *** The spool of a cell after the first pass *)

Lemma cell_of_inj (lnh lnh' : bool) (ln ln' : Z) (lth lth' : bool) (lt lt' : Z) :
  ln ∈ lon_range lnh -> lt ∈ lat_range lth ->
  ln' ∈ lon_range lnh' -> lt' ∈ lat_range lth' ->
  cell_of lnh ln lth lt = cell_of lnh' ln' lth' lt' ->
  (lnh, ln, lth, lt) = (lnh', ln', lth', lt').
Proof.
  intros Hln%elem_of_lon_range Hlt%elem_of_lat_range
         Hln'%elem_of_lon_range Hlt'%elem_of_lat_range.
  unfold cell_of. intros [= Hx Hy].
  destruct lnh, lnh', lth, lth'; try lia; repeat f_equal; lia.
Qed.

Lemma NoDup_lon_range (lnh : bool) : NoDup (lon_range lnh).
Proof. destruct lnh; apply NoDup_seqZ. Qed.

Lemma NoDup_lat_range (lth : bool) : NoDup (lat_range lth).
Proof. destruct lth; apply NoDup_seqZ. Qed.

Lemma NoDup_bools : NoDup [false; true].
Proof.
  apply NoDup_cons. split; [|apply NoDup_singleton].
  by intros ?%list_elem_of_singleton.
Qed.

Lemma NoDup_input_cells : NoDup input_cells.
Proof.
  unfold input_cells. apply NoDup_bind; [| |apply NoDup_bools].
  - intros lnh1 lnh2 c _ _ Hc1 Hc2.
    apply list_elem_of_bind in Hc1 as (ln1 & Hc1 & _).
    apply list_elem_of_bind in Hc1 as (lth1 & Hc1 & _).
    apply list_elem_of_fmap in Hc1 as (lt1 & -> & _).
    apply list_elem_of_bind in Hc2 as (ln2 & Hc2 & _).
    apply list_elem_of_bind in Hc2 as (lth2 & Hc2 & _).
    apply list_elem_of_fmap in Hc2 as (lt2 & [= -> _ _ _] & _). done.
  - intros lnh _. apply NoDup_bind; [| |apply NoDup_lon_range].
    + intros ln1 ln2 c _ _ Hc1 Hc2.
      apply list_elem_of_bind in Hc1 as (lth1 & Hc1 & _).
      apply list_elem_of_fmap in Hc1 as (lt1 & -> & _).
      apply list_elem_of_bind in Hc2 as (lth2 & Hc2 & _).
      apply list_elem_of_fmap in Hc2 as (lt2 & [= -> _ _] & _). done.
    + intros ln _. apply NoDup_bind; [| |apply NoDup_bools].
      * intros lth1 lth2 c _ _ Hc1 Hc2.
        apply list_elem_of_fmap in Hc1 as (lt1 & -> & _).
        apply list_elem_of_fmap in Hc2 as (lt2 & [= -> _] & _). done.
      * intros lth _. apply NoDup_fmap_2; [|apply NoDup_lat_range].
        by intros lt1 lt2 [= ->].
Qed.

(** The spool of the cell of a shape file after the first pass, in terms
    of what was under its name when the pass started. *)
Lemma accumulate_cell_spool (dir : input_dir) (st0 st : acc_state)
    (lnh : bool) (ln : Z) (lth : bool) (lt : Z) :
  accumulate dir st0 = Ok st ->
  ln ∈ lon_range lnh -> lt ∈ lat_range lth ->
  let fname := cell_of lnh ln lth lt in
  let cornerx := ((double_of_int (fst fname) * 3600)%float,
                  (double_of_int (fst fname + 1) * 3600)%float) in
  let cornery := ((double_of_int (snd fname) * 3600)%float,
                  (double_of_int (snd fname + 1) * 3600)%float) in
  match find_dataset dir lnh ln lth lt with
  | Some (ds, Shapes shapes) =>
      exists segs,
        spools st !! fname
          = Some (default [] (spools st0 !! fname) ++ flat_map spooled segs)
        /\ Forall (fun V => (2 <= length V)%nat
                            /\ Forall (kept_point cornerx cornery shapes) V) segs
  | Some (ds, Unreadable) => False
  | None => spools st !! fname = spools st0 !! fname
  end.
Proof.
  intros Hrun Hln Hlt fname cornerx cornery. rewrite accumulate_flat in Hrun.
  pose proof (elem_of_input_cells lnh ln lth lt Hln Hlt) as Hin.
  destruct (for_each_split _ _ _ _ _ Hin Hrun)
    as (l1 & l2 & s1 & s2 & Hsplit & Hrun1 & Hcell & Hrun2).
  cbn [fst snd] in Hcell.
  pose proof NoDup_input_cells as Hnd. rewrite Hsplit in Hnd.
  apply NoDup_app in Hnd as (_ & Hnot1 & Hnd).
  apply NoDup_cons in Hnd as [Hnot2 _].
  assert (Hother : forall c s s',
            c ∈ input_cells -> c <> (lnh, ln, lth, lt) ->
            accumulate_cell dir (fst (fst (fst c))) (snd (fst (fst c)))
              (snd (fst c)) (snd c) s = Ok s' ->
            spools s' !! fname = spools s !! fname).
  { intros [[[lnh' ln'] lth'] lt'] s s' [Hln' Hlt']%elem_of_input_cells_inv Hne Hc.
    cbn [fst snd] in Hc. apply (accumulate_cell_frame _ _ _ _ _ _ _ _ Hc).
    intros Heq. apply Hne. symmetry. by apply cell_of_inj. }
  assert (Hbefore : spools s1 !! fname = spools st0 !! fname).
  { eapply (for_each_inv (fun s => spools s !! fname = spools st0 !! fname));
      [|reflexivity|exact Hrun1].
    intros c s s' Hc Hs Hbody. rewrite <- Hs. apply (Hother c s s'); [| |done].
    - rewrite Hsplit. apply elem_of_app. by left.
    - intros ->. by apply (Hnot1 _ Hc); left. }
  assert (Hafter : spools st !! fname = spools s2 !! fname).
  { eapply (for_each_inv (fun s => spools s !! fname = spools s2 !! fname));
      [|reflexivity|exact Hrun2].
    intros c s s' Hc Hs Hbody. rewrite <- Hs. apply (Hother c s s'); [| |done].
    - rewrite Hsplit. apply elem_of_app. right. by right.
    - by intros ->. }
  rewrite Hafter. unfold accumulate_cell in Hcell.
  destruct (find_dataset dir lnh ln lth lt) as [[ds [|shapes]]|]; [done| |].
  - injection Hcell as <-. fold fname cornerx cornery.
    set (st1 := Acc (open_append fname (spools s1)) 0 (seg_x s1) (seg_y s1)
                  (bad_flag s1) (total s1)).
    assert (Hwf1 : acc_wf st1) by (unfold acc_wf, st1; cbn; lia).
    assert (Hsp1 : spools st1 !! fname = Some (default [] (spools st0 !! fname))).
    { unfold st1, open_append. rewrite spools_Acc, Hbefore. apply lookup_insert_eq. }
    destruct (read_shapes_spool fname cornerx cornery shapes st1 _ Hwf1 eq_refl Hsp1)
      as (segs & Hsp & Hsegs).
    by exists segs.
  - injection Hcell as <-. exact Hbefore.
Qed.

(** X12: what the first pass leaves in the spool of a cell.  When a shape
    file is read for a cell of the loops, the spool of the cell holds, at
    the end of the pass, whole segments of two vertices or more, and every
    vertex of them is the stored point of a vertex of that shape file that
    the boundary test kept; they come after what an earlier run left under
    the name when [remove] failed on it, and after nothing when [remove]
    worked or there was no such file.  The spool of a cell with no shape
    file is not touched: it is there only as such a left-over. *)
Theorem cell_spool_after_first_pass (stuck : Z * Z -> bool) (dir : input_dir)
    (disk : gmap (Z * Z) (list Z)) (st : acc_state)
    (lnh : bool) (ln : Z) (lth : bool) (lt : Z) :
  accumulate dir (acc_start_fs stuck disk) = Ok st ->
  ln ∈ lon_range lnh -> lt ∈ lat_range lth ->
  let fname := cell_of lnh ln lth lt in
  let cornerx := ((double_of_int (fst fname) * 3600)%float,
                  (double_of_int (fst fname + 1) * 3600)%float) in
  let cornery := ((double_of_int (snd fname) * 3600)%float,
                  (double_of_int (snd fname + 1) * 3600)%float) in
  let left_over := if stuck fname then disk !! fname else None in
  (forall ds shapes,
     find_dataset dir lnh ln lth lt = Some (ds, Shapes shapes) ->
     exists segs,
       spools st !! fname = Some (default [] left_over ++ flat_map spooled segs)
       /\ Forall (fun V => (2 <= length V)%nat
                           /\ Forall (kept_point cornerx cornery shapes) V) segs)
  /\ (find_dataset dir lnh ln lth lt = None -> spools st !! fname = left_over).
Proof.
  intros Hacc Hln Hlt fname cornerx cornery left_over.
  pose proof (accumulate_cell_spool dir _ st lnh ln lth lt Hacc Hln Hlt) as Hcell.
  cbv zeta in Hcell. fold fname cornerx cornery in Hcell.
  assert (Hstart : spools (acc_start_fs stuck disk) !! fname = left_over).
  { unfold acc_start_fs. rewrite spools_Acc. unfold left_over.
    destruct (stuck fname) eqn:Hs.
    - apply remove_old_cells_fs_keep. by right.
    - rewrite (surjective_pairing fname) in Hs |- *.
      apply remove_old_cells_fs_gone; [|exact Hs].
      exact (cell_of_grid lnh ln lth lt Hln Hlt). }
  rewrite Hstart in Hcell.
  split.
  - intros ds shapes Hfind. by rewrite Hfind in Hcell.
  - intros Hfind. by rewrite Hfind in Hcell.
Qed.
(** *** The files found on disk have no part in the run *)

Lemma for_each_same {S A : Type} (R : S -> S -> Prop) (body : A -> S -> result S)
    (l : list A) (s1 s2 : S) :
  (forall a x y, a ∈ l -> R x y -> same_result R (body a x) (body a y)) ->
  R s1 s2 -> same_result R (for_each body l s1) (for_each body l s2).
Proof.
  revert s1 s2. induction l as [|a l IH]; intros s1 s2 Hbody Hs; [done|].
  cbn [for_each]. pose proof (Hbody a s1 s2 (list_elem_of_here _ _) Hs) as Ha.
  destruct (body a s1) as [x|e1], (body a s2) as [y|e2]; try done.
  rewrite !result_bind_Ok. apply IH; [|done].
  intros b x' y' Hb. apply Hbody. by right.
Qed.

Lemma foldl_same {S A : Type} (R : S -> S -> Prop) (f : S -> A -> S) (l : list A)
    (s1 s2 : S) :
  (forall a x y, R x y -> R (f x a) (f y a)) ->
  R s1 s2 -> R (foldl f s1 l) (foldl f s2 l).
Proof.
  intros Hf. revert s1 s2. induction l as [|a l IH]; intros s1 s2 Hs; [done|].
  cbn [foldl]. apply IH. by apply Hf.
Qed.

Lemma close_segment_same (fname : Z * Z) (s1 s2 : acc_state) :
  same_acc s1 s2 -> same_spools (close_segment fname s1) (close_segment fname s2).
Proof.
  intros (Hn & Hx & Hy & _ & _ & Hsp). unfold close_segment.
  rewrite Hn, Hx, Hy. destruct (segCount s2 >? 1); [|done].
  intros c Hc. destruct (decide (c = fname)) as [->|Hne].
  - rewrite !lookup_alter_eq. by rewrite (Hsp fname Hc).
  - rewrite !lookup_alter_ne by done. by apply Hsp.
Qed.

Lemma vertex_step_same (fname : Z * Z) (cx cy : float * float) (shape : SHPObject)
    (s1 s2 : acc_state * Z) (j : Z) :
  same_acc (fst s1) (fst s2) /\ snd s1 = snd s2 ->
  same_acc (fst (vertex_step fname cx cy shape s1 j))
           (fst (vertex_step fname cx cy shape s2 j))
  /\ snd (vertex_step fname cx cy shape s1 j)
     = snd (vertex_step fname cx cy shape s2 j).
Proof.
  destruct s1 as [st1 np1], s2 as [st2 np2]. cbn [fst snd]. intros [Hsame <-].
  pose proof (close_segment_same fname st1 st2 Hsame) as Hclose.
  destruct Hsame as (Hn & Hx & Hy & Hb & Ht & Hsp).
  unfold vertex_step. rewrite Hb.
  destruct (start_flags shape j np1 (bad_flag st2)) as [[start bad] np'].
  destruct (on_boundary cx cy _ _).
  - cbn [fst snd]. unfold same_acc. cbn [segCount seg_x seg_y bad_flag total spools].
    done.
  - rewrite Hn, Hx, Hy, Ht. destruct start; cbn [fst snd]; unfold same_acc;
      cbn [segCount seg_x seg_y bad_flag total spools]; done.
Qed.

Lemma read_shape_same (fname : Z * Z) (cx cy : float * float) (shape : SHPObject)
    (s1 s2 : acc_state) :
  same_acc s1 s2 ->
  same_acc (read_shape fname cx cy s1 shape) (read_shape fname cx cy s2 shape).
Proof.
  intros Hsame. unfold read_shape.
  assert (Hstart : same_acc
            (Acc (spools s1) (segCount s1) (seg_x s1) (seg_y s1) (bad_flag s1)
               (add32 (total s1) (nVertices shape)))
            (Acc (spools s2) (segCount s2) (seg_x s2) (seg_y s2) (bad_flag s2)
               (add32 (total s2) (nVertices shape)))).
  { destruct Hsame as (Hn & Hx & Hy & Hb & Ht & Hsp). unfold same_acc.
    cbn [segCount seg_x seg_y bad_flag total spools]. by rewrite Ht. }
  destruct (nVertices shape >=? 2); [|done].
  apply (foldl_same (fun a b => same_acc (fst a) (fst b) /\ snd a = snd b)); [|done].
  intros j x y. apply vertex_step_same.
Qed.

Lemma read_shapes_same (fname : Z * Z) (cx cy : float * float)
    (shapes : list SHPObject) (s1 s2 : acc_state) :
  same_acc s1 s2 ->
  same_acc (read_shapes fname cx cy shapes s1) (read_shapes fname cx cy shapes s2).
Proof.
  intros Hsame. unfold read_shapes.
  set (r1 := foldl _ _ shapes). set (r2 := foldl _ _ shapes).
  assert (Hr : same_acc r1 r2).
  { apply foldl_same; [intros shape x y; apply read_shape_same|].
    destruct Hsame as (Hn & Hx & Hy & Hb & Ht & Hsp). unfold same_acc.
    cbn [segCount seg_x seg_y bad_flag total spools]. done. }
  pose proof (close_segment_same fname r1 r2 Hr) as Hclose.
  destruct Hr as (Hn & Hx & Hy & Hb & Ht & Hsp). rewrite Hn.
  destruct (segCount r2 >? 1); unfold same_acc;
    cbn [segCount seg_x seg_y bad_flag total spools]; done.
Qed.

Lemma accumulate_cell_same (dir : input_dir) (lnh : bool) (ln : Z) (lth : bool)
    (lt : Z) (s1 s2 : acc_state) :
  same_acc s1 s2 ->
  same_result same_acc (accumulate_cell dir lnh ln lth lt s1)
    (accumulate_cell dir lnh ln lth lt s2).
Proof.
  intros Hsame. unfold accumulate_cell.
  destruct (find_dataset dir lnh ln lth lt) as [[ds [|shapes]]|]; [done| |done].
  cbn [same_result]. apply read_shapes_same.
  destruct Hsame as (Hn & Hx & Hy & Hb & Ht & Hsp). unfold same_acc.
  cbn [segCount seg_x seg_y bad_flag total spools].
  split; [done|]. split; [done|]. split; [done|]. split; [done|]. split; [done|].
  intros c Hc. unfold open_append. destruct (decide (c = cell_of lnh ln lth lt)) as [->|Hne].
  - rewrite !lookup_insert_eq. by rewrite (Hsp _ Hc).
  - rewrite !lookup_insert_ne by done. by apply Hsp.
Qed.

Lemma accumulate_same (dir : input_dir) (s1 s2 : acc_state) :
  same_acc s1 s2 -> same_result same_acc (accumulate dir s1) (accumulate dir s2).
Proof.
  intros Hsame. rewrite !accumulate_flat. apply for_each_same; [|done].
  intros c x y _. apply accumulate_cell_same.
Qed.

Lemma codec_cell_same (i j : Z) (s1 s2 : codec_state) :
  in_grid i j -> same_codec s1 s2 ->
  same_result same_codec (codec_cell i j s1) (codec_cell i j s2).
Proof.
  intros Hg (Hofp & Hh & Ht & Hcells). unfold codec_cell, codec_cell_fs, remove, removes_all.
  rewrite <- (Hcells (j, i)) by exact Hg. rewrite <- Hofp, <- Hh, <- Ht.
  destruct (cells s1 !! (j, i)) as [fp|]; [|by cbn].
  destruct (cell_loop _ _ _ _ _ _) as [[[[o n] v] t]|e]; [|reflexivity].
  rewrite !result_bind_Ok. cbn [same_result]. unfold same_codec.
  cbn [ofp head_buf packed_total cells].
  split; [reflexivity|]. split; [reflexivity|]. split; [reflexivity|].
  intros c Hc. destruct (decide (c = (j, i))) as [->|Hne].
  - by rewrite !lookup_delete_eq.
  - rewrite !lookup_delete_ne by done. by apply Hcells.
Qed.

Lemma codec_loop_same (s1 s2 : codec_state) :
  same_codec s1 s2 -> same_result same_codec (codec_loop s1) (codec_loop s2).
Proof.
  intros Hsame. rewrite !codec_loop_grid. apply for_each_same; [|done].
  intros [i j] x y Hg%elem_of_grid. by apply codec_cell_same.
Qed.

Lemma result_bind_Exit {A B : Type} (k : A -> result B) (e : fatal) :
  (x ← Exit e; k x) = Exit e.
Proof. reflexivity. Qed.

Lemma same_acc_Acc (m1 m2 : gmap (Z * Z) (list Z)) (n : Z) (sx sy : list Z)
    (b : bool) (t : Z) :
  same_spools m1 m2 -> same_acc (Acc m1 n sx sy b t) (Acc m2 n sx sy b t).
Proof. intros Hsp. unfold same_acc. cbn. done. Qed.

Lemma same_codec_Codec (o : stream) (m1 m2 : gmap (Z * Z) (list Z)) (h : list Z)
    (t : Z) :
  same_spools m1 m2 -> same_codec (Codec o m1 h t) (Codec o m2 h t).
Proof. intros Hsp. unfold same_codec. cbn. done. Qed.

Lemma bind_same {S T : Type} (R : S -> S -> Prop) (Q : T -> T -> Prop)
    (r1 r2 : result S) (k : S -> result T) :
  same_result R r1 r2 ->
  (forall s1 s2, R s1 s2 -> same_result Q (k s1) (k s2)) ->
  same_result Q (r1 ≫= k) (r2 ≫= k).
Proof.
  intros Hr Hk. destruct r1 as [s1|e1], r2 as [s2|e2]; [|destruct Hr..|exact Hr].
  apply Hk, Hr.
Qed.

Lemma same_result_eq {S : Type} (R : S -> S -> Prop) (r1 r2 r1' r2' : result S) :
  r1 = r1' -> r2 = r2' -> same_result R r1' r2' -> same_result R r1 r2.
Proof. by intros -> ->. Qed.

Lemma codec_pass_same (FILE_VERSION : list Z) (m1 m2 : gmap (Z * Z) (list Z)) :
  same_spools m1 m2 ->
  same_result same_codec (codec_pass FILE_VERSION m1) (codec_pass FILE_VERSION m2).
Proof.
  intros Hsp.
  apply (same_result_eq _ _ _ _ _ (codec_pass_start FILE_VERSION m1)
           (codec_pass_start FILE_VERSION m2)).
  apply codec_loop_same, same_codec_Codec, Hsp.
Qed.

Lemma main_same (dir : input_dir) (FILE_VERSION : list Z)
    (disk1 disk2 : gmap (Z * Z) (list Z)) :
  same_result same_codec (main dir FILE_VERSION disk1) (main dir FILE_VERSION disk2).
Proof.
  apply (same_result_eq _ _ _ _ _ (main_unfold dir FILE_VERSION disk1)
           (main_unfold dir FILE_VERSION disk2)).
  apply (bind_same same_acc).
  - apply accumulate_same. unfold acc_start. apply same_acc_Acc.
    intros [j i] Hc. cbn [fst snd] in Hc. by rewrite !remove_old_cells_gone.
  - intros s1 s2 (_ & _ & _ & _ & _ & Hsp). by apply codec_pass_same.
Qed.
(** ** Runs in which [remove] can fail *)

Lemma lookup_remove (stuck : Z * Z -> bool) (c k : Z * Z)
    (m : gmap (Z * Z) (list Z)) :
  remove stuck c m !! k = if decide (k = c) then (if stuck c then m !! k else None)
                          else m !! k.
Proof.
  unfold remove. destruct (decide (k = c)) as [->|Hne], (stuck c); try done.
  - apply lookup_delete_eq.
  - by apply lookup_delete_ne.
Qed.

(** A cell of the codec pass does the same to the output file whether its
    spool can be removed afterwards or not. *)
Lemma codec_cell_fs_sim (stuck : Z * Z -> bool) (i j : Z) (s' s : codec_state) :
  ofp s' = ofp s -> head_buf s' = head_buf s -> packed_total s' = packed_total s ->
  cells s' !! (j, i) = cells s !! (j, i) ->
  match codec_cell i j s with
  | Ok t =>
      exists t',
        codec_cell_fs stuck i j s' = Ok t'
        /\ ofp t' = ofp t /\ head_buf t' = head_buf t
        /\ packed_total t' = packed_total t
        /\ (forall k, k <> (j, i) -> cells t' !! k = cells s' !! k)
        /\ (forall k, k <> (j, i) -> cells t !! k = cells s !! k)
        /\ cells t' !! (j, i) = (if stuck (j, i) then cells s' !! (j, i) else None)
  | Exit e => codec_cell_fs stuck i j s' = Exit e
  end.
Proof.
  intros Hofp Hh Ht Hcell. unfold codec_cell, codec_cell_fs.
  rewrite Hcell, Hofp, Hh, Ht.
  destruct (cells s !! (j, i)) as [fp|] eqn:Hfp.
  - destruct (cell_loop _ _ _ _ _ _) as [[[[o n] v] t]|e]; [|reflexivity].
    rewrite !result_bind_Ok. eexists. split; [reflexivity|].
    cbn [ofp head_buf packed_total cells].
    split; [reflexivity|]. split; [reflexivity|]. split; [reflexivity|].
    split; [|split].
    + intros k Hk. rewrite lookup_remove. by rewrite decide_False.
    + intros k Hk. rewrite lookup_remove. by rewrite decide_False.
    + rewrite lookup_remove, decide_True by done. by rewrite Hcell.
  - exists s'. split; [reflexivity|]. split; [exact Hofp|]. split; [exact Hh|].
    split; [exact Ht|]. split; [done|]. split; [done|].
    rewrite Hcell. by destruct (stuck (j, i)).
Qed.

(** So do the cells of a list without repetition: the two runs end in the
    same way and with the same output; a spool that could not be removed
    is left as it was. *)
Lemma codec_cells_fs_sim (stuck : Z * Z -> bool) (l : list (Z * Z)) :
  NoDup l -> forall s' s : codec_state,
  ofp s' = ofp s -> head_buf s' = head_buf s -> packed_total s' = packed_total s ->
  (forall c, c ∈ l -> cells s' !! (snd c, fst c) = cells s !! (snd c, fst c)) ->
  match for_each (fun c st => codec_cell (fst c) (snd c) st) l s with
  | Ok t =>
      exists t',
        for_each (fun c st => codec_cell_fs stuck (fst c) (snd c) st) l s' = Ok t'
        /\ ofp t' = ofp t /\ head_buf t' = head_buf t
        /\ packed_total t' = packed_total t
        /\ (forall k, (snd k, fst k) ∉ l -> cells t' !! k = cells s' !! k)
        /\ (forall k, (snd k, fst k) ∈ l ->
              cells t' !! k = (if stuck k then cells s' !! k else None))
  | Exit e =>
      for_each (fun c st => codec_cell_fs stuck (fst c) (snd c) st) l s' = Exit e
  end.
Proof.
  induction 1 as [|[i j] l Hnotin Hnd IH]; intros s' s Hofp Hh Ht Hcells.
  - cbn [for_each]. exists s'. split; [reflexivity|].
    split; [exact Hofp|]. split; [exact Hh|]. split; [exact Ht|].
    split; [done|]. intros k Hk. by apply elem_of_nil in Hk.
  - cbn [for_each fst snd].
    pose proof (codec_cell_fs_sim stuck i j s' s Hofp Hh Ht
                  (Hcells (i, j) (list_elem_of_here _ _))) as Hstep.
    destruct (codec_cell i j s) as [t1|e]; [|by rewrite Hstep].
    destruct Hstep as (t1' & -> & Hofp1 & Hh1 & Ht1 & Hother' & Hother & Hown).
    rewrite !result_bind_Ok.
    assert (Hkeys : forall c, c ∈ l -> (snd c, fst c) <> (j, i)).
    { intros [a b] Hc [= -> ->]. by apply Hnotin. }
    specialize (IH t1' t1 Hofp1 Hh1 Ht1).
    destruct (for_each _ l t1) as [t|e].
    + destruct IH as (t' & Hrun & Hofp2 & Hh2 & Ht2 & Hrest & Hdone).
      { intros c Hc. rewrite Hother', Hother by (by apply Hkeys).
        apply Hcells. by right. }
      exists t'. split; [exact Hrun|]. split; [exact Hofp2|]. split; [exact Hh2|].
      split; [exact Ht2|]. split.
      * intros k Hk. rewrite Hrest by (intros Hin; apply Hk; by right).
        apply Hother'. intros ->. apply Hk. by left.
      * intros k [Hk|Hk]%elem_of_cons.
        -- assert (k = (j, i)) as -> by (destruct k; by injection Hk as -> ->).
           rewrite Hrest by (cbn [fst snd]; exact Hnotin). exact Hown.
        -- rewrite (Hdone k Hk).
           rewrite Hother'; [done|]. intros ->. cbn [fst snd] in Hk. by apply Hnotin.
    + apply IH. intros c Hc. rewrite Hother', Hother by (by apply Hkeys).
      apply Hcells. by right.
Qed.

(** The codec pass with a [remove] that can fail, in terms of the pass
    with one that does not. *)
Lemma codec_loop_fs_sim (stuck : Z * Z -> bool) (s : codec_state)
    (m : gmap (Z * Z) (list Z)) :
  cells s = m ->
  match codec_loop s with
  | Ok t =>
      exists t',
        codec_loop_fs stuck s = Ok t'
        /\ ofp t' = ofp t /\ head_buf t' = head_buf t
        /\ packed_total t' = packed_total t
        /\ (forall i j, ~ in_grid i j -> cells t' !! (j, i) = m !! (j, i))
        /\ (forall i j, in_grid i j ->
              cells t' !! (j, i) = (if stuck (j, i) then m !! (j, i) else None))
  | Exit e => codec_loop_fs stuck s = Exit e
  end.
Proof.
  intros <-. rewrite codec_loop_grid, codec_loop_fs_grid.
  pose proof (codec_cells_fs_sim stuck grid NoDup_grid s s eq_refl eq_refl eq_refl
                (fun c _ => eq_refl)) as Hsim.
  destruct (for_each (fun c st => codec_cell (fst c) (snd c) st) grid s) as [t|e];
    [|exact Hsim].
  destruct Hsim as (t' & Hrun & Hofp & Hh & Ht & Hrest & Hdone).
  exists t'. split; [exact Hrun|]. split; [exact Hofp|]. split; [exact Hh|].
  split; [exact Ht|]. split.
  - intros i j Hout. apply Hrest. cbn [fst snd]. by rewrite elem_of_grid.
  - intros i j Hg. apply (Hdone (j, i)). cbn [fst snd]. by apply elem_of_grid.
Qed.

Lemma codec_pass_fs_sim (stuck : Z * Z -> bool) (FILE_VERSION : list Z)
    (m : gmap (Z * Z) (list Z)) :
  match codec_pass FILE_VERSION m with
  | Ok t =>
      exists t',
        codec_pass_fs stuck FILE_VERSION m = Ok t'
        /\ ofp t' = ofp t /\ head_buf t' = head_buf t
        /\ packed_total t' = packed_total t
        /\ (forall i j, ~ in_grid i j -> cells t' !! (j, i) = m !! (j, i))
        /\ (forall i j, in_grid i j ->
              cells t' !! (j, i) = (if stuck (j, i) then m !! (j, i) else None))
  | Exit e => codec_pass_fs stuck FILE_VERSION m = Exit e
  end.
Proof.
  rewrite codec_pass_start, codec_pass_fs_start.
  exact (codec_loop_fs_sim stuck _ m (cells_Codec _ _ _ _)).
Qed.

Lemma main_fs_unfold (stuck : Z * Z -> bool) (dir : input_dir) (FILE_VERSION : list Z)
    (disk : gmap (Z * Z) (list Z)) :
  main_fs stuck dir FILE_VERSION disk
    = (st ← accumulate dir (acc_start_fs stuck disk);
       codec_pass_fs stuck FILE_VERSION (spools st)).
Proof. unfold main_fs, acc_start_fs. reflexivity. Qed.

(** When no spool of the grid that is on disk resists [remove], the first
    pass starts as in a directory where every [remove] succeeds. *)
Lemma remove_old_cells_fs_clean (stuck : Z * Z -> bool) (disk : gmap (Z * Z) (list Z)) :
  stale_removable stuck disk -> remove_old_cells_fs stuck disk = remove_old_cells disk.
Proof.
  intros Hclean. apply map_eq. intros [j i].
  destruct (decide (0 <= i < 180 /\ 0 <= j < 360)) as [Hg|Hout].
  - rewrite remove_old_cells_gone by exact Hg.
    destruct (stuck (j, i)) eqn:Hs.
    + rewrite remove_old_cells_fs_keep by (by right).
      destruct (disk !! (j, i)) as [x|] eqn:Hx; [|done].
      rewrite (Hclean i j Hg) in Hs by (by rewrite Hx). discriminate Hs.
    + by apply remove_old_cells_fs_gone.
  - rewrite remove_old_cells_fs_keep by (by left).
    symmetry. by apply remove_old_cells_other.
Qed.

Lemma acc_start_fs_clean (stuck : Z * Z -> bool) (disk : gmap (Z * Z) (list Z)) :
  stale_removable stuck disk -> acc_start_fs stuck disk = acc_start disk.
Proof.
  intros Hclean. unfold acc_start_fs, acc_start.
  by rewrite remove_old_cells_fs_clean.
Qed.

Lemma same_result_refl {S : Type} (r : result S) : same_result eq r r.
Proof. by destruct r. Qed.

Lemma bind_same_2 {S T : Type} (R : S -> S -> Prop) (Q : T -> T -> Prop)
    (r1 r2 : result S) (k1 k2 : S -> result T) :
  same_result R r1 r2 ->
  (forall s1 s2, R s1 s2 -> same_result Q (k1 s1) (k2 s2)) ->
  same_result Q (r1 ≫= k1) (r2 ≫= k2).
Proof.
  intros Hr Hk. destruct r1 as [s1|e1], r2 as [s2|e2]; [|destruct Hr..|exact Hr].
  apply Hk, Hr.
Qed.

Lemma codec_pass_fs_same (stuck : Z * Z -> bool) (FILE_VERSION : list Z)
    (m : gmap (Z * Z) (list Z)) :
  same_result
    (fun f f' => ofp f' = ofp f /\ packed_total f' = packed_total f)
    (codec_pass FILE_VERSION m) (codec_pass_fs stuck FILE_VERSION m).
Proof.
  pose proof (codec_pass_fs_sim stuck FILE_VERSION m) as Hsim.
  destruct (codec_pass FILE_VERSION m) as [f|e].
  - destruct Hsim as (f' & -> & Hofp & _ & Ht & _). split; [exact Hofp|exact Ht].
  - rewrite Hsim. reflexivity.
Qed.

(** Then the run ends as in such a directory, and with the same output. *)
Lemma main_fs_same (stuck : Z * Z -> bool) (dir : input_dir) (FILE_VERSION : list Z)
    (disk : gmap (Z * Z) (list Z)) :
  stale_removable stuck disk ->
  same_result
    (fun f f' => ofp f' = ofp f /\ packed_total f' = packed_total f)
    (main dir FILE_VERSION disk) (main_fs stuck dir FILE_VERSION disk).
Proof.
  intros Hclean.
  assert (Hfs : main_fs stuck dir FILE_VERSION disk
                = (st ← accumulate dir (acc_start disk);
                   codec_pass_fs stuck FILE_VERSION (spools st))).
  { rewrite main_fs_unfold. by rewrite acc_start_fs_clean. }
  apply (same_result_eq _ _ _ _ _ (main_unfold dir FILE_VERSION disk) Hfs).
  apply (bind_same_2 eq); [apply same_result_refl|].
  intros s1 s2 <-. apply codec_pass_fs_same.
Qed.

(** X6: the reasons for which the run stops, when [remove] works on every
    spool that an earlier run left (or there is none) and what the first
    pass writes to a spool reaches it.  It stops in the first pass when a
    shape file does not open, or in the second on a spooled segment one of
    whose biases is out of range; the exit after a failed read of a spool
    ("this should never happen") is not taken, since the first pass writes
    whole segments only.  It is taken when a left-over spool that [remove]
    fails on is cut short ([run_reads_stuck_spool] below). *)
Theorem run_stops_for_three_reasons (stuck : Z * Z -> bool) (dir : input_dir)
    (FILE_VERSION : list Z) (disk : gmap (Z * Z) (list Z)) (e : fatal) :
  stale_removable stuck disk ->
  main_fs stuck dir FILE_VERSION disk = Exit e ->
  (e = ShapeOpenFailed
   /\ accumulate dir (acc_start_fs stuck disk) = Exit ShapeOpenFailed)
  \/ ((e = LonBiasOutOfRange \/ e = LatBiasOutOfRange)
      /\ exists st i j segs,
           accumulate dir (acc_start_fs stuck disk) = Ok st /\ in_grid i j
           /\ spools st !! (j, i) = Some (flat_map spooled segs)
           /\ segment_buffers segs = Exit e).
Proof.
  intros Hclean Hfs. rewrite acc_start_fs_clean by exact Hclean.
  pose proof (main_fs_same stuck dir FILE_VERSION disk Hclean) as Hsame.
  rewrite Hfs in Hsame.
  destruct (main dir FILE_VERSION disk) as [f|e'] eqn:Hmain; [destruct Hsame|].
  cbn [same_result] in Hsame. subst e'.
  apply main_exit in Hmain
    as [Hacc|(st & i & j & fp & Hacc & Hwf & Hg & Hfp & Hexit)].
  - left. destruct (accumulate_exit _ _ _ Hacc) as [-> _]. done.
  - right. destruct (Hwf i j fp Hg Hfp) as (segs & -> & Hsegs).
    rewrite packed_cell_segments in Hexit by done.
    destruct (segment_buffers segs) as [bufs|e'] eqn:Hbufs; [done|].
    injection Hexit as ->. split; [by apply segment_buffers_exit in Hbufs|].
    by exists st, i, j, segs.
Qed.

(** X13: the files found on disk at the start have no part in the run
    when [remove] works on those among them that are spools of the grid:
    whatever they are, and whether the spools of the run itself can be
    removed at its end or not, the run ends in the same way and, when it
    returns, with the same output file and the same total. *)
Theorem run_ignores_files_on_disk (stuck1 stuck2 : Z * Z -> bool) (dir : input_dir)
    (FILE_VERSION : list Z) (disk1 disk2 : gmap (Z * Z) (list Z)) :
  stale_removable stuck1 disk1 -> stale_removable stuck2 disk2 ->
  same_result
    (fun final1 final2 =>
       ofp final1 = ofp final2 /\ packed_total final1 = packed_total final2)
    (main_fs stuck1 dir FILE_VERSION disk1) (main_fs stuck2 dir FILE_VERSION disk2).
Proof.
  intros Hclean1 Hclean2.
  pose proof (main_fs_same stuck1 dir FILE_VERSION disk1 Hclean1) as H1.
  pose proof (main_fs_same stuck2 dir FILE_VERSION disk2 Hclean2) as H2.
  pose proof (main_same dir FILE_VERSION disk1 disk2) as Hsame.
  destruct (main dir FILE_VERSION disk1) as [f1|e1],
           (main dir FILE_VERSION disk2) as [f2|e2]; [|destruct Hsame..|].
  - destruct Hsame as (Hofp & _ & Ht & _).
    destruct (main_fs stuck1 dir FILE_VERSION disk1) as [g1|]; [|destruct H1].
    destruct (main_fs stuck2 dir FILE_VERSION disk2) as [g2|]; [|destruct H2].
    destruct H1 as [Ho1 Ht1], H2 as [Ho2 Ht2]. split; congruence.
  - destruct (main_fs stuck1 dir FILE_VERSION disk1) as [|g1]; [destruct H1|].
    destruct (main_fs stuck2 dir FILE_VERSION disk2) as [|g2]; [destruct H2|].
    cbn [same_result] in *. congruence.
Qed.

(** X11: what the run leaves of the files named as spools.  When it
    returns, the spool of a cell of the grid is gone if the system lets it
    be removed, and is left as the first pass made it if not; a file whose
    name is that of a spool with numbers outside the grid is as it was
    before the run. *)
Theorem spools_removed_files_kept (stuck : Z * Z -> bool) (dir : input_dir)
    (FILE_VERSION : list Z) (disk : gmap (Z * Z) (list Z)) (final : codec_state)
    (i j : Z) :
  main_fs stuck dir FILE_VERSION disk = Ok final ->
  exists st,
    accumulate dir (acc_start_fs stuck disk) = Ok st
    /\ (in_grid i j -> stuck (j, i) = false -> cells final !! (j, i) = None)
    /\ (in_grid i j -> stuck (j, i) = true ->
          cells final !! (j, i) = spools st !! (j, i))
    /\ (~ in_grid i j -> cells final !! (j, i) = disk !! (j, i)).
Proof.
  rewrite main_fs_unfold. intros Hmain.
  apply result_bind_Ok_inv in Hmain as (st & Hacc & Hpass).
  exists st. split; [exact Hacc|].
  pose proof (codec_pass_fs_sim stuck FILE_VERSION (spools st)) as Hsim.
  destruct (codec_pass FILE_VERSION (spools st)) as [f|e]; [|congruence].
  destruct Hsim as (f' & Hrun & _ & _ & _ & Hrest & Hdone).
  assert (f' = final) as -> by congruence.
  split; [|split].
  - intros Hg Hs. by rewrite (Hdone i j Hg), Hs.
  - intros Hg Hs. by rewrite (Hdone i j Hg), Hs.
  - intros Hout. rewrite (Hrest i j Hout).
    rewrite (accumulate_frame _ _ _ (j, i) Hacc) by done.
    unfold acc_start_fs. rewrite spools_Acc.
    apply remove_old_cells_fs_keep. by left.
Qed.
(** ** The directory before the codec loops *)

Lemma foldl_head_eq {A B : Type} (f : A -> B -> A) (x y : A) (a : B) (l : list B) :
  f x a = f y a -> foldl f x (a :: l) = foldl f y (a :: l).
Proof. intros Hxy. cbn [foldl]. by rewrite Hxy. Qed.

Lemma init_header_cell_fresh (i j : Z) (o : stream) (h : list Z) :
  length h = 12%nat -> Forall (fun b => 0 <= b < 256) h ->
  init_header_cell i j (o, h) = init_header_cell i j (o, replicate 12 0).
Proof.
  intros Hlen Hb. unfold init_header_cell. by rewrite (pack_header_fresh h).
Qed.

Lemma init_header_fresh (o : stream) (h : list Z) :
  length h = 12%nat -> Forall (fun b => 0 <= b < 256) h ->
  init_header (o, h) = init_header (o, replicate 12 0).
Proof.
  intros Hlen Hb. unfold init_header.
  rewrite (seqZ_cons 0 180) by lia. apply foldl_head_eq. cbv beta.
  rewrite (seqZ_cons 0 360) by lia. apply foldl_head_eq.
  by apply init_header_cell_fresh.
Qed.

(** X14: the directory that the codec pass starts from.  After lines
    543-571 the output file is the version block and 180 x 360 entries of
    zeros, 777728 bytes in all with the file position at their end,
    whatever the array [head_buf], to which [main] gives no first value,
    held. *)
Theorem header_initialised (v h : list Z) :
  length v = 128%nat -> length h = 12%nat -> Forall (fun b => 0 <= b < 256) h ->
  init_header (fwrite v (Stream [] 0), h)
    = (Stream (v ++ replicate (Z.to_nat 777600) 0) 777728, replicate 12 0)
  /\ forall i j, in_grid i j ->
       read_header (v ++ replicate (Z.to_nat 777600) 0) (header_offset i j) = (0, 0, 0).
Proof.
  intros Hv Hh Hb. split.
  - rewrite fwrite_at_end by done. cbn [bytes app]. rewrite Hv.
    change (Z.of_nat 128) with 128.
    rewrite init_header_fresh by done. by apply init_header_spec.
  - intros i j Hg. destruct (header_offset_grid i j Hg) as [Hlo Hhi].
    unfold header_size in Hhi. unfold read_header.
    rewrite drop_app_ge by lia. rewrite drop_replicate, take_replicate.
    by rewrite !bit_unpack_zeros.
Qed.

Lemma header_initialised_witness :
  init_header (fwrite (version_block [86; 49]) (Stream [] 0), replicate 12 255)
    = (Stream (version_block [86; 49] ++ replicate (Z.to_nat 777600) 0) 777728,
       replicate 12 0)
  /\ forall i j, in_grid i j ->
       read_header (version_block [86; 49] ++ replicate (Z.to_nat 777600) 0)
         (header_offset i j) = (0, 0, 0).
Proof.
  apply header_initialised.
  - apply length_version_block.
  - reflexivity.
  - apply Forall_replicate. lia.
Defined.

(** X15: the twelve bytes of a directory entry are made of the address and
    the two counts alone: the three fields cover the whole of [head_buf],
    so nothing of what the array held before reaches the file. *)
Theorem directory_entry_covers_head_buf (h1 h2 : list Z) (address num_segments
    num_vertices : Z) :
  length h1 = 12%nat -> Forall (fun b => 0 <= b < 256) h1 ->
  length h2 = 12%nat -> Forall (fun b => 0 <= b < 256) h2 ->
  pack_header h1 address num_segments num_vertices
    = pack_header h2 address num_segments num_vertices
  /\ length (pack_header h1 address num_segments num_vertices) = 12%nat
  /\ Forall (fun b => 0 <= b < 256) (pack_header h1 address num_segments num_vertices).
Proof.
  intros Hl1 Hb1 Hl2 Hb2.
  split; [by rewrite (pack_header_fresh h1), (pack_header_fresh h2)|].
  split; [by rewrite length_pack_header|by apply pack_header_bytes].
Qed.

Lemma directory_entry_covers_head_buf_witness :
  pack_header (replicate 12 255) 777728 2 5 = pack_header (replicate 12 0) 777728 2 5
  /\ length (pack_header (replicate 12 255) 777728 2 5) = 12%nat
  /\ Forall (fun b => 0 <= b < 256) (pack_header (replicate 12 255) 777728 2 5).
Proof.
  apply directory_entry_covers_head_buf;
    (reflexivity || (apply Forall_replicate; lia)).
Defined.
(** ** File names *)

Lemma str_eqb_eq (a b : list Ascii.ascii) : str_eqb a b = true <-> a = b.
Proof.
  revert b. induction a as [|x a IH]; intros [|y b]; cbn [str_eqb]; try done.
  rewrite andb_true_iff, Ascii.eqb_eq, IH. split.
  - by intros [-> ->].
  - by intros [= -> ->].
Qed.

Lemma digit_inj (a b : Z) : 0 <= a <= 9 -> 0 <= b <= 9 -> digit a = digit b -> a = b.
Proof.
  intros Ha Hb Hab. apply (f_equal Ascii.N_of_ascii) in Hab. unfold digit in Hab.
  rewrite !Ascii.N_ascii_embedding in Hab by lia. lia.
Qed.

(** The conversions [%03d] and [%02d] give three and two digits for the
    numbers that [main] prints. *)
Lemma fmt_03d (n : Z) :
  0 <= n < 1000 ->
  fmt_0d 3 n = [digit (n / 100); digit (n / 10 mod 10); digit (n mod 10)].
Proof.
  intros Hn.
  assert (Hall : forallb (fun n => str_eqb (fmt_0d 3 n)
                    [digit (n / 100); digit (n / 10 mod 10); digit (n mod 10)])
                   (seqZ 0 1000) = true) by (vm_compute; reflexivity).
  rewrite forallb_forall in Hall. apply str_eqb_eq, Hall.
  apply list_elem_of_In, elem_of_seqZ. lia.
Qed.

Lemma fmt_02d (n : Z) :
  0 <= n < 100 -> fmt_0d 2 n = [digit (n / 10); digit (n mod 10)].
Proof.
  intros Hn.
  assert (Hall : forallb (fun n => str_eqb (fmt_0d 2 n) [digit (n / 10); digit (n mod 10)])
                   (seqZ 0 100) = true) by (vm_compute; reflexivity).
  rewrite forallb_forall in Hall. apply str_eqb_eq, Hall.
  apply list_elem_of_In, elem_of_seqZ. lia.
Qed.

Lemma fmt_03d_inj (n m : Z) :
  0 <= n < 1000 -> 0 <= m < 1000 -> fmt_0d 3 n = fmt_0d 3 m -> n = m.
Proof.
  intros Hn Hm. rewrite !fmt_03d by done. intros [= H2 H1 H0].
  pose proof (Z.div_mod n 10). pose proof (Z.div_mod (n / 10) 10).
  pose proof (Z.div_mod m 10). pose proof (Z.div_mod (m / 10) 10).
  pose proof (Z.mod_pos_bound n 10). pose proof (Z.mod_pos_bound (n / 10) 10).
  pose proof (Z.mod_pos_bound m 10). pose proof (Z.mod_pos_bound (m / 10) 10).
  assert (Hn100 : n / 100 = n / 10 / 10) by (rewrite Z.div_div by lia; done).
  assert (Hm100 : m / 100 = m / 10 / 10) by (rewrite Z.div_div by lia; done).
  assert (0 <= n / 10 / 10 <= 9).
  { rewrite <- Hn100. split; [apply Z.div_pos; lia|].
    apply Z.lt_succ_r, Z.div_lt_upper_bound; lia. }
  assert (0 <= m / 10 / 10 <= 9).
  { rewrite <- Hm100. split; [apply Z.div_pos; lia|].
    apply Z.lt_succ_r, Z.div_lt_upper_bound; lia. }
  rewrite Hn100, Hm100 in H2.
  apply digit_inj in H2, H1, H0; lia.
Qed.

Lemma fmt_02d_inj (n m : Z) :
  0 <= n < 100 -> 0 <= m < 100 -> fmt_0d 2 n = fmt_0d 2 m -> n = m.
Proof.
  intros Hn Hm. rewrite !fmt_02d by done. intros [= H1 H0].
  pose proof (Z.div_mod n 10). pose proof (Z.div_mod m 10).
  pose proof (Z.mod_pos_bound n 10). pose proof (Z.mod_pos_bound m 10).
  assert (0 <= n / 10 <= 9).
  { split; [apply Z.div_pos; lia|]. apply Z.lt_succ_r, Z.div_lt_upper_bound; lia. }
  assert (0 <= m / 10 <= 9).
  { split; [apply Z.div_pos; lia|]. apply Z.lt_succ_r, Z.div_lt_upper_bound; lia. }
  apply digit_inj in H1, H0; lia.
Qed.

(** X16: the cells of the grid have spool files of their own: the names
    that [main] makes for two cells are twelve characters long and differ
    when the cells differ, so a spool holds the segments of one cell. *)
Theorem spool_names_distinct (i j i' j' : Z) :
  in_grid i j -> in_grid i' j' ->
  length (cell_name j i) = 12%nat
  /\ (cell_name j i = cell_name j' i' -> (j, i) = (j', i')).
Proof.
  intros [Hi Hj] [Hi' Hj']. unfold cell_name.
  split; [rewrite !fmt_03d by lia; reflexivity|].
  intros Heq.
  assert (Hparts : fmt_0d 3 j = fmt_0d 3 j' /\ fmt_0d 3 i = fmt_0d 3 i').
  { rewrite !fmt_03d in Heq by lia. rewrite !fmt_03d by lia.
    cbn in Heq. injection Heq as -> -> -> -> -> ->. done. }
  destruct Hparts as [Hjj Hii].
  apply fmt_03d_inj in Hjj, Hii; [|lia..]. by subst.
Qed.

Lemma spool_names_distinct_witness :
  length (cell_name 359 179) = 12%nat
  /\ (cell_name 359 179 = cell_name 0 0 -> (359, 179) = (0, 0)).
Proof. apply (spool_names_distinct 179 359 0 0); unfold in_grid; lia. Defined.

Lemma dataset_inj (a b : Z) : 0 <= a < 6 -> 0 <= b < 6 -> dataset a = dataset b -> a = b.
Proof.
  intros Ha Hb.
  assert (Ha' : a = 0 \/ a = 1 \/ a = 2 \/ a = 3 \/ a = 4 \/ a = 5) by lia.
  assert (Hb' : b = 0 \/ b = 1 \/ b = 2 \/ b = 3 \/ b = 4 \/ b = 5) by lia.
  destruct Ha' as [->|[->|[->|[->|[->| ->]]]]],
           Hb' as [->|[->|[->|[->|[->| ->]]]]]; vm_compute; congruence.
Qed.

(** X17: the shape files of the loops have names of their own: two of the
    names that [main] tries in a directory are the same only for the same
    hemispheres, longitude, latitude and data set letter. *)
Theorem shape_names_distinct (dirname : list Ascii.ascii) (lnh lnh' : bool)
    (ln ln' : Z) (lth lth' : bool) (lt lt' ds ds' : Z) :
  ln ∈ lon_range lnh -> lt ∈ lat_range lth -> 0 <= ds < 6 ->
  ln' ∈ lon_range lnh' -> lt' ∈ lat_range lth' -> 0 <= ds' < 6 ->
  shp_name dirname lnh ln lth lt ds = shp_name dirname lnh' ln' lth' lt' ds' ->
  (lnh, ln, lth, lt, ds) = (lnh', ln', lth', lt', ds').
Proof.
  intros Hln%elem_of_lon_range Hlt%elem_of_lat_range Hds
         Hln'%elem_of_lon_range Hlt'%elem_of_lat_range Hds'.
  assert (0 <= ln < 1000) by (destruct lnh; lia).
  assert (0 <= ln' < 1000) by (destruct lnh'; lia).
  assert (0 <= lt < 100) by (destruct lth; lia).
  assert (0 <= lt' < 100) by (destruct lth'; lia).
  unfold shp_name. intros Heq%app_inv_head.
  assert (Hparts : lnh = lnh' /\ fmt_0d 3 ln = fmt_0d 3 ln' /\ lth = lth'
                   /\ fmt_0d 2 lt = fmt_0d 2 lt' /\ dataset ds = dataset ds').
  { rewrite !fmt_03d, !fmt_02d in Heq by lia. rewrite !fmt_03d, !fmt_02d by lia.
    cbn in Heq. injection Heq as Hh -> -> -> Hl -> -> ->.
    split; [by destruct lnh, lnh'|]. split; [done|].
    split; [by destruct lth, lth'|]. done. }
  destruct Hparts as (-> & Hl3 & -> & Hl2 & Hd).
  apply fmt_03d_inj in Hl3; [|lia..]. apply fmt_02d_inj in Hl2; [|lia..].
  apply dataset_inj in Hd; [|lia..]. by subst.
Qed.

Lemma shape_names_distinct_witness :
  shp_name (str "/data/SWBD") false 1 true 0 3
    <> shp_name (str "/data/SWBD") true 1 true 0 3.
Proof.
  intros Heq. apply shape_names_distinct in Heq;
    [discriminate Heq|try (apply elem_of_seqZ; lia); lia..].
Defined.

Example shape_name_example :
  shp_name (str "/data/SWBD") false 1 true 0 3 = str "/data/SWBD/w001n00i.shp".
Proof. reflexivity. Qed.

(** X18: the name of the output file always ends in ".ccl": a name that
    has the extension is kept as it is, any other name gets it added, and
    the name made is kept when it is given again. *)
Theorem output_name_extension (arg name : list Ascii.ascii) :
  output_name arg = Some name ->
  (exists stem, name = stem ++ str ".ccl")
  /\ ((exists stem, arg = stem ++ str ".ccl") -> name = arg)
  /\ (~ (exists stem, arg = stem ++ str ".ccl") -> name = arg ++ str ".ccl")
  /\ output_name name = Some name.
Proof.
  unfold output_name. cbv zeta.
  destruct (Nat.ltb_spec (length arg) 4) as [|Hlo]; [done|].
  destruct (Nat.leb_spec 512 (length arg)) as [|Hhi]; [done|]. cbn [orb].
  assert (Hends : forall l : list Ascii.ascii,
            (4 <= length l)%nat ->
            str_eqb (drop (length l - 4) l) (str ".ccl") = true
            <-> exists stem, l = stem ++ str ".ccl").
  { intros l Hl. rewrite str_eqb_eq. split.
    - intros Hd. exists (take (length l - 4) l).
      by rewrite <- Hd, take_drop.
    - intros [stem ->]. rewrite length_app.
      replace (length stem + length (str ".ccl") - 4)%nat with (length stem)
        by (cbn; lia).
      apply drop_app_length. }
  destruct (str_eqb (drop (length arg - 4) arg) (str ".ccl")) eqn:Hcmp; cbn [negb].
  - intros [= <-]. apply Hends in Hcmp as Hstem; [|done].
    split; [done|]. split; [done|]. split; [by intros []|].
    destruct (Nat.ltb_spec (length arg) 4); [lia|].
    destruct (Nat.leb_spec 512 (length arg)); [lia|]. cbn [orb].
    by rewrite Hcmp.
  - destruct (Nat.leb_spec 512 (length arg + 4)) as [|Hfit]; [done|].
    intros [= <-].
    assert (Hno : ~ exists stem, arg = stem ++ str ".ccl").
    { intros Hstem. apply Hends in Hstem; [congruence|done]. }
    split; [by exists arg|]. split; [done|]. split; [done|].
    rewrite length_app. cbn [length].
    destruct (Nat.ltb_spec (length arg + 4) 4); [lia|].
    destruct (Nat.leb_spec 512 (length arg + 4)); [lia|]. cbn [orb].
    replace (length arg + 4 - 4)%nat with (length arg) by lia.
    rewrite drop_app_length. by cbn.
Qed.

Lemma output_name_extension_witness :
  (exists stem, str "coast_swbd.ccl" = stem ++ str ".ccl")
  /\ ((exists stem, str "coast_swbd" = stem ++ str ".ccl")
      -> str "coast_swbd.ccl" = str "coast_swbd")
  /\ (~ (exists stem, str "coast_swbd" = stem ++ str ".ccl")
      -> str "coast_swbd.ccl" = str "coast_swbd" ++ str ".ccl")
  /\ output_name (str "coast_swbd.ccl") = Some (str "coast_swbd.ccl").
Proof. apply (output_name_extension (str "coast_swbd")). reflexivity. Defined.

Example output_name_short : output_name (str "abc") = None.
Proof. reflexivity. Qed.
(** ** The statements above on the example directories *)

Lemma accumulate_ring_ex :
  accumulate ex_ring_dir (acc_start ∅)
    = Ok (Acc {[ (180, 0) := flat_map spooled ex_ring_segments ]} 0
            [18075000; 18087500] [75000; 87500] false 7).
Proof. vm_compute. reflexivity. Qed.

Lemma main_ring_ex : exists final, main ex_ring_dir [] ∅ = Ok final.
Proof.
  apply (main_ok _ _ _ _ accumulate_ring_ex).
  intros i j fp Hg. rewrite spools_Acc.
  intros [_ <-]%lookup_singleton_Some. vm_compute. eauto.
Qed.

Lemma main_ring_any_disk (disk : gmap (Z * Z) (list Z)) :
  exists final, main ex_ring_dir [] disk = Ok final.
Proof.
  destruct main_ring_ex as [final Hmain].
  pose proof (main_same ex_ring_dir [] disk ∅) as Hsame. rewrite Hmain in Hsame.
  destruct (main ex_ring_dir [] disk) as [final'|e]; [by exists final'|destruct Hsame].
Qed.

Lemma main_unreadable_ex : main ex_unreadable [] ∅ = Exit ShapeOpenFailed.
Proof. rewrite main_unfold, accumulate_unreadable_ex. reflexivity. Qed.

Lemma output_file_layout_witness :
  exists final,
    main ex_ring_dir [] ∅ = Ok final
    /\ exists st,
         accumulate ex_ring_dir (acc_start ∅) = Ok st
         /\ bytes (ofp final)
            = version_block []
                ++ fst (file_layout (spools st) grid) ++ snd (file_layout (spools st) grid)
         /\ length (version_block []) = 128%nat
         /\ Z.of_nat (length (fst (file_layout (spools st) grid))) = 777600
         /\ cursor (ofp final) = Z.of_nat (length (bytes (ofp final))).
Proof.
  destruct main_ring_ex as [final Hmain]. exists final. split; [exact Hmain|].
  exact (output_file_layout ex_ring_dir [] ∅ final Hmain).
Defined.

Lemma cell_segments_at_address_witness :
  exists final,
    main ex_ring_dir [] ∅ = Ok final
    /\ exists segs bufs address,
         flat_map spooled ex_ring_segments = flat_map spooled segs
         /\ Forall (fun V => (2 <= length V)%nat) segs
         /\ segment_buffers segs = Ok bufs
         /\ header_size <= address
         /\ address + Z.of_nat (length (concat bufs))
            <= Z.of_nat (length (bytes (ofp final)))
         /\ take (length (concat bufs)) (drop (Z.to_nat address) (bytes (ofp final)))
            = concat bufs
         /\ (address < 2 ^ 31 -> total_vertices segs < 2 ^ 31 ->
               entry final 0 180 = (address, Z.of_nat (length segs), total_vertices segs)).
Proof.
  destruct main_ring_ex as [final Hmain]. exists final. split; [exact Hmain|].
  apply (cell_segments_at_address ex_ring_dir [] ∅ final _ 0 180 _ Hmain
           accumulate_ring_ex).
  - unfold in_grid. lia.
  - rewrite spools_Acc. apply lookup_singleton_eq.
Defined.

Lemma total_is_directory_sum_witness :
  exists final,
    main ex_ring_dir [] ∅ = Ok final
    /\ packed_total final = wrap32 (directory_vertices final).
Proof.
  destruct main_ring_ex as [final Hmain]. exists final. split; [exact Hmain|].
  exact (total_is_directory_sum ex_ring_dir [] ∅ final Hmain).
Defined.

Lemma cell_loop_packs_in_order_witness :
  cell_loop 12 (flat_map spooled ex_ring_segments) (Stream [1; 2; 3] 3) 0 0 40
    = (bufs ← segment_buffers ex_ring_segments;
       Ok (Stream ([1; 2; 3] ++ concat bufs)
             (Z.of_nat (length ([1; 2; 3] ++ concat bufs))),
           0 + Z.of_nat (length ex_ring_segments),
           wrap32 (0 + total_vertices ex_ring_segments),
           wrap32 (40 + total_vertices ex_ring_segments)))
  /\ (forall e,
        cell_loop 12 (flat_map spooled ex_ring_segments) (Stream [1; 2; 3] 3) 0 0 40
          = Exit e ->
        e = LonBiasOutOfRange \/ e = LatBiasOutOfRange).
Proof.
  apply (cell_loop_packs_in_order ex_ring_segments 12 (Stream [1; 2; 3] 3) 0 0 40).
  - repeat constructor.
  - vm_compute. lia.
  - reflexivity.
  - unfold int32. lia.
  - unfold int32. lia.
Defined.

Example ring_cell_packed :
  packed_cell (flat_map spooled ex_ring_segments)
    = Ok ([16; 67; 179; 202; 236; 242; 186; 38; 20; 80; 0; 97; 168; 0;
           16; 67; 57; 229; 110; 121; 90; 39; 154; 240; 1; 36; 248; 0], 2, 5).
Proof. vm_compute. reflexivity. Qed.

Lemma accumulate_wide_ex :
  accumulate ex_wide_dir (acc_start ∅)
    = Ok (Acc {[ (180, 0) := spooled [(18025000, 25000); (18225000, 25000)] ]} 0
            [18025000; 18225000] [25000; 25000] false 2).
Proof. vm_compute. reflexivity. Qed.

(** A shape file whose vertices are two degrees apart: both are kept, the
    segment goes to the spool, and the codec pass stops on its bias. *)
Example run_exits_on_wide_segment :
  main ex_wide_dir [] ∅ = Exit LonBiasOutOfRange.
Proof.
  destruct (main ex_wide_dir [] ∅) as [final|e] eqn:Hmain.
  - apply main_layout in Hmain as (st & Hacc & _ & _ & Hok).
    rewrite accumulate_wide_ex in Hacc. injection Hacc as <-.
    destruct (Hok 0 180 _ ltac:(unfold in_grid; lia) (lookup_singleton_eq _ _))
      as [r Hr].
    vm_compute in Hr. discriminate Hr.
  - apply main_exit in Hmain as [Hacc|(st & i & j & fp & Hacc & _ & _ & Hfp & Hexit)].
    + rewrite accumulate_wide_ex in Hacc. discriminate Hacc.
    + rewrite accumulate_wide_ex in Hacc. injection Hacc as <-.
      rewrite spools_Acc in Hfp. apply lookup_singleton_Some in Hfp as [_ <-].
      vm_compute in Hexit. by injection Hexit as <-.
Qed.

(** ** Runs in a directory where [remove] fails *)

Lemma stale_removable_empty (stuck : Z * Z -> bool) : stale_removable stuck ∅.
Proof. intros i j _ [x Hx]. by rewrite lookup_empty in Hx. Qed.

Lemma main_fs_wide_ex : main_fs all_stuck ex_wide_dir [] ∅ = Exit LonBiasOutOfRange.
Proof.
  pose proof (main_fs_same all_stuck ex_wide_dir [] ∅ (stale_removable_empty _)) as Hsame.
  rewrite run_exits_on_wide_segment in Hsame.
  destruct (main_fs all_stuck ex_wide_dir [] ∅) as [f|e]; [destruct Hsame|].
  cbn [same_result] in Hsame. by subst e.
Qed.

Lemma run_stops_for_three_reasons_witness :
  (LonBiasOutOfRange = ShapeOpenFailed
   /\ accumulate ex_wide_dir (acc_start_fs all_stuck ∅) = Exit ShapeOpenFailed)
  \/ ((LonBiasOutOfRange = LonBiasOutOfRange \/ LonBiasOutOfRange = LatBiasOutOfRange)
      /\ exists st i j segs,
           accumulate ex_wide_dir (acc_start_fs all_stuck ∅) = Ok st /\ in_grid i j
           /\ spools st !! (j, i) = Some (flat_map spooled segs)
           /\ segment_buffers segs = Exit LonBiasOutOfRange).
Proof.
  exact (run_stops_for_three_reasons all_stuck ex_wide_dir [] ∅ LonBiasOutOfRange
           (stale_removable_empty _) main_fs_wide_ex).
Defined.

(** A spool that an earlier run left cut short and that [remove] fails on:
    the first pass appends to it, here nothing, and the codec pass stops
    on the read of a vertex that is not there. *)
Example run_reads_stuck_spool :
  main_fs all_stuck ex_dir [] {[ (0, 0) := [5; 1; 2] ]} = Exit BadReturn.
Proof.
  rewrite main_fs_unfold.
  assert (Hacc : accumulate ex_dir (acc_start_fs all_stuck {[ (0, 0) := [5; 1; 2] ]})
                 = Ok (Acc {[ (0, 0) := [5; 1; 2] ]} 0 [] [] false 0))
    by (vm_compute; reflexivity).
  rewrite Hacc.
  refine (eq_trans
            (result_bind_Ok (fun st => codec_pass_fs all_stuck [] (spools st))
               (Acc {[ (0, 0) := [5; 1; 2] ]} 0 [] [] false 0)) _).
  rewrite spools_Acc, codec_pass_fs_start, codec_loop_fs_grid.
  destruct grid_head as [grid' ->]. cbn [for_each fst snd].
  assert (Hcell : forall o h t,
            codec_cell_fs all_stuck 0 0 (Codec o {[ (0, 0) := [5; 1; 2] ]} h t)
            = Exit BadReturn).
  { intros o h t. unfold codec_cell_fs. cbn [cells].
    rewrite lookup_singleton_eq. reflexivity. }
  by rewrite Hcell.
Qed.

Lemma stuck_spool_packed (i j : Z) (fp : list Z) :
  ({[ (0, 0) := spooled [(0, 0); (1, 1)] ]} : gmap (Z * Z) (list Z)) !! (j, i) = Some fp ->
  exists r, packed_cell fp = Ok r.
Proof. intros [_ <-]%lookup_singleton_Some. vm_compute. eauto. Qed.

(** A whole segment in a spool that an earlier run left and that [remove]
    fails on: with no shape file at all, the segment is packed into the
    output file, and the spool is still there after the run. *)
Example stuck_spool_reaches_output :
  exists final,
    main_fs all_stuck ex_no_dir [] {[ (0, 0) := spooled [(0, 0); (1, 1)] ]} = Ok final
    /\ entry final 0 0 = (777728, 1, 2)
    /\ cells final !! (0, 0) = Some (spooled [(0, 0); (1, 1)]).
Proof.
  set (m := ({[ (0, 0) := spooled [(0, 0); (1, 1)] ]} : gmap (Z * Z) (list Z))).
  assert (Hacc : accumulate ex_no_dir (acc_start_fs all_stuck m)
                 = Ok (Acc m 0 [] [] false 0))
    by (vm_compute; reflexivity).
  assert (Hfs : main_fs all_stuck ex_no_dir [] m = codec_pass_fs all_stuck [] m).
  { rewrite main_fs_unfold, Hacc.
    exact (result_bind_Ok (fun st => codec_pass_fs all_stuck [] (spools st))
             (Acc m 0 [] [] false 0)). }
  rewrite Hfs.
  pose proof (codec_pass_fs_sim all_stuck [] m) as Hsim.
  destruct (codec_loop_ok m (version_block []) _ (length_version_block _)
              (codec_layout_start m []) (fun i j fp _ => stuck_spool_packed i j fp))
    as [f Hf].
  rewrite <- codec_pass_start in Hf. rewrite Hf in Hsim.
  destruct Hsim as (f' & Hrun & Hofp & _ & _ & _ & Hdone).
  exists f'. split; [exact Hrun|].
  rewrite codec_pass_start in Hf.
  apply (codec_loop_layout m (version_block [])) in Hf as [Hlayout Hok];
    [|apply length_version_block|apply codec_layout_start].
  assert (Hg : in_grid 0 0) by (unfold in_grid; lia).
  destruct (grid_split 0 0 Hg) as [l2 Hgrid].
  pose proof (layout_cell_at m (version_block []) f 0 0 (cells_before 0 0) l2
                (length_version_block _) Hgrid Hok (codec_layout_bytes _ _ _ Hlayout))
    as Hcell.
  assert (Hm : m !! (0, 0) = Some (spooled [(0, 0); (1, 1)]))
    by apply lookup_singleton_eq.
  rewrite Hm in Hcell. destruct Hcell as (d & n & vs & Hp & He & _).
  vm_compute in Hp. injection Hp as <- <- <-.
  split.
  - unfold entry in *. rewrite Hofp, He. vm_compute. reflexivity.
  - rewrite (Hdone 0 0 Hg). exact Hm.
Qed.

Lemma main_fs_ring_ex (stuck : Z * Z -> bool) (disk : gmap (Z * Z) (list Z)) :
  stale_removable stuck disk -> exists final, main_fs stuck ex_ring_dir [] disk = Ok final.
Proof.
  intros Hclean. destruct (main_ring_any_disk disk) as [f Hmain].
  pose proof (main_fs_same stuck ex_ring_dir [] disk Hclean) as Hsame.
  rewrite Hmain in Hsame.
  destruct (main_fs stuck ex_ring_dir [] disk) as [f'|e]; [by exists f'|destruct Hsame].
Qed.

Lemma stale_removable_ex :
  stale_removable (fun c => (fst c =? 181) && (snd c =? 0))
    {[ (180, 0) := [7]; (360, 0) := [8] ]}.
Proof.
  intros i j Hg [x Hx]. cbn [fst snd].
  apply lookup_insert_Some in Hx as [[[= <- <-] _]|[_ [[= <- <-] _]%lookup_singleton_Some]].
  - reflexivity.
  - reflexivity.
Qed.

Lemma spools_removed_files_kept_witness :
  exists final,
    main_fs (fun c => (fst c =? 181) && (snd c =? 0)) ex_ring_dir []
      {[ (180, 0) := [7]; (360, 0) := [8] ]} = Ok final
    /\ exists st,
         accumulate ex_ring_dir
           (acc_start_fs (fun c => (fst c =? 181) && (snd c =? 0))
              {[ (180, 0) := [7]; (360, 0) := [8] ]}) = Ok st
         /\ (in_grid 0 180 -> (fun c => (fst c =? 181) && (snd c =? 0)) (180, 0) = false ->
               cells final !! (180, 0) = None)
         /\ (in_grid 0 180 -> (fun c => (fst c =? 181) && (snd c =? 0)) (180, 0) = true ->
               cells final !! (180, 0) = spools st !! (180, 0))
         /\ (~ in_grid 0 180 ->
               cells final !! (180, 0)
               = ({[ (180, 0) := [7]; (360, 0) := [8] ]} : gmap (Z * Z) (list Z))
                   !! (180, 0)).
Proof.
  destruct (main_fs_ring_ex _ _ stale_removable_ex) as [final Hmain].
  exists final. split; [exact Hmain|].
  exact (spools_removed_files_kept _ ex_ring_dir [] _ final 0 180 Hmain).
Defined.

Lemma accumulate_ring_stuck_ex :
  accumulate ex_ring_dir (acc_start_fs all_stuck {[ (180, 0) := [7] ]})
    = Ok (Acc {[ (180, 0) := 7 :: flat_map spooled ex_ring_segments ]} 0
            [18075000; 18087500] [75000; 87500] false 7).
Proof. vm_compute. reflexivity. Qed.

Lemma run_ignores_files_on_disk_witness :
  same_result
    (fun final1 final2 =>
       ofp final1 = ofp final2 /\ packed_total final1 = packed_total final2)
    (main_fs all_stuck ex_ring_dir [] ∅)
    (main_fs (fun c => (fst c =? 181) && (snd c =? 0)) ex_ring_dir []
       {[ (180, 0) := [7]; (360, 0) := [8] ]}).
Proof.
  exact (run_ignores_files_on_disk all_stuck _ ex_ring_dir [] ∅ _
           (stale_removable_empty _) stale_removable_ex).
Defined.

Lemma cell_spool_after_first_pass_witness :
  let fname := cell_of true 0 false 90 in
  let cornerx := ((double_of_int (fst fname) * 3600)%float,
                  (double_of_int (fst fname + 1) * 3600)%float) in
  let cornery := ((double_of_int (snd fname) * 3600)%float,
                  (double_of_int (snd fname + 1) * 3600)%float) in
  let left_over :=
    if all_stuck fname
    then ({[ (180, 0) := [7] ]} : gmap (Z * Z) (list Z)) !! fname else None in
  (forall ds shapes,
     find_dataset ex_ring_dir true 0 false 90 = Some (ds, Shapes shapes) ->
     exists segs,
       spools (Acc {[ (180, 0) := 7 :: flat_map spooled ex_ring_segments ]} 0
                 [18075000; 18087500] [75000; 87500] false 7) !! fname
         = Some (default [] left_over ++ flat_map spooled segs)
       /\ Forall (fun V => (2 <= length V)%nat
                           /\ Forall (kept_point cornerx cornery shapes) V) segs)
  /\ (find_dataset ex_ring_dir true 0 false 90 = None
      -> spools (Acc {[ (180, 0) := 7 :: flat_map spooled ex_ring_segments ]} 0
                   [18075000; 18087500] [75000; 87500] false 7) !! fname = left_over).
Proof.
  apply (cell_spool_after_first_pass all_stuck ex_ring_dir {[ (180, 0) := [7] ]} _
           true 0 false 90 accumulate_ring_stuck_ex); apply elem_of_seqZ; lia.
Defined.
